(** * open-lovable: the route handlers and the provider manager

    A shallow embedding of the route handlers of the repository
    (app/api/apply-ai-code-stream/route.ts, app/api/generate-ai-code-stream/route.ts,
    app/api/run-command/route.ts and app/api/kill-sandbox/route.ts) and of
    lib/ai/provider-manager.ts, together with the Node.js [path] functions
    and the JavaScript string and regular-expression primitives they call.

    Conventions of the model:
    - a string is a sequence of code units below 256;
    - [path] is the POSIX flavour of the Node.js module (the separator is the
      slash), and the working directory of the process is the project root;
    - a thrown error is its message; an asynchronous handler is the function
      from its inputs to the frames it writes, in order, and to the final
      state of the file system;
    - request bodies are typed: a field is absent or has the type the schema
      expects; numbers are integers; no prototype has been tampered with;
    - the network, the AI SDK, the sandbox and the clock are inputs: a call
      to them resolves to a value or rejects with an error;
    - Zod reports every failing check of a string, refinements included. *)

From Stdlib Require Import String Ascii List Bool Arith Lia DecimalString.
From stdpp Require Import gmap strings list.

Import ListNotations.
Local Open Scope string_scope.
Local Open Scope list_scope.

(* ====================================================================== *)
(** * JavaScript string primitives *)
(* ====================================================================== *)

Module JsString.

(** Code-unit classes of the regular expressions: [\s] (also the set removed
    by [String.prototype.trim]) and [\w]. *)
Definition is_space (c : ascii) : bool :=
  let n := nat_of_ascii c in
  (Nat.leb 9 n && Nat.leb n 13) || Nat.eqb n 32 || Nat.eqb n 160.

Definition is_word (c : ascii) : bool :=
  let n := nat_of_ascii c in
  (Nat.leb 48 n && Nat.leb n 57) || (Nat.leb 65 n && Nat.leb n 90)
  || (Nat.leb 97 n && Nat.leb n 122) || Nat.eqb n 95.

(** [s.startsWith(p)] *)
Fixpoint startsWith (s p : string) {struct p} : bool :=
  match p, s with
  | EmptyString, _ => true
  | String _ _, EmptyString => false
  | String b p', String a s' => Ascii.eqb a b && startsWith s' p'
  end.

(** [s.includes(sub)] *)
Fixpoint includes (s sub : string) : bool :=
  startsWith s sub ||
  match s with
  | EmptyString => false
  | String _ s' => includes s' sub
  end.

(** [s.endsWith(suf)]: some tail of [s] is [suf]. *)
Fixpoint endsWith (s suf : string) : bool :=
  String.eqb s suf ||
  match s with
  | EmptyString => false
  | String _ s' => endsWith s' suf
  end.

(** [s.slice(n)] for [0 <= n]. *)
Fixpoint sliceFrom (n : nat) (s : string) : string :=
  match n, s with
  | O, _ => s
  | S n', String _ s' => sliceFrom n' s'
  | S _, EmptyString => EmptyString
  end.

(** [s.split(c)] for a one-unit separator; the result is never empty. *)
Fixpoint splitOn (c : ascii) (s : string) : list string :=
  match s with
  | EmptyString => [EmptyString]
  | String a s' =>
      if Ascii.eqb a c then EmptyString :: splitOn c s'
      else match splitOn c s' with
           | h :: t => String a h :: t
           | [] => [String a EmptyString]
           end
  end.

(** [l.join(sep)] *)
Definition join (sep : string) (l : list string) : string := String.concat sep l.

Fixpoint dropWhile (f : ascii -> bool) (s : string) : string :=
  match s with
  | EmptyString => EmptyString
  | String a s' => if f a then dropWhile f s' else s
  end.

Fixpoint takeWhile (f : ascii -> bool) (s : string) : string :=
  match s with
  | EmptyString => EmptyString
  | String a s' => if f a then String a (takeWhile f s') else EmptyString
  end.

Fixpoint trimEnd (s : string) : string :=
  match s with
  | EmptyString => EmptyString
  | String a s' =>
      match trimEnd s' with
      | EmptyString => if is_space a then EmptyString else String a EmptyString
      | t => String a t
      end
  end.

(** [s.trim()] *)
Definition trim (s : string) : string := trimEnd (dropWhile is_space s).

(** Index of the first occurrence of [sub] in [s] ([s.indexOf(sub)]). *)
Fixpoint indexOf (s sub : string) : option nat :=
  if startsWith s sub then Some 0
  else match s with
       | EmptyString => None
       | String _ s' => option_map S (indexOf s' sub)
       end.

(** [s.substring(0, n)] *)
Fixpoint sliceTo (n : nat) (s : string) : string :=
  match n, s with
  | S n', String a s' => String a (sliceTo n' s')
  | _, _ => EmptyString
  end.

(** Members of an array of strings ([arr.includes(x)]). *)
Definition arrIncludes (arr : list string) (x : string) : bool :=
  existsb (String.eqb x) arr.

(** Template-literal rendering of a non-negative integer. *)
Definition ofNat (n : nat) : string := NilEmpty.string_of_uint (Nat.to_uint n).

(** [a || b] on strings: the empty string is falsy. *)
Definition orElse (a b : string) : string :=
  match a with EmptyString => b | _ => a end.

End JsString.

(* ====================================================================== *)
(** * Node.js [path] (POSIX flavour) *)
(* ====================================================================== *)

Module NodePath.
Import JsString.

Definition sep : ascii := "/"%char.

(** [path.isAbsolute(p)]: the first code unit is a slash. *)
Definition isAbsolute (p : string) : bool :=
  match p with
  | String a _ => Ascii.eqb a sep
  | EmptyString => false
  end.

(** One step of [normalizeString]: [stack] holds the segments kept so far,
    innermost first.  Empty and [.] segments are dropped; [..] removes the
    last kept segment unless that is itself [..] or nothing is kept, in which
    case it is kept only when the path may climb above its start. *)
Definition normalizeStep (allowAboveRoot : bool) (stack : list string) (seg : string)
  : list string :=
  if String.eqb seg "" || String.eqb seg "." then stack
  else if String.eqb seg ".." then
    match stack with
    | top :: rest =>
        if String.eqb top ".." then
          (if allowAboveRoot then ".." :: stack else stack)
        else rest
    | [] => if allowAboveRoot then [".."] else []
    end
  else seg :: stack.

Definition normalizeSegments (allowAboveRoot : bool) (segs : list string) : list string :=
  rev (fold_left (normalizeStep allowAboveRoot) segs []).

Definition normalizeString (p : string) (allowAboveRoot : bool) : string :=
  join "/" (normalizeSegments allowAboveRoot (splitOn sep p)).

(** [path.normalize(p)] *)
Definition normalize (p : string) : string :=
  match p with
  | EmptyString => "."
  | _ =>
      let isAbs := isAbsolute p in
      let trailingSeparator := endsWith p "/" in
      let r := normalizeString p (negb isAbs) in
      match r with
      | EmptyString =>
          if isAbs then "/" else if trailingSeparator then "./" else "."
      | _ =>
          let r' := if trailingSeparator then r +:+ "/" else r in
          if isAbs then "/" +:+ r' else r'
      end
  end.

(** The loop of [path.resolve]: arguments are taken right to left, then the
    working directory, until the accumulated path is absolute; empty
    arguments are skipped. *)
Fixpoint resolveLoop (args : list string) (resolvedPath : string) (resolvedAbsolute : bool)
  : string * bool :=
  match args with
  | [] => (resolvedPath, resolvedAbsolute)
  | p :: rest =>
      if resolvedAbsolute then (resolvedPath, resolvedAbsolute)
      else match p with
           | EmptyString => resolveLoop rest resolvedPath resolvedAbsolute
           | _ => resolveLoop rest (p +:+ "/" +:+ resolvedPath) (isAbsolute p)
           end
  end.

(** [path.resolve(...args)] in a process whose working directory is [cwd]. *)
Definition resolve (cwd : string) (args : list string) : string :=
  let '(resolvedPath, resolvedAbsolute) := resolveLoop (rev args ++ [cwd]) "" false in
  let r := normalizeString resolvedPath (negb resolvedAbsolute) in
  if resolvedAbsolute then "/" +:+ r
  else match r with EmptyString => "." | _ => r end.

(** [path.basename(p)]: the last non-empty segment. *)
Definition basename (p : string) : string :=
  List.last (List.filter (fun s => negb (String.eqb s "")) (splitOn sep p)) "".

(** Position of the last dot of [s], if any. *)
Fixpoint lastDot (s : string) : option nat :=
  match s with
  | EmptyString => None
  | String a s' =>
      match lastDot s' with
      | Some i => Some (S i)
      | None => if Ascii.eqb a "."%char then Some 0 else None
      end
  end.

(** [path.extname(p)]: from the last dot of the base name to its end; empty
    when there is no dot, when the base name starts with its only dot, or
    when the base name is [..]. *)
Definition extname (p : string) : string :=
  let b := basename p in
  match lastDot b with
  | None => ""
  | Some O => ""
  | Some i => if String.eqb b ".." then "" else sliceFrom i b
  end.

Fixpoint revString (s acc : string) : string :=
  match s with
  | EmptyString => acc
  | String a s' => revString s' (String a acc)
  end.

(** [path.dirname(p)]: trailing slashes and the base name are removed, the
    scan never looking at the first code unit. *)
Definition dirname (p : string) : string :=
  match p with
  | EmptyString => "."
  | String c0 t =>
      let hasRoot := Ascii.eqb c0 sep in
      let r1 := dropWhile (fun c => Ascii.eqb c sep) (revString t "") in
      let r2 := dropWhile (fun c => negb (Ascii.eqb c sep)) r1 in
      match r2 with
      | EmptyString => if hasRoot then "/" else "."
      | String _ r3 =>
          match r3 with
          | EmptyString => if hasRoot then "//" else String c0 ""
          | _ => String c0 (revString r3 "")
          end
      end
  end.

End NodePath.

(* ====================================================================== *)
(** * The regular expressions of the routes *)
(* ====================================================================== *)

Module Regex.
Import JsString.

Definition dquote : ascii := "034"%char.
Definition squote : ascii := "039"%char.
Definition Q : string := String dquote EmptyString.
Definition LF : string := String "010"%char EmptyString.
Definition fence : string := "```".

Definition notDquote (c : ascii) : bool := negb (Ascii.eqb c dquote).
Definition isQuote (c : ascii) : bool := Ascii.eqb c squote || Ascii.eqb c dquote.
Definition notQuote (c : ascii) : bool := negb (isQuote c).

(** A global regular expression run over a whole text ([exec] in a loop, or
    [matchAll]): [matchAt] tells whether the expression matches at the start
    of a suffix and how many code units the match spans (at least one); the
    search resumes right after each match.  None of the expressions below
    matches the empty suffix. *)
Section Scan.
Context {A : Type} (matchAt : string -> option (A * nat)).

Fixpoint scanFrom (skip : nat) (s : string) : list A :=
  match s with
  | EmptyString => []
  | String _ s' =>
      match skip with
      | S k => scanFrom k s'
      | O =>
          match matchAt s with
          | Some (a, len) => a :: scanFrom (len - 1) s'
          | None => scanFrom 0 s'
          end
      end
  end.

Definition matchAll (s : string) : list A := scanFrom 0 s.
End Scan.

(** The tagged block: the literal [<file], white space ([lax]: one or more
    units of the space class; otherwise exactly one blank), the attribute
    [path=] with a quoted non-empty value free of double quotes, [>], the
    shortest text up to the closing tag.  Yields the path and the raw
    content. *)
Definition matchFileTagAt (lax : bool) (s : string) : option ((string * string) * nat) :=
  if startsWith s "<file" then
    let s1 := sliceFrom 5 s in
    let ws := if lax then String.length (takeWhile is_space s1)
              else if startsWith s1 " " then 1 else 0 in
    let s2 := sliceFrom ws s1 in
    if Nat.eqb ws 0 then None
    else if startsWith s2 ("path=" +:+ Q) then
      let s3 := sliceFrom 6 s2 in
      let p := takeWhile notDquote s3 in
      let s4 := sliceFrom (String.length p) s3 in
      if Nat.eqb (String.length p) 0 then None
      else if startsWith s4 (Q +:+ ">") then
        let body := sliceFrom 2 s4 in
        match indexOf body "</file>" with
        | Some i => Some ((p, sliceTo i body), 5 + ws + 6 + String.length p + 2 + i + 7)
        | None => None
        end
      else None
    else None
  else None.

(** First success of [f] over the candidates, in order: the order in which a
    backtracking matcher tries them. *)
Definition firstSome {A B : Type} (f : A -> option B) (l : list A) : option B :=
  fold_right (fun a r => match f a with Some b => Some b | None => r end) None l.

(** [n, n-1, ..., 0]: a greedy quantifier gives back one unit at a time. *)
Definition countdown (n : nat) : list nat := rev (seq 0 (S n)).

(** End of the fenced block once the opening line is read: a line feed, the
    shortest text up to the next fence. *)
Definition mdTail (path : option string) (consumed : nat) (s : string)
  : option ((option string * string) * nat) :=
  if startsWith s LF then
    let body := sliceFrom 1 s in
    match indexOf body fence with
    | Some i => Some ((path, sliceTo i body), consumed + 1 + i + 3)
    | None => None
    end
  else None.

(** The optional path attribute of the opening fence: tried first with the
    attribute, then without it. *)
Definition mdAttr (consumed : nat) (s : string)
  : option ((option string * string) * nat) :=
  let withAttr :=
    if startsWith s ("path=" +:+ Q) then
      let s1 := sliceFrom 6 s in
      let p := takeWhile notDquote s1 in
      let s2 := sliceFrom (String.length p) s1 in
      if Nat.eqb (String.length p) 0 then None
      else if startsWith s2 Q then
        mdTail (Some p) (consumed + 6 + String.length p + 1) (sliceFrom 1 s2)
      else None
    else None in
  match withAttr with
  | Some r => Some r
  | None => mdTail None consumed s
  end.

(** The fenced block: three backquotes, an optional language word, optional
    white space, the optional path attribute, a line feed, the shortest text
    up to the closing fence.  The language word and the white space are
    greedy and give units back when the rest does not match. *)
Definition matchMarkdownAt (s : string) : option ((option string * string) * nat) :=
  if startsWith s fence then
    let s0 := sliceFrom 3 s in
    firstSome (fun k =>
      let sk := sliceFrom k s0 in
      firstSome (fun j => mdAttr (3 + k + j) (sliceFrom j sk))
                (countdown (String.length (takeWhile is_space sk))))
      (countdown (String.length (takeWhile is_word s0)))
  else None.

(** The import expression: the word [import] or [require], optional white
    space, an optional opening parenthesis, a quote of either kind, a
    non-empty specifier free of quotes, a quote of either kind, an optional
    closing parenthesis.  Yields the specifier. *)
Definition matchImportAt (s : string) : option (string * nat) :=
  let kw := if startsWith s "import" then 6
            else if startsWith s "require" then 7 else 0 in
  if Nat.eqb kw 0 then None
  else
    let s1 := sliceFrom kw s in
    let ws := String.length (takeWhile is_space s1) in
    let s2 := sliceFrom ws s1 in
    let op := if startsWith s2 "(" then 1 else 0 in
    let s3 := sliceFrom op s2 in
    match s3 with
    | String c s4 =>
        if isQuote c then
          let spec := takeWhile notQuote s4 in
          let s5 := sliceFrom (String.length spec) s4 in
          if Nat.eqb (String.length spec) 0 then None
          else match s5 with
               | String c' s6 =>
                   if isQuote c' then
                     let cl := if startsWith s6 ")" then 1 else 0 in
                     Some (spec, kw + ws + op + 1 + String.length spec + 1 + cl)
                   else None
               | EmptyString => None
               end
        else None
    | EmptyString => None
    end.

Definition importSpecifiers (content : string) : list string :=
  matchAll matchImportAt content.

End Regex.

(* ====================================================================== *)
(** * The file system seen through [fs.promises] *)
(* ====================================================================== *)

Module Fs.
Import JsString NodePath.

(** A rejected promise or a thrown [Error], by its message. *)
Inductive Outcome (A : Type) : Type :=
| Ok (a : A)
| Throw (message : string).
Arguments Ok {A} a.
Arguments Throw {A} message.

(** Entries are keyed by the segments of their absolute path; the root
    directory (no segment) always exists. *)
Record Disk := mkDisk {
  d_files : gmap (list string) string;
  d_dirs : gset (list string)
}.

Definition emptyDisk : Disk := mkDisk ∅ ∅.

Definition fsKey (abs : string) : list string :=
  List.filter (fun s => negb (String.eqb s "")) (splitOn sep abs).

Definition isFile (d : Disk) (k : list string) : bool :=
  bool_decide (is_Some (d_files d !! k)).

Definition isDir (d : Disk) (k : list string) : bool :=
  bool_decide (k = [] ∨ k ∈ d_dirs d).

(** [fs.access(abs)] resolves ([true]) when the entry exists. *)
Definition access (d : Disk) (abs : string) : bool :=
  isDir d (fsKey abs) || isFile d (fsKey abs).

(** The non-empty prefixes of a key, shortest first. *)
Definition ancestors (k : list string) : list (list string) :=
  map (fun n => firstn n k) (seq 1 (List.length k)).

(** [fs.mkdir(abs, { recursive: true })] *)
Definition mkdir (d : Disk) (abs : string) : Outcome Disk :=
  let k := fsKey abs in
  if existsb (isFile d) (removelast (ancestors k)) then
    Throw ("ENOTDIR: not a directory, mkdir '" +:+ abs +:+ "'")
  else if isFile d k then
    Throw ("EEXIST: file already exists, mkdir '" +:+ abs +:+ "'")
  else Ok (mkDisk (d_files d) (d_dirs d ∪ list_to_set (ancestors k))).

(** [fs.writeFile(abs, content, 'utf-8')]: the whole content replaces the
    file's. *)
Definition writeFileAbs (d : Disk) (abs content : string) : Outcome Disk :=
  let k := fsKey abs in
  if isDir d k then
    Throw ("EISDIR: illegal operation on a directory, open '" +:+ abs +:+ "'")
  else if isFile d (removelast k) then
    Throw ("ENOTDIR: not a directory, open '" +:+ abs +:+ "'")
  else if negb (isDir d (removelast k)) then
    Throw ("ENOENT: no such file or directory, open '" +:+ abs +:+ "'")
  else Ok (mkDisk (<[k := content]> (d_files d)) (d_dirs d)).

(** [fs.readFile(abs, 'utf-8')] *)
Definition readFileAbs (d : Disk) (abs : string) : Outcome string :=
  match d_files d !! fsKey abs with
  | Some c => Ok c
  | None => Throw ("ENOENT: no such file or directory, open '" +:+ abs +:+ "'")
  end.

(** The operations of [fs.promises] the routes call, over any state [D] of
    a file system: each one may reject with any error. *)
Record FileSystem (D : Type) := mkFileSystem {
  fs_access : D -> string -> bool;
  fs_mkdir : D -> string -> Outcome D;
  fs_writeFile : D -> string -> string -> Outcome D;
  fs_readFile : D -> string -> Outcome string
}.
Arguments mkFileSystem {D}.
Arguments fs_access {D}.
Arguments fs_mkdir {D}.
Arguments fs_writeFile {D}.
Arguments fs_readFile {D}.

(** The disk above as such a file system. *)
Definition posix : FileSystem Disk := mkFileSystem access mkdir writeFileAbs readFileAbs.

End Fs.

(* ====================================================================== *)
(** * The apply route (apply-ai-code-stream) *)
(* ====================================================================== *)

Module ApplyRoute.
Import JsString NodePath Regex Fs.

Record FileToApply := mkFile { path : string; content : string }.

(** ** Validation schemas *)

(** The third refinement of the path: its normalized form is the path
    itself, the path behind [./], or the path without a leading [./]. *)
Definition pathFormatOk (p : string) : bool :=
  let normalized := normalize p in
  String.eqb normalized p
  || String.eqb normalized ("./" +:+ p)
  || String.eqb normalized (if startsWith p "./" then sliceFrom 2 p else p).

(** The issues Zod records for one file, in the order of the checks; every
    check runs whatever the earlier ones found. *)
Definition FileSchema_issues (f : FileToApply) : list string :=
  let p := path f in
  (if Nat.ltb (String.length p) 1 then ["File path cannot be empty"] else [])
  ++ (if Nat.ltb 500 (String.length p) then ["File path too long"] else [])
  ++ (if includes p ".." then
        ["Path traversal detected: " +:+ Q +:+ ".." +:+ Q +:+ " not allowed"] else [])
  ++ (if isAbsolute p then ["Absolute paths not allowed"] else [])
  ++ (if pathFormatOk p then [] else ["Invalid path format"]).

(** The request body after [request.json()]: each field may be absent. *)
Record Body := mkBody {
  body_files : option (list FileToApply);
  body_generatedCode : option string;
  body_packages : option (list string)
}.

Definition ApplyCodeRequestSchema_issues (files : option (list FileToApply)) : list string :=
  match files with
  | None => ["Required"]
  | Some fs =>
      (if Nat.ltb (List.length fs) 1 then ["At least one file is required"] else [])
      ++ (if Nat.ltb 100 (List.length fs) then ["Too many files in single request"] else [])
      ++ flat_map FileSchema_issues fs
  end.

(** ** Security configuration *)

Definition protectedFiles : list string :=
  [".env"; ".env.local"; ".env.development"; ".env.production"; ".env.test";
   ".git"; ".gitignore"; "package-lock.json"; "yarn.lock"; "pnpm-lock.yaml"].

Definition protectedDirectories : list string :=
  [".git"; "node_modules"; ".next"; "dist"; "build"; ".vercel"; ".cache"].

Definition allowedExtensions : list string :=
  [".js"; ".jsx"; ".ts"; ".tsx";
   ".json"; ".html"; ".css"; ".scss"; ".sass";
   ".md"; ".mdx"; ".txt";
   ".svg"; ".png"; ".jpg"; ".jpeg"; ".gif"; ".webp";
   ".env.example"; ".gitignore.example"].

Record PathCheck := mkCheck { safe : bool; reason : option string }.

(** ** Parsing utilities *)

(** The [Map] from path to content: entries in insertion order, a [set] on
    a present key replacing its value in place. *)
Definition FileMap := list (string * string).

Fixpoint mapGet (m : FileMap) (k : string) : option string :=
  match m with
  | [] => None
  | (k', v) :: m' => if String.eqb k' k then Some v else mapGet m' k
  end.

Definition mapHas (m : FileMap) (k : string) : bool :=
  match mapGet m k with Some _ => true | None => false end.

Fixpoint mapSet (m : FileMap) (k v : string) : FileMap :=
  match m with
  | [] => [(k, v)]
  | (k', v') :: m' =>
      if String.eqb k' k then (k, v) :: m' else (k', v') :: mapSet m' k v
  end.

(** Body of both extraction loops: keep the longest version of a path. *)
Definition keepLongest (fileMap : FileMap) (filePath content : string) : FileMap :=
  if negb (mapHas fileMap filePath)
     || Nat.ltb (match mapGet fileMap filePath with
                 | Some c => String.length c
                 | None => 0
                 end) (String.length content)
  then mapSet fileMap filePath content
  else fileMap.

Definition mergeBlocks (fileMap : FileMap) (blocks : list (string * string)) : FileMap :=
  fold_left (fun m b => keepLongest m (fst b) (trim (snd b))) blocks fileMap.

(** Matches of the tagged-block expression. *)
Definition fileTagBlocks (generatedCode : string) : list (string * string) :=
  matchAll (matchFileTagAt true) generatedCode.

(** Matches of the fenced-block expression that carry a path. *)
Definition markdownBlocks (generatedCode : string) : list (string * string) :=
  flat_map (fun m => match fst m with
                     | Some p => [(p, snd m)]
                     | None => []
                     end)
           (matchAll matchMarkdownAt generatedCode).

Definition parseAIGeneratedCode (generatedCode : string) : list FileToApply :=
  let fileMap := mergeBlocks [] (fileTagBlocks generatedCode) in
  let fileMap := mergeBlocks fileMap (markdownBlocks generatedCode) in
  map (fun e => mkFile (fst e) (snd e)) fileMap.

(** [Set.prototype.add]: insertion order, no duplicate. *)
Definition setAdd (s : list string) (x : string) : list string :=
  if arrIncludes s x then s else s ++ [x].

(** The package a specifier names: two segments for a scoped one, else one. *)
Definition packageNameOf (importPath : string) : string :=
  if startsWith importPath "@"
  then join "/" (firstn 2 (splitOn sep importPath))
  else hd "" (splitOn sep importPath).

Definition applySkips (importPath : string) : bool :=
  startsWith importPath "."
  || startsWith importPath "/"
  || startsWith importPath "@/"
  || arrIncludes ["react"; "react-dom"; "next"] importPath.

Definition extractPackages (files : list FileToApply) : list string :=
  fold_left
    (fun packages file =>
       fold_left
         (fun packages importPath =>
            if applySkips importPath then packages
            else setAdd packages (packageNameOf importPath))
         (importSpecifiers (content file)) packages)
    files [].

(** ** Streaming *)

Record ApplyResults := mkResults {
  filesCreated : list string;
  filesUpdated : list string;
  filesSkipped : list string;
  errors : list string;
  packages : list string
}.

Inductive ProgressMessage :=
| Status (message : string)
| FileProgress (current total : nat) (fileName action : string)
| FileComplete (fileName action : string)
| FileError (fileName error : string)
| Complete (message : string) (results : ApplyResults)
| Error (error : string).

(** The response stream: the frames written so far and how many times
    [writer.close()] was called. *)
Record Stream := mkStream { frames : list ProgressMessage; closeCalls : nat }.

Definition sendProgress (data : ProgressMessage) (s : Stream) : Stream :=
  mkStream (frames s ++ [data]) (closeCalls s).

Definition closeWriter (s : Stream) : Stream :=
  mkStream (frames s) (S (closeCalls s)).

Section Handler.
(** The file system the process runs on. *)
Context {D : Type} (fs : FileSystem D).
(** [SECURITY_CONFIG.projectRoot], the working directory of the process. *)
Variable projectRoot : string.

(** State of the handler while it walks the batch. *)
Record Run := mkRun { disk : D; results : ApplyResults; out : Stream }.

Definition emit (data : ProgressMessage) (r : Run) : Run :=
  mkRun (disk r) (results r) (sendProgress data (out r)).

Definition pushError (e : string) (r : Run) : Run :=
  let rs := results r in
  mkRun (disk r)
        (mkResults (filesCreated rs) (filesUpdated rs) (filesSkipped rs)
                   (errors rs ++ [e]) (packages rs))
        (out r).

Definition pushCreated (p : string) (r : Run) : Run :=
  let rs := results r in
  mkRun (disk r)
        (mkResults (filesCreated rs ++ [p]) (filesUpdated rs) (filesSkipped rs)
                   (errors rs) (packages rs))
        (out r).

Definition pushUpdated (p : string) (r : Run) : Run :=
  let rs := results r in
  mkRun (disk r)
        (mkResults (filesCreated rs) (filesUpdated rs ++ [p]) (filesSkipped rs)
                   (errors rs) (packages rs))
        (out r).

Definition setDisk (d : D) (r : Run) : Run := mkRun d (results r) (out r).


Definition isPathSafe (filePath : string) : PathCheck :=
  let normalized := normalize filePath in
  if includes normalized ".." then
    mkCheck false (Some "Path traversal detected")
  else if isAbsolute normalized then
    mkCheck false (Some "Absolute paths not allowed")
  else if negb (startsWith (resolve projectRoot [projectRoot; normalized]) projectRoot) then
    mkCheck false (Some "Path escapes project root")
  else
    let fileName := basename normalized in
    if arrIncludes protectedFiles fileName then
      mkCheck false (Some ("Protected file: " +:+ fileName))
    else
      match List.find (arrIncludes protectedDirectories) (splitOn sep normalized) with
      | Some segment => mkCheck false (Some ("Protected directory: " +:+ segment))
      | None =>
          let ext := extname normalized in
          let hasValidExtension := existsb (endsWith normalized) allowedExtensions in
          if negb hasValidExtension && negb (String.eqb ext "") then
            mkCheck false (Some ("File extension not allowed: " +:+ ext))
          else mkCheck true None
      end.

Definition sanitizeContent (content filePath : string) : string := content.

Definition configFiles : list string :=
  ["package.json"; "tsconfig.json"; "next.config.js"; "next.config.mjs";
   "tailwind.config.js"; "tailwind.config.ts"; "postcss.config.js"; "README.md"].

Definition normalizeFilePath (filePath : string) : string :=
  let normalized := dropWhile (fun c => Ascii.eqb c sep) filePath in
  let fileName := basename normalized in
  let startsWithValidDir :=
    startsWith normalized "src/"
    || startsWith normalized "public/"
    || startsWith normalized "app/"
    || startsWith normalized "pages/"
    || startsWith normalized "components/"
    || startsWith normalized "lib/"
    || startsWith normalized "styles/"
    || startsWith normalized "utils/"
    || arrIncludes configFiles fileName in
  if negb startsWithValidDir && negb (arrIncludes configFiles fileName)
  then "src/" +:+ normalized
  else normalized.

(** ** File operations *)

Definition ensureDirectory (d : D) (filePath : string) : Outcome D :=
  let dir := dirname filePath in
  let absoluteDir := resolve projectRoot [projectRoot; dir] in
  if fs_access fs d absoluteDir then Ok d else fs_mkdir fs d absoluteDir.

Definition fileExists (d : D) (filePath : string) : bool :=
  fs_access fs d (resolve projectRoot [projectRoot; filePath]).

Definition writeFile (d : D) (filePath content : string) : Outcome D :=
  fs_writeFile fs d (resolve projectRoot [projectRoot; filePath]) content.

Definition readFile (d : D) (filePath : string) : Outcome string :=
  fs_readFile fs d (resolve projectRoot [projectRoot; filePath]).

(** ** The route handler *)

(** Rendering of an optional string inside a template literal. *)
Definition render (o : option string) : string :=
  match o with Some s => s | None => "undefined" end.

(** The [catch] of the per-file [try]. *)
Definition catchFile (file : FileToApply) (errorMessage : string) (r : Run) : Run :=
  emit (FileError (path file) errorMessage)
       (pushError (path file +:+ ": " +:+ errorMessage) r).

(** One turn of the loop over [validatedData.files]; [i] counts from 0. *)
Definition applyFile (total : nat) (r : Run) (i : nat) (file : FileToApply) : Run :=
  let currentIndex := i + 1 in
  let normalizedPath := normalizeFilePath (path file) in
  let r := emit (FileProgress currentIndex total normalizedPath "validating") r in
  let pathCheck := isPathSafe normalizedPath in
  if negb (safe pathCheck) then
    let r := pushError (normalizedPath +:+ ": " +:+ render (reason pathCheck)) r in
    emit (FileError normalizedPath
            (orElse (match reason pathCheck with Some s => s | None => "" end)
                    "Path validation failed")) r
  else
    let exists_ := fileExists (disk r) normalizedPath in
    let r := emit (FileProgress currentIndex total normalizedPath
                     (if exists_ then "updating" else "creating")) r in
    let sanitizedContent := sanitizeContent (content file) normalizedPath in
    match ensureDirectory (disk r) normalizedPath with
    | Throw errorMessage => catchFile file errorMessage r
    | Ok d1 =>
        let r := setDisk d1 r in
        match writeFile d1 normalizedPath sanitizedContent with
        | Throw errorMessage => catchFile file errorMessage r
        | Ok d2 =>
            let r := setDisk d2 r in
            let r := if exists_ then pushUpdated normalizedPath r
                     else pushCreated normalizedPath r in
            emit (FileComplete normalizedPath
                    (if exists_ then "updated" else "created")) r
        end
    end.

Fixpoint applyFiles (total : nat) (i : nat) (files : list FileToApply) (r : Run) : Run :=
  match files with
  | [] => r
  | file :: rest => applyFiles total (S i) rest (applyFile total r i file)
  end.

Definition completeMessage (rs : ApplyResults) : string :=
  let totalSuccess := List.length (filesCreated rs) + List.length (filesUpdated rs) in
  "Applied " +:+ ofNat totalSuccess +:+ " file(s) successfully"
  +:+ (if Nat.ltb 0 (List.length (errors rs))
       then ", " +:+ ofNat (List.length (errors rs)) +:+ " error(s)"
       else "").

(** The file list the schema sees: parsed from [generatedCode] when that
    is non-empty and [files] is absent. *)
Definition requestFiles (body : Body) : option (list FileToApply) :=
  match body_generatedCode body, body_files body with
  | Some (String c g), None => Some (parseAIGeneratedCode (String c g))
  | _, fs => fs
  end.

(** The background task of [POST]: [request] is the parsed body, [None]
    when the body is not JSON.  An early [return] still runs the [finally]
    block, which closes the writer once more. *)
Definition POST (d : D) (request : option Body) : D * Stream :=
  let s0 := mkStream [] 0 in
  match request with
  | None =>
      (d, closeWriter (closeWriter
            (sendProgress (Error "Invalid JSON in request body") s0)))
  | Some body =>
      let issues := ApplyCodeRequestSchema_issues (requestFiles body) in
      match issues, requestFiles body with
      | [], Some files =>
          let total := List.length files in
          let s1 := sendProgress
                      (Status ("Processing " +:+ ofNat total +:+ " files...")) s0 in
          let rs0 := mkResults [] [] [] []
                       (match body_packages body with
                        | Some ps => ps
                        | None => extractPackages files
                        end) in
          let r := applyFiles total 0 files (mkRun d rs0 s1) in
          let r := emit (Complete (completeMessage (results r)) (results r)) r in
          (disk r, closeWriter (out r))
      | _, _ =>
          (d, closeWriter (closeWriter
                (sendProgress
                   (Error ("Validation failed: " +:+ join ", " issues)) s0)))
      end
  end.

End Handler.

End ApplyRoute.

(* ====================================================================== *)
(** * The generation route (generate-ai-code-stream): provider selection
      and package detection *)
(* ====================================================================== *)

Module GenerateRoute.
Import JsString NodePath Regex Fs.

(** The two API keys read from the environment. *)
Record Env := mkEnv {
  GOOGLE_GENERATIVE_AI_API_KEY : option string;
  GROQ_API_KEY : option string
}.

(** Truthiness of an optional string. *)
Definition truthy (o : option string) : bool :=
  match o with
  | Some (String _ _) => true
  | _ => false
  end.

(** [providers.google] and [providers.groq]: a client or [null]. *)
Record Providers := mkProviders { hasGoogle : bool; hasGroq : bool }.

Definition initializeProviders (env : Env) : Outcome Providers :=
  let providers := mkProviders (truthy (GOOGLE_GENERATIVE_AI_API_KEY env))
                               (truthy (GROQ_API_KEY env)) in
  if negb (hasGoogle providers) && negb (hasGroq providers) then
    Throw "At least one AI provider (Gemini or Groq) must be configured with valid API keys"
  else Ok providers.

(** The property names every object literal inherits from
    [Object.prototype]; each of them holds a function or, for [__proto__],
    the prototype itself.  None of these values has a property [provider] or
    [model]. *)
Definition objectPrototypeMembers : list string :=
  ["constructor"; "__defineGetter__"; "__defineSetter__"; "hasOwnProperty";
   "__lookupGetter__"; "__lookupSetter__"; "isPrototypeOf"; "propertyIsEnumerable";
   "toString"; "valueOf"; "__proto__"; "toLocaleString"].

(** [providers[name]] is truthy: the client of a provider that has a key,
    or a member found on the prototype chain. *)
Definition configured (providers : Providers) (name : string) : bool :=
  if String.eqb name "google" then hasGoogle providers
  else if String.eqb name "groq" then hasGroq providers
  else arrIncludes objectPrototypeMembers name.

Record ModelEntry := mkEntry { e_provider : string; e_model : string; e_maxTokens : Z }.

Definition MODEL_CONFIG : list (string * ModelEntry) :=
  [("gemini-2.0-flash-exp", mkEntry "google" "gemini-2.0-flash-exp" 8192%Z);
   ("gemini-1.5-pro", mkEntry "google" "gemini-1.5-pro-002" 8192%Z);
   ("gemini-1.5-flash", mkEntry "google" "gemini-1.5-flash-002" 8192%Z);
   ("llama-3.3-70b", mkEntry "groq" "llama-3.3-70b-versatile" 8192%Z);
   ("llama-3.1-70b", mkEntry "groq" "llama-3.1-70b-versatile" 8192%Z);
   ("mixtral-8x7b", mkEntry "groq" "mixtral-8x7b-32768" 8192%Z)].

(** The entry the table itself holds under a key. *)
Fixpoint ownEntry (table : list (string * ModelEntry)) (model : string)
  : option ModelEntry :=
  match table with
  | [] => None
  | (k, e) :: rest => if String.eqb k model then Some e else ownEntry rest model
  end.

(** [model in MODEL_CONFIG]: a key of the table or an inherited name. *)
Definition inModelConfig (model : string) : bool :=
  match ownEntry MODEL_CONFIG model with
  | Some _ => true
  | None => arrIncludes objectPrototypeMembers model
  end.

(** [MODEL_CONFIG[model].provider] and [MODEL_CONFIG[model].model] for a
    name that is in the table: [None], the undefined value, when the name is
    an inherited one. *)
Definition configProvider (model : string) : option string :=
  option_map e_provider (ownEntry MODEL_CONFIG model).

Definition configModel (model : string) : option string :=
  option_map e_model (ownEntry MODEL_CONFIG model).

(** [providers[selectedProvider]] is truthy, for a variable that may hold
    the undefined value: the key is then the string [undefined], which the
    object neither has nor inherits. *)
Definition configuredAt (providers : Providers) (selectedProvider : option string) : bool :=
  match selectedProvider with
  | Some name => configured providers name
  | None => false
  end.

(** [selectedProvider === name] *)
Definition isProvider (selectedProvider : option string) (name : string) : bool :=
  match selectedProvider with
  | Some p => String.eqb p name
  | None => false
  end.

(** A variable inside a template literal. *)
Definition display (o : option string) : string :=
  match o with Some s => s | None => "undefined" end.

(** The fields of the request body that selection reads. *)
Record Request := mkRequest {
  prompt : option string;
  model : option string;
  provider : option string
}.

(** What the handler returns: a JSON body with a status, or the event
    stream of a generation run for the selected provider and model, either
    of which is [None] when the variable holds the undefined value. *)
Inductive Response :=
| Json (status : nat) (success : bool) (error : string)
| EventStream (selectedProvider selectedModel : option string).

Definition promptValid (r : Request) : bool :=
  match prompt r with
  | Some p => negb (Nat.eqb (String.length p) 0)
              && negb (Nat.eqb (String.length (trim p)) 0)
  | None => false
  end.

(** The handler up to the point where the stream is created. *)
Definition POST (env : Env) (r : Request) : Response :=
  let model := match model r with Some m => m | None => "gemini-2.0-flash-exp" end in
  if negb (promptValid r) then Json 400 false "Valid prompt is required"
  else
    match initializeProviders env with
    | Throw m => Json 500 false m
    | Ok providers =>
        let explicitFailure :=
          match provider r with
          | Some (String c p) =>
              if negb (configured providers (String c p)) then
                Some (Json 400 false
                        ("Provider '" +:+ String c p
                         +:+ "' is not configured. Please set the appropriate API key."))
              else None
          | _ => None
          end in
        match explicitFailure with
        | Some response => response
        | None =>
            let '(selectedProvider, selectedModel) :=
              match provider r with
              | Some (String c p) => (Some (String c p), None)
              | _ =>
                  if inModelConfig model then (configProvider model, configModel model)
                  else (Some (if hasGoogle providers then "google" else "groq"), Some model)
              end in
            let verified :=
              if negb (configuredAt providers selectedProvider) then
                let fallbackProvider :=
                  if isProvider selectedProvider "google" then "groq" else "google" in
                if configured providers fallbackProvider then Ok (Some fallbackProvider)
                else Throw ("Selected provider '" +:+ display selectedProvider
                            +:+ "' is not configured")
              else Ok selectedProvider in
            match verified with
            | Throw m => Json 500 false m
            | Ok selectedProvider =>
                let selectedModel :=
                  if negb (truthy selectedModel) && inModelConfig model
                  then configModel model
                  else if negb (truthy selectedModel) then Some model
                  else selectedModel in
                EventStream selectedProvider selectedModel
            end
        end
    end.

(** ** Package detection at the end of a generation run *)

Record GeneratedFile := mkGenerated { g_path : string; g_content : string }.

(** Files parsed from the accumulated text: tagged blocks with exactly one
    blank before the attribute. *)
Definition parseFiles (generatedCode : string) : list GeneratedFile :=
  map (fun m => mkGenerated (fst m) (trim (snd m)))
      (matchAll (matchFileTagAt false) generatedCode).

Definition nodeBuiltins : list string :=
  ["fs"; "path"; "http"; "https"; "crypto"; "os"; "util"; "events"].

Definition detectPackages (files : list GeneratedFile) : list string :=
  fold_left
    (fun packagesToInstall file =>
       fold_left
         (fun packagesToInstall pkg =>
            if negb (startsWith pkg ".") && negb (startsWith pkg "/")
               && negb (arrIncludes nodeBuiltins pkg)
            then
              let pkgName :=
                if startsWith pkg "@"
                then join "/" (firstn 2 (splitOn sep pkg))
                else hd "" (splitOn sep pkg) in
              if negb (arrIncludes packagesToInstall pkgName)
              then packagesToInstall ++ [pkgName]
              else packagesToInstall
            else packagesToInstall)
         (importSpecifiers (g_content file)) packagesToInstall)
    files [].

End GenerateRoute.

(* ====================================================================== *)
(** * The run-command route *)
(* ====================================================================== *)

Module RunCommand.
Import JsString Regex Fs.

(** What [runCommand] resolves to: two readers and the exit code. *)
Record CommandResult := mkCommandResult {
  stdout : Outcome string;
  stderr : Outcome string;
  exitCode : Z
}.

(** The sandbox: [runCommand({ cmd, args })]. *)
Definition Sandbox := string -> list string -> Outcome CommandResult.

(** The request body: not JSON at all, or an object whose [command] field
    is absent or a string. *)
Inductive RequestBody :=
| NotJson (message : string)
| JsonBody (command : option string).

Inductive ResponseBody :=
| Failure (error : string)
| Executed (output : string) (code : Z) (message : string).

Record Response := mkResponse { status : nat; body : ResponseBody }.

Definition success (r : Response) : bool :=
  match body r with
  | Failure _ => false
  | Executed _ _ _ => true
  end.

(** [s.split(/\s+/)]: [inWs] tells that the unit before was white space. *)
Fixpoint splitWhitespace (inWs : bool) (s : string) : list string :=
  match s with
  | EmptyString => [EmptyString]
  | String a s' =>
      if is_space a then
        (if inWs then splitWhitespace true s' else EmptyString :: splitWhitespace true s')
      else match splitWhitespace false s' with
           | h :: t => String a h :: t
           | [] => [String a EmptyString]
           end
  end.

Definition ofZ (z : Z) : string := NilZero.string_of_int (Z.to_int z).

Definition formatOutput (out err : string) (code : Z) : string :=
  join LF
    (List.filter (fun s => negb (String.eqb s ""))
       [ (if negb (String.eqb (trim out) "") then out else "");
         (if negb (String.eqb (trim err) "") then "ERROR:" +:+ LF +:+ err else "");
         LF +:+ "Process finished with exit code: " +:+ ofZ code ]).

Definition POST (activeSandbox : option Sandbox) (request : RequestBody) : Response :=
  match request with
  | NotJson m => mkResponse 500 (Failure m)
  | JsonBody command =>
      match command with
      | None | Some EmptyString => mkResponse 400 (Failure "Command is required")
      | Some command =>
          match activeSandbox with
          | None =>
              mkResponse 400
                (Failure "No active sandbox session found. Please refresh or restart the preview.")
          | Some sandbox =>
              let tokens := splitWhitespace false (trim command) in
              match sandbox (hd "" tokens) (tl tokens) with
              | Throw m => mkResponse 500 (Failure m)
              | Ok result =>
                  match stdout result with
                  | Throw m => mkResponse 500 (Failure m)
                  | Ok out =>
                      match stderr result with
                      | Throw m => mkResponse 500 (Failure m)
                      | Ok err =>
                          mkResponse 200
                            (Executed (formatOutput out err (exitCode result))
                                      (exitCode result)
                                      (if Z.eqb (exitCode result) 0 then "Success"
                                       else "Command failed"))
                      end
                  end
              end
          end
      end
  end.

End RunCommand.

(* ====================================================================== *)
(** * The kill-sandbox route *)
(* ====================================================================== *)

Module KillSandbox.
Import JsString Fs.

(** A sandbox session as the routes use it: the command runner, and the
    two methods that end it, either of which a version of the SDK may lack;
    a method that is there resolves or rejects when called. *)
Record Session := mkSession {
  runCommand : RunCommand.Sandbox;
  kill : option (Outcome unit);
  terminate : option (Outcome unit)
}.

(** The global variables the routes share. *)
Record Globals := mkGlobals {
  activeSandbox : option Session;
  activeSandboxProvider : option Session;
  sandboxData : option string;
  existingFiles : option (list string)
}.

Record Response := mkResponse {
  status : nat;
  success : bool;
  sandboxKilled : bool;
  message : string
}.

(** The call that ends the session: [kill] when it is a function, else
    [terminate] when it is one, else nothing. *)
Definition endSession (s : Session) : Outcome unit :=
  match kill s with
  | Some r => r
  | None =>
      match terminate s with
      | Some r => r
      | None => Ok tt
      end
  end.

Definition POST (g : Globals) : Globals * Response :=
  let sessionToKill :=
    match activeSandbox g with
    | Some s => Some s
    | None => activeSandboxProvider g
    end in
  let '(sandboxKilled, g) :=
    match sessionToKill with
    | Some s =>
        let sandboxKilled :=
          match endSession s with
          | Ok _ => true
          | Throw _ => false
          end in
        (sandboxKilled, mkGlobals None None None (existingFiles g))
    | None => (false, g)
    end in
  let g :=
    match existingFiles g with
    | Some _ => mkGlobals (activeSandbox g) (activeSandboxProvider g) (sandboxData g) (Some [])
    | None => g
    end in
  (g, mkResponse 200 true sandboxKilled
        (if sandboxKilled then "Environment cleaned up successfully"
         else "No active environment found to clean")).

(** The run-command route, reading the sandbox from the globals. *)
Definition runCommandRoute (g : Globals) (request : RunCommand.RequestBody)
  : RunCommand.Response :=
  RunCommand.POST (option_map runCommand (activeSandbox g)) request.

End KillSandbox.

(* ====================================================================== *)
(** * The provider manager (lib/ai/provider-manager.ts) *)
(* ====================================================================== *)

Module ProviderManager.
Import JsString Fs.

Record AIResponse := mkAIResponse { content : string; error : option string }.

(** What [fetch] resolves to, as far as the function looks at it: the
    body is read as JSON, of which only [raw_output] is used. *)
Record RenderData := mkRenderData { raw_output : option string }.

Record FetchResponse := mkFetchResponse {
  ok : bool;
  status : nat;
  json : Outcome RenderData
}.

(** A model handle of the AI SDK: the client that made it, with its
    settings, and the model name. *)
Record Model := mkModel {
  client : string;
  apiKey : string;
  baseURL : option string;
  modelId : string
}.

(** Everything outside the function: the environment, the network, the
    SDK's [generateText] and the built-in [encodeURIComponent]. *)
Record World := mkWorld {
  NEXT_PUBLIC_RENDER_URL : option string;
  GROQ_API_KEY : option string;
  GEMINI_API_KEY : option string;
  OPENROUTER_API_KEY : option string;
  fetch : string -> Outcome FetchResponse;
  generateText : Model -> string -> Outcome string;
  encodeURIComponent : string -> string
}.

(** [v || fallback] for a variable of the environment. *)
Definition envOr (v : option string) (fallback : string) : string :=
  match v with
  | Some s => orElse s fallback
  | None => fallback
  end.

(** The [catch] block. *)
Definition failed (message : string) : AIResponse :=
  mkAIResponse "" (Some (orElse message "Unknown error occurred")).

Definition getAICompletion (w : World) (prompt provider : string) : AIResponse :=
  if String.eqb provider "custom-render" then
    let renderBase :=
      envOr (NEXT_PUBLIC_RENDER_URL w) "https://ai-coding-app-946t.onrender.com/generate" in
    match fetch w (renderBase +:+ "?idea=" +:+ encodeURIComponent w prompt) with
    | Throw m => failed m
    | Ok response =>
        if negb (ok response) then
          failed ("Render API failed with status " +:+ ofNat (status response))
        else
          match json response with
          | Throw m => failed m
          | Ok data =>
              mkAIResponse (envOr (raw_output data) "No output generated") None
          end
    end
  else
    let model :=
      if String.eqb provider "groq" then
        Ok (mkModel "groq" (envOr (GROQ_API_KEY w) "") None "llama-3.3-70b-versatile")
      else if String.eqb provider "google" then
        Ok (mkModel "google" (envOr (GEMINI_API_KEY w) "") None "gemini-1.5-pro")
      else if String.eqb provider "openrouter" then
        Ok (mkModel "openai" (envOr (OPENROUTER_API_KEY w) "")
              (Some "https://openrouter.ai/api/v1") "deepseek/deepseek-chat")
      else Throw "Unsupported AI provider selected" in
    match model with
    | Throw m => failed m
    | Ok model =>
        match generateText w model prompt with
        | Throw m => failed m
        | Ok text => mkAIResponse text None
        end
    end.

End ProviderManager.

(* ====================================================================== *)
(** * The generation route: conversation state and the closing event *)
(* ====================================================================== *)

Module GenerationRun.
Import JsString Regex Fs ApplyRoute GenerateRoute.

(** [l.slice(-n)]: the last [n] elements, all of them when there are fewer. *)
Definition lastN {A : Type} (n : nat) (l : list A) : list A :=
  skipn (List.length l - n) l.

(** ** Conversation history *)

Record ConversationMessage := mkMessage {
  id : string;
  role : string;
  content : string;
  timestamp : Z;
  meta_sandboxId : option string;
  meta_model : option string;
  meta_provider : option string
}.

(** The user message is appended; a history of more than twenty messages
    is cut to its last fifteen. *)
Definition rememberMessage (messages : list ConversationMessage)
    (userMessage : ConversationMessage) : list ConversationMessage :=
  let messages := messages ++ [userMessage] in
  if Nat.ltb 20 (List.length messages) then lastN 15 messages else messages.

(** More than ten recorded edits are cut to the last eight. *)
Definition trimEdits {E : Type} (edits : list E) : list E :=
  if Nat.ltb 10 (List.length edits) then lastN 8 edits else edits.

(** The messages sent to the model: the system prompt, then the last five
    messages of the history other than the current one when the history
    holds more than one message, then the prompt. *)
Definition promptMessages (systemPrompt prompt : string)
    (history : option (list ConversationMessage)) (userMessage : ConversationMessage)
  : list (string * string) :=
  let messages := [("system", systemPrompt); ("user", prompt)] in
  match history with
  | None => messages
  | Some stored =>
      if Nat.ltb 1 (List.length stored) then
        let recentMessages :=
          map (fun m => (role m, content m))
              (List.filter (fun m => negb (String.eqb (id m) (id userMessage)))
                 (lastN 5 stored)) in
        if Nat.ltb 0 (List.length recentMessages)
        then ("system", systemPrompt) :: recentMessages ++ [("user", prompt)]
        else messages
      else messages
  end.

(** ** User preferences *)

(** [toLowerCase] on one code unit below 256: the Latin capitals, and the
    accented capitals from 192 to 222 but for the multiplication sign. *)
Definition lowerUnit (c : ascii) : ascii :=
  let n := nat_of_ascii c in
  if (Nat.leb 65 n && Nat.leb n 90)
     || (Nat.leb 192 n && Nat.leb n 222 && negb (Nat.eqb n 215))
  then ascii_of_nat (n + 32) else c.

Fixpoint toLowerCase (s : string) : string :=
  match s with
  | EmptyString => EmptyString
  | String a s' => String (lowerUnit a) (toLowerCase s')
  end.

(** A search for an expression that opens with a word boundary and a word:
    it can match only where a word starts, that is at a unit that no word
    unit precedes. *)
Fixpoint searchWordStart (matchHere : string -> bool) (afterWord : bool) (s : string)
  : bool :=
  match s with
  | EmptyString => false
  | String a s' =>
      (negb afterWord && matchHere s) || searchWordStart matchHere (is_word a) s'
  end.

Definition editVerbs : list string :=
  ["update"; "change"; "fix"; "modify"; "edit"; "remove"; "delete"].

Definition rebuildVerbs : list string :=
  ["rebuild"; "recreate"; "redesign"; "overhaul"; "refactor"].

(** The targeted expression at a position: one of the verbs, white space,
    an optional word with white space, a word, a word boundary.  The word
    quantifiers are greedy and the boundary holds at the end of any run of
    word units, so the match succeeds exactly when the verb is followed by
    white space and the white space by a word unit. *)
Definition targetedHere (s : string) : bool :=
  existsb (fun verb =>
             startsWith s verb &&
             let rest := sliceFrom (String.length verb) s in
             let ws := String.length (takeWhile is_space rest) in
             negb (Nat.eqb ws 0) &&
             match sliceFrom ws rest with
             | String c _ => is_word c
             | EmptyString => false
             end)
          editVerbs.

(** The comprehensive expression at a position: one of the verbs, then a
    word boundary. *)
Definition comprehensiveHere (s : string) : bool :=
  existsb (fun verb =>
             startsWith s verb &&
             match sliceFrom (String.length verb) s with
             | String c _ => negb (is_word c)
             | EmptyString => true
             end)
          rebuildVerbs.

Definition patternsOf (content : string) : list string :=
  (if includes content "hero" then ["hero section edits"] else [])
  ++ (if includes content "header" then ["header modifications"] else [])
  ++ (if includes content "color" || includes content "style"
      then ["styling changes"] else [])
  ++ (if includes content "button" then ["button updates"] else [])
  ++ (if includes content "animation" then ["animation requests"] else []).

Record Preferences := mkPreferences {
  commonPatterns : list string;
  preferredEditStyle : string
}.

Definition analyzeUserPreferences (messages : list ConversationMessage) : Preferences :=
  let userMessages := List.filter (fun m => String.eqb (role m) "user") messages in
  let contents := map (fun msg => toLowerCase (content msg)) userMessages in
  let targetedEditCount :=
    List.length (List.filter (searchWordStart targetedHere false) contents) in
  let comprehensiveEditCount :=
    List.length (List.filter (searchWordStart comprehensiveHere false) contents) in
  let patterns := flat_map patternsOf contents in
  mkPreferences
    (firstn 3 (fold_left setAdd patterns []))
    (if Nat.ltb comprehensiveEditCount targetedEditCount
     then "targeted" else "comprehensive").

(** ** The closing event *)

(** The text before the first opening of a file tag, trimmed. *)
Definition explanationOf (generatedCode : string) : string :=
  trim (match indexOf generatedCode "<file" with
        | Some i => sliceTo i generatedCode
        | None => generatedCode
        end).

Record CompleteEvent := mkComplete {
  ce_generatedCode : string;
  ce_explanation : string;
  ce_files : nat;
  ce_model : string;
  ce_provider : string;
  ce_packagesToInstall : option (list string)
}.

Definition completeEvent (generatedCode selectedModel selectedProvider : string)
  : CompleteEvent :=
  let explanation := explanationOf generatedCode in
  let files := parseFiles generatedCode in
  let packagesToInstall := detectPackages files in
  mkComplete generatedCode
    (orElse explanation "Code generated successfully")
    (List.length files) selectedModel selectedProvider
    (if Nat.ltb 0 (List.length packagesToInstall) then Some packagesToInstall else None).

End GenerationRun.

(* ====================================================================== *)
(** * The generation route: the web search tool *)
(* ====================================================================== *)

Module SearchTool.
Import JsString Fs.

(** The fields of the answer of the search service that the tool reads;
    a field is absent or a string, the related topics absent or an array. *)
Record Topic := mkTopic { Text : option string; FirstURL : option string }.

Record Data := mkData {
  Abstract : option string;
  Heading : option string;
  AbstractURL : option string;
  AbstractSource : option string;
  RelatedTopics : option (list Topic)
}.

Record FetchResponse := mkFetchResponse {
  ok : bool;
  status : nat;
  json : Outcome Data
}.

Record Hit := mkHit { title : string; snippet : string; url : string; source : string }.

(** The three shapes of the object the tool returns. *)
Inductive ToolResult :=
| Found (query : string) (results : list Hit) (timestamp : string)
| NoAnswer (query : string) (message : string)
| SearchError (query : string) (error : string).

Definition success (r : ToolResult) : bool :=
  match r with
  | Found _ _ _ => true
  | _ => false
  end.

Definition results (r : ToolResult) : list Hit :=
  match r with
  | Found _ hits _ => hits
  | _ => []
  end.

(** A string field that is there and not empty. *)
Definition present (o : option string) : option string :=
  match o with
  | Some (String c s) => Some (String c s)
  | _ => None
  end.

(** [o || fallback] *)
Definition valueOr (o : option string) (fallback : string) : string :=
  match present o with
  | Some s => s
  | None => fallback
  end.

(** [l.slice(0, end)] for an integer [end]: a negative one counts from the
    end of the array. *)
Definition sliceUpTo {A : Type} (end_ : Z) (l : list A) : list A :=
  if Z.ltb end_ 0
  then firstn (Z.to_nat (Z.max (Z.of_nat (List.length l) + end_) 0)) l
  else firstn (Z.to_nat end_) l.

(** [s.split(' - ')[0]] *)
Definition beforeDash (s : string) : string :=
  match indexOf s " - " with
  | Some i => sliceTo i s
  | None => s
  end.

Definition topicHits (topic : Topic) : list Hit :=
  match present (Text topic), present (FirstURL topic) with
  | Some text, Some firstURL =>
      [mkHit (orElse (beforeDash text) text) text firstURL "DuckDuckGo"]
  | _, _ => []
  end.

Section Execute.
(** The network, the built-in encoder and the clock. *)
Variable fetch : string -> Outcome FetchResponse.
Variable encodeURIComponent : string -> string.
Variable now : string.

(** [execute({ query, maxResults })], for an integer [maxResults]. *)
Definition execute (query : string) (maxResults : Z) : ToolResult :=
  let searchUrl :=
    "https://api.duckduckgo.com/?q=" +:+ encodeURIComponent query
    +:+ "&format=json&no_html=1&skip_disambig=1" in
  match fetch searchUrl with
  | Throw m => SearchError query m
  | Ok response =>
      if negb (ok response) then
        SearchError query ("DuckDuckGo API error: " +:+ ofNat (status response))
      else
        match json response with
        | Throw m => SearchError query m
        | Ok data =>
            let results :=
              match present (Abstract data) with
              | Some abstract =>
                  [mkHit (valueOr (Heading data) "Overview") abstract
                         (valueOr (AbstractURL data) "")
                         (valueOr (AbstractSource data) "DuckDuckGo")]
              | None => []
              end in
            let results :=
              match RelatedTopics data with
              | Some topics =>
                  results
                  ++ flat_map topicHits
                       (sliceUpTo (maxResults - Z.of_nat (List.length results)) topics)
              | None => results
              end in
            if Nat.eqb (List.length results) 0 then
              NoAnswer query
                "No instant answers available. For comprehensive search, consider using a dedicated search API with authentication."
            else Found query (sliceUpTo maxResults results) now
        end
  end.
End Execute.

End SearchTool.

(* ====================================================================== *)
(** * Worked examples *)
(* ====================================================================== *)

Module PathExamples.
Import JsString NodePath.

Example normalize_dotdot : normalize "src/a/../b.ts" = "src/b.ts".
Proof. reflexivity. Qed.

Example normalize_above : normalize "../etc/passwd" = "../etc/passwd".
Proof. reflexivity. Qed.

Example normalize_trailing : normalize "src/dir/" = "src/dir/".
Proof. reflexivity. Qed.

Example normalize_double : normalize "src//a.ts" = "src/a.ts".
Proof. reflexivity. Qed.

Example normalize_abs : normalize "/a/./b/../../.." = "/".
Proof. reflexivity. Qed.

Example normalize_dot_slash : normalize "./" = "./".
Proof. reflexivity. Qed.

Example resolve_rel : resolve "/app" ["/app"; "src/./a.ts"] = "/app/src/a.ts".
Proof. reflexivity. Qed.

Example resolve_abs : resolve "/app" ["/app"; "/etc/x"] = "/etc/x".
Proof. reflexivity. Qed.

Example basename_ex : basename "src/a//b.ts/" = "b.ts".
Proof. reflexivity. Qed.

Example extname_ex : extname "src/.env" = "" /\ extname "a/b.tar.gz" = ".gz"
  /\ extname "a/.." = "" /\ extname "x." = ".".
Proof. repeat split. Qed.

Example dirname_ex : dirname "src/a.ts" = "src" /\ dirname "a//b" = "a/"
  /\ dirname "/a" = "/" /\ dirname "a" = "." /\ dirname "src/." = "src"
  /\ dirname "/a/b/" = "/a".
Proof. repeat split. Qed.

End PathExamples.

Module RegexExamples.
Import JsString Regex.

Example tag_one :
  matchAll (matchFileTagAt true)
    ("Here." +:+ LF +:+ "<file path=" +:+ Q +:+ "a/b.ts" +:+ Q +:+ ">X</file> tail")
  = [("a/b.ts", "X")].
Proof. reflexivity. Qed.

Example md_lang_path :
  matchAll matchMarkdownAt
    ("```ts path=" +:+ Q +:+ "src/x.ts" +:+ Q +:+ LF +:+ "let a;" +:+ LF +:+ "```")
  = [(Some "src/x.ts", "let a;" +:+ LF)].
Proof. reflexivity. Qed.

Example md_no_path :
  matchAll matchMarkdownAt ("```js" +:+ LF +:+ LF +:+ "x```")
  = [(None, "x")].
Proof. reflexivity. Qed.

Example md_glued_word :
  matchAll matchMarkdownAt ("```tspath=" +:+ Q +:+ "x" +:+ Q +:+ LF +:+ "c```")
  = [(Some "x", "c")].
Proof. reflexivity. Qed.

Example import_forms :
  importSpecifiers
    ("import 'a/b'; const x = require(" +:+ Q +:+ "@s/p/q" +:+ Q +:+ "); import y from 'z';")
  = ["a/b"; "@s/p/q"].
Proof. reflexivity. Qed.

End RegexExamples.

(* ====================================================================== *)
(** * Facts about strings and paths *)
(* ====================================================================== *)

Module StringFacts.
Import JsString.

Lemma sapp_String a s t : String a s +:+ t = String a (s +:+ t).
Proof. reflexivity. Qed.

Lemma sapp_empty_l t : "" +:+ t = t.
Proof. reflexivity. Qed.

Lemma sapp_empty_r s : s +:+ "" = s.
Proof. induction s as [|a s IH]; [reflexivity|]. rewrite sapp_String, IH. reflexivity. Qed.

Lemma sapp_assoc s t u : (s +:+ t) +:+ u = s +:+ (t +:+ u).
Proof.
  induction s as [|a s IH]; [reflexivity|].
  rewrite !sapp_String, IH. reflexivity.
Qed.

Lemma includes_cons a s sub :
  includes (String a s) sub = startsWith (String a s) sub || includes s sub.
Proof. reflexivity. Qed.

Lemma startsWith_cons a s b p :
  startsWith (String a s) (String b p) = Ascii.eqb a b && startsWith s p.
Proof. reflexivity. Qed.

Lemma includes_tail a s sub : includes s sub = true -> includes (String a s) sub = true.
Proof. intros H. rewrite includes_cons, H. apply orb_true_r. Qed.

Lemma includes_app_l t s sub : includes s sub = true -> includes (t +:+ s) sub = true.
Proof.
  intros H. induction t as [|a t IH]; [exact H|].
  rewrite sapp_String. apply includes_tail, IH.
Qed.

Lemma startsWith_app s t sub : startsWith s sub = true -> startsWith (s +:+ t) sub = true.
Proof.
  revert s. induction sub as [|b sub IH]; intros s H.
  - destruct s; reflexivity.
  - destruct s as [|a s]; [discriminate|]. rewrite sapp_String. simpl in *.
    apply andb_true_iff in H as [-> H]. simpl. auto.
Qed.

Lemma includes_app_r s t sub : includes s sub = true -> includes (s +:+ t) sub = true.
Proof.
  induction s as [|a s IH]; intros H.
  - destruct sub; [destruct t; reflexivity|discriminate].
  - rewrite sapp_String, includes_cons. rewrite includes_cons in H.
    apply orb_true_iff in H as [H|H].
    + rewrite <- sapp_String, (startsWith_app _ _ _ H). reflexivity.
    + rewrite (IH H). apply orb_true_r.
Qed.

End StringFacts.

Module PathFacts.
Import JsString NodePath StringFacts.

Fixpoint noSlash (s : string) : bool :=
  match s with
  | EmptyString => true
  | String a s' => negb (Ascii.eqb a sep) && noSlash s'
  end.

(** What [normalizeString] keeps: a non-empty segment other than [.]. *)
Definition kept (s : string) : Prop := noSlash s = true /\ s <> "" /\ s <> ".".

Lemma splitOn_noSlash p : Forall (fun x => noSlash x = true) (splitOn sep p).
Proof.
  induction p as [|a p IH]; simpl.
  - constructor; [reflexivity|constructor].
  - destruct (Ascii.eqb a sep) eqn:E.
    + constructor; [reflexivity|exact IH].
    + destruct (splitOn sep p) as [|h t].
      * constructor; [simpl; rewrite E; reflexivity|constructor].
      * inversion IH; subst. constructor; [simpl; rewrite E; simpl; assumption|assumption].
Qed.

Lemma kept_dotdot : kept "..".
Proof. repeat split; discriminate. Qed.

Lemma normalizeStep_kept b stack seg :
  noSlash seg = true -> Forall kept stack -> Forall kept (normalizeStep b stack seg).
Proof.
  intros Hs Hst. unfold normalizeStep.
  destruct (String.eqb seg "") eqn:E1; [exact Hst|].
  destruct (String.eqb seg ".") eqn:E2; [exact Hst|]. simpl.
  destruct (String.eqb seg "..") eqn:E3.
  - destruct stack as [|top rest].
    + destruct b; [constructor; [apply kept_dotdot|constructor]|constructor].
    + destruct (String.eqb top "..").
      * destruct b; [constructor; [apply kept_dotdot|exact Hst]|exact Hst].
      * inversion Hst; assumption.
  - constructor; [|exact Hst].
    apply String.eqb_neq in E1, E2. repeat split; assumption.
Qed.

Lemma fold_normalizeStep_kept b segs stack :
  Forall (fun x => noSlash x = true) segs -> Forall kept stack ->
  Forall kept (fold_left (normalizeStep b) segs stack).
Proof.
  revert stack. induction segs as [|s segs IH]; intros stack Hs Hst; simpl.
  - exact Hst.
  - inversion Hs; subst. apply IH; [assumption|]. apply normalizeStep_kept; assumption.
Qed.

Lemma normalizeSegments_kept b p : Forall kept (normalizeSegments b (splitOn sep p)).
Proof.
  unfold normalizeSegments. apply Forall_rev.
  apply fold_normalizeStep_kept; [apply splitOn_noSlash|constructor].
Qed.

Lemma join_cons2 x y l : join "/" (x :: y :: l) = x +:+ "/" +:+ join "/" (y :: l).
Proof. reflexivity. Qed.

Lemma join_nonempty l : l <> [] -> Forall kept l -> join "/" l <> "".
Proof.
  destruct l as [|x l]; [congruence|]. intros _ H. inversion H as [|? ? [_ [Hx _]] _]; subst.
  destruct x as [|a x]; [congruence|].
  destruct l; [discriminate|]. rewrite join_cons2, sapp_String. discriminate.
Qed.

Lemma includes_skip_seg s R pat' :
  noSlash s = true ->
  includes (s +:+ R) (String sep pat') = includes R (String sep pat').
Proof.
  induction s as [|a s IH]; intros H; [reflexivity|].
  simpl in H. apply andb_true_iff in H as [Ha Hs].
  rewrite sapp_String, includes_cons. simpl startsWith.
  apply negb_true_iff in Ha. rewrite Ha. simpl. auto.
Qed.

Lemma kept_not_slash s R : kept s -> startsWith (s +:+ R) "/" = false.
Proof.
  intros [Hs [Hne _]]. destruct s as [|a s]; [congruence|].
  rewrite sapp_String, startsWith_cons. simpl in Hs.
  apply andb_true_iff in Hs as [Ha _]. apply negb_true_iff in Ha.
  unfold sep in Ha. rewrite Ha. reflexivity.
Qed.

Section Pattern.
(** A pattern [/pat'] that cannot start inside or right before a kept
    segment. *)
Variable pat' : string.
Hypothesis pat_nonempty : pat' <> "".
Hypothesis pat_kept : forall s R, kept s -> startsWith (s +:+ R) pat' = false.

Lemma startsWith_empty_pat : startsWith "" pat' = false.
Proof. destruct pat'; [congruence|reflexivity]. Qed.

Lemma includes_suffix suf :
  suf = "" \/ suf = "/" -> includes suf (String sep pat') = false.
Proof.
  intros [->| ->]; [reflexivity|].
  rewrite includes_cons, startsWith_cons, startsWith_empty_pat. reflexivity.
Qed.

Lemma startsWith_join l suf :
  l <> [] -> Forall kept l -> startsWith (join "/" l +:+ suf) pat' = false.
Proof.
  destruct l as [|x l]; [congruence|]. intros _ H. inversion H; subst.
  destruct l as [|y l]; [apply pat_kept; assumption|].
  rewrite join_cons2, sapp_assoc. apply pat_kept; assumption.
Qed.

Lemma includes_join l suf :
  Forall kept l -> suf = "" \/ suf = "/" ->
  includes (join "/" l +:+ suf) (String sep pat') = false.
Proof.
  intros H Hsuf. induction l as [|x l IH].
  - apply includes_suffix, Hsuf.
  - inversion H as [|? ? Hx Hl]; subst. destruct l as [|y l].
    + change (join "/" [x]) with x. rewrite includes_skip_seg by apply Hx.
      apply includes_suffix, Hsuf.
    + rewrite join_cons2, sapp_assoc, includes_skip_seg by apply Hx.
      rewrite sapp_assoc.
      change ("/" +:+ (join "/" (y :: l) +:+ suf))
        with (String sep (join "/" (y :: l) +:+ suf)).
      rewrite includes_cons, startsWith_cons, Ascii.eqb_refl.
      rewrite startsWith_join by (congruence || assumption).
      simpl. apply IH, Hl.
Qed.

Lemma normalize_avoids p : includes (normalize p) (String sep pat') = false.
Proof.
  unfold normalize. destruct p as [|c p]; [reflexivity|].
  set (q := String c p). unfold normalizeString.
  pose proof (normalizeSegments_kept (negb (isAbsolute q)) q) as Hk.
  set (l := normalizeSegments (negb (isAbsolute q)) (splitOn sep q)) in *.
  destruct (join "/" l) as [|c0 r0] eqn:Er.
  - destruct (isAbsolute q).
    + apply includes_suffix. auto.
    + destruct (endsWith q "/"); [|reflexivity].
      change (includes "./" (String sep pat')) with (includes "/" (String sep pat')).
      apply includes_suffix. auto.
  - assert (Hl : l <> []) by (intros ->; discriminate).
    rewrite <- Er.
    set (suf := if endsWith q "/" then "/" else "").
    assert (Hsuf : suf = "" \/ suf = "/") by (unfold suf; destruct (endsWith q "/"); auto).
    assert (E : (if endsWith q "/" then join "/" l +:+ "/" else join "/" l)
                = join "/" l +:+ suf).
    { unfold suf. destruct (endsWith q "/"); [reflexivity|]. symmetry; apply sapp_empty_r. }
    rewrite E. destruct (isAbsolute q).
    + change ("/" +:+ (join "/" l +:+ suf)) with (String sep (join "/" l +:+ suf)).
      rewrite includes_cons, startsWith_cons, Ascii.eqb_refl.
      rewrite startsWith_join by assumption. simpl.
      apply includes_join; assumption.
    + apply includes_join; assumption.
Qed.
End Pattern.

Lemma normalize_no_double_slash p : includes (normalize p) "//" = false.
Proof.
apply (normalize_avoids "/"); [discriminate|].
intros s R Hk. apply kept_not_slash, Hk.
Qed.

Lemma normalize_no_dot_segment p : includes (normalize p) "/./" = false.
Proof.
apply (normalize_avoids "./"); [discriminate|].
intros s R [Hs [Hne Hdot]]. destruct s as [|a s]; [congruence|].
rewrite sapp_String, startsWith_cons.
destruct (Ascii.eqb a ".") eqn:Ea; [|reflexivity]. rewrite andb_true_l.
destruct s as [|b s].
- apply Ascii.eqb_eq in Ea. subst. congruence.
- rewrite sapp_String, startsWith_cons. simpl in Hs.
  apply andb_true_iff in Hs as [_ Hs].
  apply andb_true_iff in Hs as [Hb _]. apply negb_true_iff in Hb.
  unfold sep in Hb. rewrite Hb. reflexivity.
Qed.

(** A relative path stays relative. *)
Lemma normalize_relative p : isAbsolute p = false -> startsWith (normalize p) "/" = false.
Proof.
intros Hrel. unfold normalize. destruct p as [|c p]; [reflexivity|].
set (q := String c p) in *. rewrite Hrel. unfold normalizeString. simpl negb.
pose proof (normalizeSegments_kept true q) as Hk.
set (l := normalizeSegments true (splitOn sep q)) in *.
destruct (join "/" l) as [|c0 r0] eqn:Er.
- destruct (endsWith q "/"); reflexivity.
- assert (Hl : l <> []) by (intros ->; discriminate).
  rewrite <- Er.
  assert (H : forall suf, startsWith (join "/" l +:+ suf) "/" = false).
  { intros suf. apply startsWith_join; [|assumption|assumption].
    intros s R Hs. apply kept_not_slash, Hs. }
  destruct (endsWith q "/"); [apply H|].
  rewrite <- (sapp_empty_r (join "/" l)). apply H.
Qed.

End PathFacts.

Module SchemaFacts.
Import JsString NodePath Regex Fs ApplyRoute StringFacts PathFacts.

Lemma startsWith_split s p : startsWith s p = true -> exists rest, s = p +:+ rest.
Proof.
revert s. induction p as [|b p IH]; intros s H.
- exists s. reflexivity.
- destruct s as [|a s]; [discriminate|]. rewrite startsWith_cons in H.
  apply andb_true_iff in H as [Hab H]. apply Ascii.eqb_eq in Hab. subst b.
  destruct (IH _ H) as [rest ->]. exists rest. reflexivity.
Qed.

Lemma startsWith_includes s p : startsWith s p = true -> includes s p = true.
Proof. intros H. destruct s; simpl; rewrite H; reflexivity. Qed.

(** Once a relative path has climbed above its start, the leading [..]
  stays at the bottom of the stack. *)
Lemma fold_keeps_climb segs l :
exists l', fold_left (normalizeStep true) segs (l ++ [".."]) = l' ++ [".."].
Proof.
revert l. induction segs as [|s segs IH]; intros l; simpl.
- exists l. reflexivity.
- assert (H : exists l1, normalizeStep true (l ++ [".."]) s = l1 ++ [".."]).
  { unfold normalizeStep.
    destruct (String.eqb s "" || String.eqb s "."); [exists l; reflexivity|].
    destruct (String.eqb s "..").
    - destruct l as [|top l]; simpl.
      + exists [".."]. reflexivity.
      + destruct (String.eqb top "..").
        * exists (".." :: top :: l). reflexivity.
        * exists l. reflexivity.
    - exists (s :: l). reflexivity. }
  destruct H as [l1 ->]. apply IH.
Qed.

Lemma normalize_climbing rest : startsWith (normalize ("../" +:+ rest)) ".." = true.
Proof.
change ("../" +:+ rest) with (String "." (String "." (String "/" rest))).
unfold normalize, normalizeString, normalizeSegments.
change (isAbsolute (String "." (String "." (String "/" rest)))) with false.
change (splitOn sep (String "." (String "." (String "/" rest))))
  with (".." :: splitOn sep rest).
simpl negb. cbn [fold_left].
change (normalizeStep true [] "..") with ([] ++ [".."]).
destruct (fold_keeps_climb (splitOn sep rest) []) as [l' ->].
rewrite rev_app_distr. cbn [rev app].
assert (H : exists t, join "/" (".." :: rev l') = String "." (String "." t)).
{ destruct (rev l') as [|y ys]; [exists ""; reflexivity|].
  rewrite join_cons2. eexists. reflexivity. }
destruct H as [t ->].
destruct (endsWith _ "/"); reflexivity.
Qed.

Lemma issues_nonempty {A} (x : A) l : In x l -> l <> [].
Proof. intros H ->. exact H. Qed.

Lemma format_issue_iff f :
In "Invalid path format" (FileSchema_issues f) <-> pathFormatOk (path f) = false.
Proof.
unfold FileSchema_issues. rewrite !in_app_iff. split.
- intros [H|[H|[H|[H|H]]]].
  + destruct (Nat.ltb _ _); simpl in H; [destruct H as [H|[]]; discriminate|contradiction].
  + destruct (Nat.ltb _ _); simpl in H; [destruct H as [H|[]]; discriminate|contradiction].
  + destruct (includes _ _); simpl in H; [destruct H as [H|[]]|contradiction].
    vm_compute in H. discriminate.
  + destruct (isAbsolute _); simpl in H; [destruct H as [H|[]]; discriminate|contradiction].
  + destruct (pathFormatOk _); [contradiction|reflexivity].
- intros ->. do 4 right. left. reflexivity.
Qed.

(** [p.replace(/^\.\//, '')] *)
Definition stripDotSlash (p : string) : string :=
if startsWith p "./" then sliceFrom 2 p else p.

Lemma pathFormatOk_false p :
pathFormatOk p = false <->
normalize p <> p /\ normalize p <> "./" +:+ p /\ normalize p <> stripDotSlash p.
Proof.
unfold pathFormatOk. fold (stripDotSlash p).
rewrite !orb_false_iff, !String.eqb_neq. tauto.
Qed.

Lemma double_slash_bad_format p : includes p "//" = true -> pathFormatOk p = false.
Proof.
intros H. apply pathFormatOk_false.
pose proof (normalize_no_double_slash p) as Hn.
split; [|split]; intros E.
- rewrite E in Hn. congruence.
- rewrite E in Hn. rewrite (includes_app_l "./" p "//" H) in Hn. discriminate.
- unfold stripDotSlash in E. destruct (startsWith p "./") eqn:Hp.
  + destruct (startsWith_split _ _ Hp) as [q ->].
    change (sliceFrom 2 ("./" +:+ q)) with q in E.
    change ("./" +:+ q) with (String "." (String "/" q)) in H.
    rewrite includes_cons, startsWith_cons in H.
    change (Ascii.eqb "." "/") with false in H. rewrite andb_false_l, orb_false_l in H.
    rewrite includes_cons, startsWith_cons, Ascii.eqb_refl, andb_true_l in H.
    apply orb_true_iff in H as [H|H].
    * pose proof (normalize_relative ("./" +:+ q) eq_refl) as Hr.
      rewrite E in Hr. congruence.
    * rewrite E in Hn. congruence.
  + rewrite E in Hn. congruence.
Qed.

Lemma dot_segment_bad_format p :
includes p "/./" = true -> startsWith p "./" = false -> pathFormatOk p = false.
Proof.
intros H Hp. apply pathFormatOk_false.
pose proof (normalize_no_dot_segment p) as Hn.
unfold stripDotSlash. rewrite Hp.
split; [|split]; intros E.
- rewrite E in Hn. congruence.
- rewrite E in Hn. rewrite (includes_app_l "./" p "/./" H) in Hn. discriminate.
- rewrite E in Hn. congruence.
Qed.

Lemma includes_refl s : includes s s = true.
Proof.
assert (H : forall t, startsWith t t = true).
{ induction t as [|a t IH]; [reflexivity|].
  rewrite startsWith_cons, Ascii.eqb_refl. exact IH. }
destruct s; simpl; [reflexivity|]. rewrite Ascii.eqb_refl, H. reflexivity.
Qed.

Lemma includes_join_member sepS x l : In x l -> includes (join sepS l) x = true.
Proof.
induction l as [|y l IH]; [contradiction|]. intros [->|H].
- destruct l as [|z l]; [apply includes_refl|].
  change (join sepS (x :: z :: l)) with (x +:+ sepS +:+ join sepS (z :: l)).
  apply includes_app_r, includes_refl.
- destruct l as [|z l]; [contradiction|].
  change (join sepS (y :: z :: l)) with (y +:+ sepS +:+ join sepS (z :: l)).
  apply includes_app_l, includes_app_l, IH, H.
Qed.

Section Reject.
Context {D : Type} (fs : FileSystem D).
Variable projectRoot : string.

Lemma POST_rejects d body :
  ApplyCodeRequestSchema_issues (requestFiles body) <> [] ->
  POST fs projectRoot d (Some body)
  = (d, mkStream
          [Error ("Validation failed: "
                  +:+ join ", " (ApplyCodeRequestSchema_issues (requestFiles body)))] 2).
Proof.
  intros H. unfold POST.
  destruct (ApplyCodeRequestSchema_issues (requestFiles body)); [congruence|].
  reflexivity.
Qed.

Lemma file_issue_in_batch files f x :
  In f files -> In x (FileSchema_issues f) ->
  In x (ApplyCodeRequestSchema_issues (Some files)).
Proof.
  intros Hf Hx. unfold ApplyCodeRequestSchema_issues.
  rewrite !in_app_iff. right. right. apply in_flat_map. eauto.
Qed.
End Reject.

End SchemaFacts.

(* ====================================================================== *)
(** * The apply loop *)
(* ====================================================================== *)

Module LoopFacts.
Import JsString NodePath Regex Fs ApplyRoute StringFacts PathFacts SchemaFacts.

Section Loop.
(** Any file system, any project root. *)
Context {D : Type} (fs : FileSystem D).
Variable projectRoot : string.

Local Abbreviation normalizeFilePath := ApplyRoute.normalizeFilePath.
Local Abbreviation isPathSafe := (ApplyRoute.isPathSafe projectRoot).
Local Abbreviation fileExists := (ApplyRoute.fileExists fs projectRoot).
Local Abbreviation ensureDirectory := (ApplyRoute.ensureDirectory fs projectRoot).
Local Abbreviation writeFile := (ApplyRoute.writeFile fs projectRoot).
Local Abbreviation applyFile := (ApplyRoute.applyFile fs projectRoot).
Local Abbreviation applyFiles := (ApplyRoute.applyFiles fs projectRoot).
Local Abbreviation POST := (ApplyRoute.POST fs projectRoot).

(** What one turn of the loop comes to, read off the disk alone. *)
Inductive FileOutcome :=
| Rejected (reason : string)
| Failed (exists_ : bool) (d' : D) (message : string)
| Written (exists_ : bool) (d' : D).

Definition outcome (d : D) (file : FileToApply) : FileOutcome :=
  let normalizedPath := normalizeFilePath (path file) in
  if negb (safe (isPathSafe normalizedPath)) then
    Rejected (render (reason (isPathSafe normalizedPath)))
  else
    let exists_ := fileExists d normalizedPath in
    match ensureDirectory d normalizedPath with
    | Throw m => Failed exists_ d m
    | Ok d1 =>
        match writeFile d1 normalizedPath (content file) with
        | Throw m => Failed exists_ d1 m
        | Ok d2 => Written exists_ d2
        end
    end.

Lemma isPathSafe_reason p :
  safe (isPathSafe p) = false ->
  exists s, reason (isPathSafe p) = Some s /\ s <> "".
Proof.
  unfold ApplyRoute.isPathSafe.
  repeat match goal with
         | |- context [if ?c then _ else _] => destruct c
         | |- context [match ?c with Some _ => _ | None => _ end] => destruct c
         end; simpl; intros H; try discriminate;
    eexists; (split; [reflexivity|discriminate]).
Qed.

Definition progressAction (exists_ : bool) : string :=
  if exists_ then "updating" else "creating".
Definition completeAction (exists_ : bool) : string :=
  if exists_ then "updated" else "created".

Lemma setDisk_same (r : @Run D) : setDisk (disk r) r = r.
Proof. destruct r; reflexivity. Qed.

Lemma applyFile_outcome total r i file :
  applyFile total r i file =
  let np := normalizeFilePath (path file) in
  let r1 := emit (FileProgress (i + 1) total np "validating") r in
  match outcome (disk r) file with
  | Rejected reason =>
      emit (FileError np reason) (pushError (np +:+ ": " +:+ reason) r1)
  | Failed ex d' m =>
      catchFile file m
        (setDisk d' (emit (FileProgress (i + 1) total np (progressAction ex)) r1))
  | Written ex d' =>
      emit (FileComplete np (completeAction ex))
        ((if ex then pushUpdated np else pushCreated np)
           (setDisk d' (emit (FileProgress (i + 1) total np (progressAction ex)) r1)))
  end.
Proof.
  unfold ApplyRoute.applyFile, outcome. cbv zeta.
  destruct (safe (isPathSafe (normalizeFilePath (path file)))) eqn:Hs; simpl negb; cbv iota.
  - cbn [disk emit]. unfold sanitizeContent.
    destruct (ensureDirectory (disk r) _) as [d1|m].
    + destruct (writeFile d1 _ _) as [d2|m]; [|reflexivity].
      destruct (fileExists (disk r) _); reflexivity.
    + rewrite <- (setDisk_same r) at 1. reflexivity.
  - destruct (isPathSafe_reason _ Hs) as [s [-> Hne]]. cbn [render].
    destruct s; [congruence|]. reflexivity.
Qed.

Definition stepDisk (d : D) (o : FileOutcome) : D :=
  match o with
  | Rejected _ => d
  | Failed _ d' _ => d'
  | Written _ d' => d'
  end.

Definition stepFrames (total i : nat) (file : FileToApply) (o : FileOutcome)
  : list ProgressMessage :=
  let np := normalizeFilePath (path file) in
  FileProgress (i + 1) total np "validating" ::
  match o with
  | Rejected reason => [FileError np reason]
  | Failed ex _ m =>
      [FileProgress (i + 1) total np (progressAction ex); FileError (path file) m]
  | Written ex _ =>
      [FileProgress (i + 1) total np (progressAction ex);
       FileComplete np (completeAction ex)]
  end.

Definition stepErrors (file : FileToApply) (o : FileOutcome) : list string :=
  match o with
  | Rejected reason => [normalizeFilePath (path file) +:+ ": " +:+ reason]
  | Failed _ _ m => [path file +:+ ": " +:+ m]
  | Written _ _ => []
  end.

Definition stepCreated (file : FileToApply) (o : FileOutcome) : list string :=
  match o with
  | Written false _ => [normalizeFilePath (path file)]
  | _ => []
  end.

Definition stepUpdated (file : FileToApply) (o : FileOutcome) : list string :=
  match o with
  | Written true _ => [normalizeFilePath (path file)]
  | _ => []
  end.

Lemma applyFile_step total r i file :
  let o := outcome (disk r) file in
  applyFile total r i file =
  mkRun (stepDisk (disk r) o)
        (mkResults (filesCreated (results r) ++ stepCreated file o)
                   (filesUpdated (results r) ++ stepUpdated file o)
                   (filesSkipped (results r))
                   (errors (results r) ++ stepErrors file o)
                   (packages (results r)))
        (mkStream (frames (out r) ++ stepFrames total i file o) (closeCalls (out r))).
Proof.
  intros o. rewrite applyFile_outcome. cbv zeta. fold o.
  destruct r as [d [cr up sk er pk] [fr cc]].
  unfold catchFile, emit, pushError, pushCreated, pushUpdated, setDisk, sendProgress,
    stepFrames.
  destruct o as [reason|ex d' m|[|] d']; cbn;
    rewrite ?List.app_nil_r, <- ?List.app_assoc; reflexivity.
Qed.

(** The turns of the loop over a batch: index, file and outcome, each
    outcome read on the disk the earlier turns left. *)
Fixpoint turns (i : nat) (d : D) (files : list FileToApply)
  : list (nat * FileToApply * FileOutcome) :=
  match files with
  | [] => []
  | f :: rest =>
      let o := outcome d f in (i, f, o) :: turns (S i) (stepDisk d o) rest
  end.

Fixpoint diskAfter (d : D) (files : list FileToApply) : D :=
  match files with
  | [] => d
  | f :: rest => diskAfter (stepDisk d (outcome d f)) rest
  end.

Definition turnFrames (total : nat) (t : nat * FileToApply * FileOutcome) :=
  stepFrames total (fst (fst t)) (snd (fst t)) (snd t).
Definition turnErrors (t : nat * FileToApply * FileOutcome) :=
  stepErrors (snd (fst t)) (snd t).
Definition turnCreated (t : nat * FileToApply * FileOutcome) :=
  stepCreated (snd (fst t)) (snd t).
Definition turnUpdated (t : nat * FileToApply * FileOutcome) :=
  stepUpdated (snd (fst t)) (snd t).

Lemma applyFiles_turns total files : forall i r,
  applyFiles total i files r =
  let ts := turns i (disk r) files in
  mkRun (diskAfter (disk r) files)
        (mkResults (filesCreated (results r) ++ flat_map turnCreated ts)
                   (filesUpdated (results r) ++ flat_map turnUpdated ts)
                   (filesSkipped (results r))
                   (errors (results r) ++ flat_map turnErrors ts)
                   (packages (results r)))
        (mkStream (frames (out r) ++ flat_map (turnFrames total) ts)
                  (closeCalls (out r))).
Proof.
  induction files as [|f rest IH]; intros i r; cbn [ApplyRoute.applyFiles turns diskAfter].
  - cbn. rewrite !app_nil_r. destruct r as [d [cr up sk er pk] [fr cc]]. reflexivity.
  - rewrite IH, applyFile_step. cbn.
    rewrite <- !List.app_assoc. reflexivity.
Qed.

Lemma turns_length files : forall i d, length (turns i d files) = length files.
Proof. induction files; intros; simpl; auto. Qed.

Lemma turns_lookup files : forall i d j f,
  files !! j = Some f ->
  turns i d files !! j
  = Some (i + j, f, outcome (diskAfter d (take j files)) f).
Proof.
  induction files as [|g rest IH]; intros i d j f H; [discriminate|].
  destruct j as [|j]; simpl in *.
  - inversion H; subst. rewrite Nat.add_0_r. reflexivity.
  - rewrite (IH _ _ _ _ H). replace (i + S j) with (S i + j) by lia. reflexivity.
Qed.

Lemma diskAfter_applyFiles total i files r :
  disk (applyFiles total i files r) = diskAfter (disk r) files.
Proof. rewrite applyFiles_turns. reflexivity. Qed.

Definition requestPackages (body : Body) (files : list FileToApply) : list string :=
  match body_packages body with
  | Some ps => ps
  | None => extractPackages files
  end.

Definition finalResults (d : D) (body : Body) (files : list FileToApply) : ApplyResults :=
  let ts := turns 0 d files in
  mkResults (flat_map turnCreated ts) (flat_map turnUpdated ts) []
            (flat_map turnErrors ts) (requestPackages body files).

Lemma POST_validated d body files :
  requestFiles body = Some files ->
  ApplyCodeRequestSchema_issues (Some files) = [] ->
  POST d (Some body) =
  (diskAfter d files,
   mkStream
     (Status ("Processing " +:+ ofNat (length files) +:+ " files...")
      :: flat_map (turnFrames (length files)) (turns 0 d files)
      ++ [Complete (completeMessage (finalResults d body files))
                   (finalResults d body files)])
     1).
Proof.
  intros Hf Hi. unfold ApplyRoute.POST. rewrite Hf, Hi.
  rewrite applyFiles_turns. reflexivity.
Qed.

(** The path policy turns the file down. *)
Definition policyRejects (file : FileToApply) (reason : string) : Prop :=
  isPathSafe (normalizeFilePath (path file)) = mkCheck false (Some reason).

(** The policy lets the file through and [ensureDirectory] or [writeFile]
    throws on disk [d]. *)
Definition ioThrows (d : D) (file : FileToApply) (m : string) : Prop :=
  let np := normalizeFilePath (path file) in
  safe (isPathSafe np) = true /\
  (ensureDirectory d np = Throw m \/
   exists d1, ensureDirectory d np = Ok d1 /\ writeFile d1 np (content file) = Throw m).

(** The disk the handler has reached when it turns to file [i]. *)
Definition diskBefore (d : D) (files : list FileToApply) (i : nat) : D :=
  disk (applyFiles (length files) 0 (take i files)
          (mkRun d (mkResults [] [] [] [] []) (mkStream [] 0))).

Definition isBatchTerminal (e : ProgressMessage) : bool :=
  match e with
  | Complete _ _ | Error _ => true
  | _ => false
  end.

Lemma outcome_rejected d f reason :
  policyRejects f reason -> outcome d f = Rejected reason.
Proof. unfold policyRejects, outcome. intros ->. reflexivity. Qed.

Lemma outcome_failed d f m :
  ioThrows d f m -> exists ex d', outcome d f = Failed ex d' m.
Proof.
  unfold ioThrows, outcome. cbv zeta. intros [-> [H|[d1 [H1 H2]]]]; simpl negb; cbv iota.
  - rewrite H. eauto.
  - rewrite H1, H2. eauto.
Qed.

Lemma stepFrames_not_terminal total i f o :
  Forall (fun e => isBatchTerminal e = false) (stepFrames total i f o).
Proof. destruct o; repeat constructor. Qed.

Lemma turn_frames_in total ts t e :
  In t ts -> In e (turnFrames total t) -> In e (flat_map (turnFrames total) ts).
Proof. intros. apply in_flat_map. eauto. Qed.

Lemma lookup_In {A} (l : list A) i x : l !! i = Some x -> In x l.
Proof. intros H. apply list_elem_of_In. eapply list_elem_of_lookup_2, H. Qed.

Inductive FileTrace (total i : nat) (f : FileToApply) : list ProgressMessage -> Prop :=
| trace_rejected reason :
    policyRejects f reason ->
    FileTrace total i f
      [FileProgress (i + 1) total (normalizeFilePath (path f)) "validating";
       FileError (normalizeFilePath (path f)) reason]
| trace_failed ex m :
    safe (isPathSafe (normalizeFilePath (path f))) = true ->
    FileTrace total i f
      [FileProgress (i + 1) total (normalizeFilePath (path f)) "validating";
       FileProgress (i + 1) total (normalizeFilePath (path f)) (progressAction ex);
       FileError (path f) m]
| trace_written ex :
    safe (isPathSafe (normalizeFilePath (path f))) = true ->
    FileTrace total i f
      [FileProgress (i + 1) total (normalizeFilePath (path f)) "validating";
       FileProgress (i + 1) total (normalizeFilePath (path f)) (progressAction ex);
       FileComplete (normalizeFilePath (path f)) (completeAction ex)].

Lemma stepFrames_trace total i d f : FileTrace total i f (stepFrames total i f (outcome d f)).
Proof.
  unfold outcome. cbv zeta.
  destruct (safe (isPathSafe (normalizeFilePath (path f)))) eqn:Hs; simpl negb; cbv iota.
  - destruct (ensureDirectory d _); [destruct (writeFile _ _ _)|];
      unfold stepFrames; constructor; assumption.
  - destruct (isPathSafe_reason _ Hs) as [s [Hr _]].
    rewrite Hr. unfold stepFrames. cbn [render]. constructor.
    unfold policyRejects. destruct (isPathSafe _); simpl in *; congruence.
Qed.

Lemma flat_map_imap_single {A B C} (g : B -> list C) (phi : A -> C) (l : list A) :
  forall h : nat -> A -> B,
  (forall j x, g (h j x) = [phi x]) -> flat_map g (imap h l) = map phi l.
Proof.
  induction l as [|x l IH]; intros h H; [reflexivity|].
  cbn [imap flat_map map]. rewrite H, IH; [reflexivity|]. intros j y. apply H.
Qed.

Lemma flat_map_imap_nil {A B C} (g : B -> list C) (l : list A) :
  forall h : nat -> A -> B,
  (forall j x, g (h j x) = []) -> flat_map g (imap h l) = [].
Proof.
  induction l as [|x l IH]; intros h H; [reflexivity|].
  cbn [imap flat_map]. rewrite H, IH; [reflexivity|]. intros j y. apply H.
Qed.

(** The results carried by the last frame of a stream. *)
Definition reported (s : Stream) : option ApplyResults :=
  match last (frames s) with
  | Some (Complete _ rs) => Some rs
  | _ => None
  end.

Lemma reported_validated d body files :
  requestFiles body = Some files ->
  ApplyCodeRequestSchema_issues (Some files) = [] ->
  reported (snd (POST d (Some body))) = Some (finalResults d body files)
  /\ fst (POST d (Some body)) = diskAfter d files.
Proof.
  intros Hf Hi. rewrite (POST_validated _ _ _ Hf Hi). cbn [fst snd].
  split; [|reflexivity]. unfold reported. cbn [frames].
  rewrite app_comm_cons, last_snoc. reflexivity.
Qed.

(** The policy lets the file through and, on disk [d], the directory is
    there or is created and the write succeeds, which leaves disk [d']. *)
Definition ioSucceeds (d : D) (file : FileToApply) (d' : D) : Prop :=
  let np := normalizeFilePath (path file) in
  safe (isPathSafe np) = true /\
  exists d1, ensureDirectory d np = Ok d1 /\ writeFile d1 np (content file) = Ok d'.

Lemma outcome_written d f d' :
  ioSucceeds d f d' ->
  outcome d f = Written (fileExists d (normalizeFilePath (path f))) d'.
Proof.
  unfold ioSucceeds, outcome. cbv zeta. intros [-> [d1 [H1 H2]]]. simpl negb. cbv iota.
  rewrite H1, H2. reflexivity.
Qed.

Lemma diskAfter_snoc files : forall d f,
  diskAfter d (files ++ [f])
  = stepDisk (diskAfter d files) (outcome (diskAfter d files) f).
Proof. induction files as [|g rest IH]; intros d f; cbn; [reflexivity|apply IH]. Qed.

Lemma diskBefore_diskAfter d files i : diskBefore d files i = diskAfter d (take i files).
Proof. unfold diskBefore. apply diskAfter_applyFiles. Qed.

Lemma diskBefore_next d files i f :
  files !! i = Some f ->
  diskBefore d files (S i)
  = stepDisk (diskBefore d files i) (outcome (diskBefore d files i) f).
Proof.
  intros H. rewrite !diskBefore_diskAfter, (take_S_r _ _ _ H). apply diskAfter_snoc.
Qed.

Lemma diskBefore_all d files : diskBefore d files (length files) = diskAfter d files.
Proof. rewrite diskBefore_diskAfter, firstn_all. reflexivity. Qed.

Lemma turns_accounted ts :
  length (flat_map turnCreated ts) + length (flat_map turnUpdated ts)
  + length (flat_map turnErrors ts) = length ts.
Proof.
  induction ts as [|[[i f] o] ts IH]; [reflexivity|].
  cbn [flat_map]. rewrite !length_app.
  change (turnCreated (i, f, o)) with (stepCreated f o).
  change (turnUpdated (i, f, o)) with (stepUpdated f o).
  change (turnErrors (i, f, o)) with (stepErrors f o).
  destruct o as [reason|ex d' m|[|] d']; cbn [stepCreated stepUpdated stepErrors length]; lia.
Qed.

(** C1.  Per-file isolation.  For a validated batch the stream ends with
    exactly one complete frame, which carries the results of the whole run;
    before it there is no other batch-level terminal frame.  Every file of
    the batch is processed (its validating frame is sent) whatever happened
    to the files before it, on the disk the files before it left:
    - a file that the path policy rejects adds its own entry to the errors
      of the results, gets a file-error frame, and leaves the disk as it
      was;
    - a file for which creating the directory or writing throws adds its
      own entry to the errors and gets a file-error frame;
    - a file whose directory is there or is created and whose write
      succeeds gets a file-complete frame, is listed among the updated
      files when its target was there and among the created files when it
      was not, and the disk after its write is the one the next file sees.
    The results hold one entry for each file of the batch, and the disk the
    handler leaves is the one the last file left. *)
Theorem per_file_isolation d body files :
  requestFiles body = Some files ->
  ApplyCodeRequestSchema_issues (Some files) = [] ->
  exists evs rs,
    frames (snd (POST d (Some body))) = evs ++ [Complete (completeMessage rs) rs]
    /\ Forall (fun e => isBatchTerminal e = false) evs
    /\ (forall i f, files !! i = Some f ->
          In (FileProgress (i + 1) (length files) (normalizeFilePath (path f)) "validating")
             evs)
    /\ (forall i f reason, files !! i = Some f -> policyRejects f reason ->
          In (normalizeFilePath (path f) +:+ ": " +:+ reason) (errors rs)
          /\ In (FileError (normalizeFilePath (path f)) reason) evs
          /\ diskBefore d files (S i) = diskBefore d files i)
    /\ (forall i f m, files !! i = Some f -> ioThrows (diskBefore d files i) f m ->
          In (path f +:+ ": " +:+ m) (errors rs)
          /\ In (FileError (path f) m) evs)
    /\ (forall i f d', files !! i = Some f -> ioSucceeds (diskBefore d files i) f d' ->
          let existed := fileExists (diskBefore d files i) (normalizeFilePath (path f)) in
          In (FileComplete (normalizeFilePath (path f)) (completeAction existed)) evs
          /\ In (normalizeFilePath (path f))
                (if existed then filesUpdated rs else filesCreated rs)
          /\ diskBefore d files (S i) = d')
    /\ length (filesCreated rs) + length (filesUpdated rs) + length (errors rs)
       = length files
    /\ fst (POST d (Some body)) = diskBefore d files (length files).
Proof.
  intros Hf Hi. rewrite (POST_validated _ _ _ Hf Hi). cbn [fst snd frames].
  set (n := length files). set (ts := turns 0 d files).
  exists (Status ("Processing " +:+ ofNat n +:+ " files...") :: flat_map (turnFrames n) ts),
         (finalResults d body files).
  assert (Hturn : forall i f, files !! i = Some f ->
            In (i, f, outcome (diskBefore d files i) f) ts).
  { intros i f H. apply (lookup_In _ i). unfold ts.
    rewrite (turns_lookup _ _ _ _ _ H). unfold diskBefore.
    rewrite diskAfter_applyFiles. reflexivity. }
  split; [reflexivity|]. split; [|split; [|split; [|split; [|split; [|split]]]]].
  - constructor; [reflexivity|]. apply List.Forall_forall. intros e He.
    apply in_flat_map in He as [t [_ He]].
    pose proof (stepFrames_not_terminal n (fst (fst t)) (snd (fst t)) (snd t)) as Hn.
    rewrite List.Forall_forall in Hn. apply Hn, He.
  - intros i f H. right. eapply turn_frames_in; [apply (Hturn _ _ H)|]. left. reflexivity.
  - intros i f reason H Hr. pose proof (Hturn _ _ H) as Ht.
    rewrite (outcome_rejected _ _ _ Hr) in Ht. split; [|split].
    + cbn [finalResults errors]. apply in_flat_map. eexists; split; [exact Ht|].
      left. reflexivity.
    + right. eapply turn_frames_in; [exact Ht|]. right. left. reflexivity.
    + rewrite (diskBefore_next _ _ _ _ H), (outcome_rejected _ _ _ Hr). reflexivity.
  - intros i f m H Hio. pose proof (Hturn _ _ H) as Ht.
    destruct (outcome_failed _ _ _ Hio) as (ex & d' & Ho). rewrite Ho in Ht. split.
    + cbn [finalResults errors]. apply in_flat_map. eexists; split; [exact Ht|].
      left. reflexivity.
    + right. eapply turn_frames_in; [exact Ht|]. right. right. left. reflexivity.
  - intros i f d' H Hio. pose proof (Hturn _ _ H) as Ht.
    rewrite (outcome_written _ _ _ Hio) in Ht.
    set (existed := fileExists (diskBefore d files i) (normalizeFilePath (path f))) in *.
    split; [|split].
    + right. eapply turn_frames_in; [exact Ht|]. right. right. left. reflexivity.
    + destruct existed; cbn [finalResults filesUpdated filesCreated];
        apply in_flat_map; (eexists; split; [exact Ht|]); left; reflexivity.
    + rewrite (diskBefore_next _ _ _ _ H), (outcome_written _ _ _ Hio). reflexivity.
  - cbn [finalResults filesCreated filesUpdated errors]. fold ts.
    rewrite turns_accounted. apply turns_length.
  - symmetry. apply diskBefore_all.
Qed.

(** C4, as amended.  For a validated batch the stream is one status frame,
    then the frames of each file in batch order, then one complete frame.
    The frames of a file are: validating, then creating or updating, then
    one terminal frame (file-complete or file-error) -- except that a file
    rejected by the path policy gets validating directly followed by its
    file-error frame, with no creating or updating frame. *)
Theorem per_file_event_order d body files :
  requestFiles body = Some files ->
  ApplyCodeRequestSchema_issues (Some files) = [] ->
  exists status traces rs,
    frames (snd (POST d (Some body)))
    = Status status :: concat traces ++ [Complete (completeMessage rs) rs]
    /\ length traces = length files
    /\ (forall i f t, files !! i = Some f -> traces !! i = Some t ->
          FileTrace (length files) i f t).
Proof.
  intros Hf Hi. rewrite (POST_validated _ _ _ Hf Hi). cbn [snd frames].
  set (n := length files).
  exists ("Processing " +:+ ofNat n +:+ " files..."),
         (map (turnFrames n) (turns 0 d files)), (finalResults d body files).
  split; [rewrite flat_map_concat_map; reflexivity|]. split.
  - rewrite length_map. apply turns_length.
  - intros i f t H Ht. rewrite list_lookup_fmap, (turns_lookup _ _ _ _ _ H) in Ht.
    cbn in Ht. inversion Ht; subst t. apply stepFrames_trace.
Qed.

End Loop.

Section PosixRuns.
(** The disk of module [Fs]. *)
Variable projectRoot : string.

Local Abbreviation normalizeFilePath := ApplyRoute.normalizeFilePath.
Local Abbreviation isPathSafe := (ApplyRoute.isPathSafe projectRoot).
Local Abbreviation fileExists := (ApplyRoute.fileExists posix projectRoot).
Local Abbreviation ensureDirectory := (ApplyRoute.ensureDirectory posix projectRoot).
Local Abbreviation writeFile := (ApplyRoute.writeFile posix projectRoot).
Local Abbreviation POST := (ApplyRoute.POST posix projectRoot).
Local Abbreviation outcome := (outcome posix projectRoot).
Local Abbreviation turns := (turns posix projectRoot).
Local Abbreviation diskAfter := (diskAfter posix projectRoot).
Local Abbreviation finalResults := (finalResults posix projectRoot).

(** ** Runs in which every file is written *)

Definition key (f : FileToApply) : list string :=
  fsKey (resolve projectRoot [projectRoot; normalizeFilePath (path f)]).

Definition dirKey (f : FileToApply) : list string :=
  fsKey (resolve projectRoot [projectRoot; dirname (normalizeFilePath (path f))]).

Definition exists_at (d : Disk) (k : list string) : bool := isDir d k || isFile d k.

Lemma ancestors_last k : k <> [] -> ancestors k = removelast (ancestors k) ++ [k].
Proof.
  intros Hk. unfold ancestors.
  destruct (length k) as [|n] eqn:Hn; [destruct k; [congruence|discriminate]|].
  rewrite seq_S, map_app. cbn [map]. rewrite removelast_last.
  replace (1 + n) with (length k) by lia. rewrite firstn_all. reflexivity.
Qed.

Lemma mkdir_inv d abs dE :
  mkdir d abs = Ok dE ->
  d_files dE = d_files d /\ d_dirs d ⊆ d_dirs dE
  /\ (forall k', isFile d k' = true -> k' ∈ d_dirs dE -> k' ∈ d_dirs d)
  /\ isDir dE (fsKey abs) = true.
Proof.
  unfold mkdir. set (k := fsKey abs).
  destruct (existsb (isFile d) (removelast (ancestors k))) eqn:Ha; [discriminate|].
  destruct (isFile d k) eqn:Hk; [discriminate|].
  intros H. inversion H; subst dE; clear H. cbn [d_files d_dirs].
  split; [reflexivity|]. split; [set_solver|]. split.
  - intros k' Hf Hin. apply elem_of_union in Hin as [Hin|Hin]; [exact Hin|].
    apply elem_of_list_to_set, list_elem_of_In in Hin.
    destruct (decide (k = [])) as [E|E].
    + rewrite E in Hin. contradiction.
    + rewrite (ancestors_last k E) in Hin. apply in_app_iff in Hin as [Hin|[<-|[]]].
      * assert (existsb (isFile d) (removelast (ancestors k)) = true)
          by (apply existsb_exists; eauto).
        congruence.
      * congruence.
  - unfold isDir. apply bool_decide_eq_true. cbn [d_dirs].
    destruct (decide (k = [])) as [E|E]; [left; exact E|].
    right. apply elem_of_union_r, elem_of_list_to_set, list_elem_of_In.
    rewrite (ancestors_last k E). apply in_app_iff. right. left. reflexivity.
Qed.

Lemma ensureDirectory_inv d f dE :
  ensureDirectory d (normalizeFilePath (path f)) = Ok dE ->
  d_files dE = d_files d /\ d_dirs d ⊆ d_dirs dE
  /\ (forall k', isFile d k' = true -> k' ∈ d_dirs dE -> k' ∈ d_dirs d)
  /\ exists_at dE (dirKey f) = true.
Proof.
  unfold ApplyRoute.ensureDirectory. cbn [posix fs_access fs_mkdir]. fold (dirKey f).
  destruct (access d _) eqn:Ha.
  - intros H. inversion H; subst dE. repeat split; auto.
  - intros H. destruct (mkdir_inv _ _ _ H) as (H1 & H2 & H3 & H4).
    repeat split; auto. unfold exists_at, dirKey. rewrite H4. reflexivity.
Qed.

Lemma writeFile_inv d f d' :
  writeFile d (normalizeFilePath (path f)) (content f) = Ok d' ->
  isDir d (key f) = false /\ isFile d (removelast (key f)) = false
  /\ isDir d (removelast (key f)) = true
  /\ d' = mkDisk (<[key f := content f]> (d_files d)) (d_dirs d).
Proof.
  unfold ApplyRoute.writeFile. cbn [posix fs_writeFile]. unfold writeFileAbs. fold (key f).
  destruct (isDir d (key f)); [discriminate|].
  destruct (isFile d (removelast (key f))); [discriminate|].
  destruct (isDir d (removelast (key f))); [|discriminate].
  intros H. inversion H. auto.
Qed.

Lemma written_inv d f ex d' :
  outcome d f = Written ex d' ->
  exists dE,
    safe (isPathSafe (normalizeFilePath (path f))) = true
    /\ ex = exists_at d (key f)
    /\ ensureDirectory d (normalizeFilePath (path f)) = Ok dE
    /\ writeFile dE (normalizeFilePath (path f)) (content f) = Ok d'.
Proof.
  unfold outcome. cbv zeta.
  destruct (safe (isPathSafe _)); simpl negb; cbv iota; [|discriminate].
  destruct (ensureDirectory d _) as [dE|] eqn:He; [|discriminate].
  destruct (writeFile dE _ _) as [d2|] eqn:Hw; [|discriminate].
  intros H. inversion H; subst. exists dE. repeat split; auto.
Qed.

Lemma isFile_true d k : isFile d k = true <-> is_Some (d_files d !! k).
Proof. apply bool_decide_eq_true. Qed.

Lemma isFile_false d k : isFile d k = false <-> d_files d !! k = None.
Proof.
  unfold isFile. rewrite bool_decide_eq_false, <- eq_None_not_Some. reflexivity.
Qed.

Lemma isDir_true d k : isDir d k = true <-> k = [] \/ k ∈ d_dirs d.
Proof. apply bool_decide_eq_true. Qed.

Lemma isDir_false d k : isDir d k = false <-> k <> [] /\ k ∉ d_dirs d.
Proof. unfold isDir. rewrite bool_decide_eq_false. tauto. Qed.

Lemma written_step d f ex d' :
  outcome d f = Written ex d' ->
  safe (isPathSafe (normalizeFilePath (path f))) = true
  /\ ex = exists_at d (key f)
  /\ d_files d' = <[key f := content f]> (d_files d)
  /\ d_dirs d ⊆ d_dirs d'
  /\ (forall k', isFile d k' = true -> k' ∈ d_dirs d' -> k' ∈ d_dirs d)
  /\ exists_at d' (dirKey f) = true
  /\ isDir d' (key f) = false
  /\ isDir d' (removelast (key f)) = true
  /\ isFile d' (removelast (key f)) = false.
Proof.
  intros H. destruct (written_inv _ _ _ _ H) as (dE & Hs & Hex & He & Hw).
  destruct (ensureDirectory_inv _ _ _ He) as (E1 & E2 & E3 & E4).
  destruct (writeFile_inv _ _ _ Hw) as (W1 & W2 & W3 & ->).
  cbn [d_files d_dirs]. rewrite E1.
  split; [exact Hs|]. split; [exact Hex|]. split; [reflexivity|].
  split; [exact E2|]. split; [exact E3|].
  assert (Hne : removelast (key f) <> key f).
  { intros E. rewrite E in W3. congruence. }
  repeat split.
  - unfold exists_at in *. apply orb_true_iff in E4 as [E4|E4].
    + apply orb_true_iff. left. exact E4.
    + apply orb_true_iff. right. apply isFile_true. apply isFile_true in E4.
      cbn [d_files]. destruct (decide (key f = dirKey f)) as [<-|Hn].
      * rewrite lookup_insert_eq. eauto.
      * rewrite lookup_insert_ne by exact Hn. rewrite <- E1. exact E4.
  - exact W1.
  - exact W3.
  - apply isFile_false. cbn [d_files]. rewrite lookup_insert_ne by congruence.
    rewrite <- E1. apply isFile_false, W2.
Qed.

(** Every file of the batch is written: no rejection, no exception. *)
Inductive Clean : Disk -> list FileToApply -> Disk -> Prop :=
| clean_nil d : Clean d [] d
| clean_cons d f ex d1 rest D :
    outcome d f = Written ex d1 -> Clean d1 rest D -> Clean d (f :: rest) D.

Lemma clean_of_no_errors files : forall i d,
  flat_map turnErrors (turns i d files) = [] -> Clean d files (diskAfter d files).
Proof.
  induction files as [|f rest IH]; intros i d H; cbn [turns diskAfter] in *.
  - constructor.
  - cbn [flat_map] in H. apply app_eq_nil in H as [H1 H2].
    unfold turnErrors in H1. cbn [fst snd] in H1.
    destruct (outcome d f) as [|?|ex d1] eqn:Ho; try discriminate.
    econstructor; [exact Ho|]. apply (IH _ _ H2).
Qed.

Lemma clean_dirs d files D : Clean d files D -> d_dirs d ⊆ d_dirs D.
Proof.
  induction 1 as [|d f ex d1 rest D Ho Hc IH]; [set_solver|].
  destruct (written_step _ _ _ _ Ho) as (_ & _ & _ & Hd & _). set_solver.
Qed.

Lemma clean_isDir d files D k : Clean d files D -> isDir d k = true -> isDir D k = true.
Proof.
  intros Hc. rewrite !isDir_true. intros [->|Hin]; [left; reflexivity|right].
  eapply elem_of_weaken; [exact Hin|eapply clean_dirs, Hc].
Qed.

Lemma clean_files_kept d files D k v :
  Clean d files D -> ~ In k (map key files) ->
  d_files d !! k = Some v -> d_files D !! k = Some v.
Proof.
  intros Hc0. induction Hc0 as [|d f ex d1 rest D Ho Hc IH]; intros Hk Hv; [exact Hv|].
  destruct (written_step _ _ _ _ Ho) as (_ & _ & Hf & _).
  cbn [map] in Hk. apply IH; [intros E; apply Hk; right; exact E|].
  rewrite Hf, lookup_insert_ne; [exact Hv|]. intros E. apply Hk. left. exact E.
Qed.

Lemma clean_isFile d files D k : Clean d files D -> isFile d k = true -> isFile D k = true.
Proof.
  induction 1 as [|d f ex d1 rest D Ho Hc IH]; intros Hk; [exact Hk|].
  destruct (written_step _ _ _ _ Ho) as (_ & _ & Hf & _).
  apply IH. apply isFile_true. rewrite Hf. apply isFile_true in Hk.
  destruct (decide (key f = k)) as [<-|Hn];
    [rewrite lookup_insert_eq; eauto|rewrite lookup_insert_ne by exact Hn; exact Hk].
Qed.

(** A file that is no directory never becomes one. *)
Lemma clean_file_stays d files D k :
  Clean d files D -> isFile d k = true -> isDir d k = false -> isDir D k = false.
Proof.
  induction 1 as [|d f ex d1 rest D Ho Hc IH]; intros Hf Hd; [exact Hd|].
  destruct (written_step _ _ _ _ Ho) as (_ & _ & Hfiles & _ & Hnew & _).
  apply IH.
  - apply (clean_isFile d [f] d1); [econstructor; [exact Ho|constructor]|exact Hf].
  - apply isDir_false. apply isDir_false in Hd as [Hne Hd].
    split; [exact Hne|]. intros Hin. apply Hd, Hnew; assumption.
Qed.

(** A directory that is no file never becomes one. *)
Lemma clean_dir_stays d files D k :
  Clean d files D -> isDir d k = true -> isFile d k = false -> isFile D k = false.
Proof.
  induction 1 as [|d f ex d1 rest D Ho Hc IH]; intros Hd Hf; [exact Hf|].
  destruct (written_step _ _ _ _ Ho) as (_ & _ & Hfiles & Hdirs & _ & _ & Hk & _).
  apply IH.
  - apply (clean_isDir d [f] d1); [econstructor; [exact Ho|constructor]|exact Hd].
  - apply isFile_false. rewrite Hfiles, lookup_insert_ne; [apply isFile_false, Hf|].
    intros E. subst k.
    assert (isDir d1 (key f) = true)
      by (apply (clean_isDir d [f] d1); [econstructor; [exact Ho|constructor]|exact Hd]).
    congruence.
Qed.

Lemma clean_exists_at d files D k :
  Clean d files D -> exists_at d k = true -> exists_at D k = true.
Proof.
  intros Hc H. unfold exists_at in *. apply orb_true_iff in H as [H|H]; apply orb_true_iff.
  - left. eapply clean_isDir; eassumption.
  - right. eapply clean_isFile; eassumption.
Qed.

Lemma clean_safe d files D f :
  Clean d files D -> In f files -> safe (isPathSafe (normalizeFilePath (path f))) = true.
Proof.
  induction 1 as [|d g ex d1 rest D Ho Hc IH]; intros Hin; [contradiction|].
  destruct Hin as [->|Hin]; [|auto].
  apply (written_step _ _ _ _ Ho).
Qed.

(** What the disk holds for each file once a clean run is over. *)
Lemma clean_final d files D :
  Clean d files D ->
  forall f, In f files ->
    isFile D (key f) = true
    /\ isDir D (key f) = false
    /\ isDir D (removelast (key f)) = true
    /\ isFile D (removelast (key f)) = false
    /\ exists_at D (dirKey f) = true.
Proof.
  induction 1 as [|d g ex d1 rest D Ho Hc IH]; intros f Hin; [contradiction|].
  destruct Hin as [->|Hin]; [|apply IH; assumption].
  destruct (written_step _ _ _ _ Ho) as (_ & _ & Hf & _ & _ & He & Hk & Hp & Hpf).
  assert (Hv : isFile d1 (key f) = true)
    by (apply isFile_true; rewrite Hf, lookup_insert_eq; eauto).
  repeat split.
  - eapply clean_isFile; eassumption.
  - eapply clean_file_stays; eassumption.
  - eapply clean_isDir; eassumption.
  - eapply clean_dir_stays; eassumption.
  - eapply clean_exists_at; eassumption.
Qed.

(** The disk with one file overwritten. *)
Definition overwrite (E : Disk) (f : FileToApply) : Disk :=
  mkDisk (<[key f := content f]> (d_files E)) (d_dirs E).

(** Same directories and same files, whatever the files hold. *)
Definition sameShape (D E : Disk) : Prop :=
  d_dirs E = d_dirs D /\ forall k, isFile E k = isFile D k.

Lemma sameShape_isDir D E k : sameShape D E -> isDir E k = isDir D k.
Proof. intros [Hd _]. unfold isDir. rewrite Hd. reflexivity. Qed.

Lemma sameShape_overwrite D E f :
  sameShape D E -> isFile D (key f) = true -> sameShape D (overwrite E f).
Proof.
  intros [Hd Hf] Hk. split; [exact Hd|]. intros k.
  destruct (decide (key f = k)) as [<-|Hne].
  - rewrite Hk. apply isFile_true. cbn [overwrite d_files].
    rewrite lookup_insert_eq. eauto.
  - rewrite <- Hf. unfold isFile. cbn [overwrite d_files].
    rewrite lookup_insert_ne by exact Hne. reflexivity.
Qed.

(** Second run: on a disk where the file is there, is no directory and has
    its directory, the file is found and overwritten. *)
Lemma rerun_outcome E f :
  safe (isPathSafe (normalizeFilePath (path f))) = true ->
  isFile E (key f) = true ->
  isDir E (key f) = false ->
  isDir E (removelast (key f)) = true ->
  isFile E (removelast (key f)) = false ->
  exists_at E (dirKey f) = true ->
  outcome E f = Written true (overwrite E f).
Proof.
  intros Hs Hv Hk Hp Hpf Hd. unfold LoopFacts.outcome. cbv zeta.
  rewrite Hs. simpl negb. cbv iota.
  unfold ApplyRoute.ensureDirectory. cbn [posix fs_access fs_mkdir]. fold (dirKey f).
  change (access E (resolve projectRoot [projectRoot; dirname (normalizeFilePath (path f))]))
    with (exists_at E (dirKey f)).
  rewrite Hd.
  unfold ApplyRoute.writeFile. cbn [posix fs_writeFile]. unfold writeFileAbs.
  fold (key f). rewrite Hk, Hpf, Hp.
  simpl negb. cbv iota.
  unfold ApplyRoute.fileExists. cbn [posix fs_access].
  change (access E (resolve projectRoot [projectRoot; normalizeFilePath (path f)]))
    with (exists_at E (key f)).
  unfold exists_at. rewrite Hv, orb_true_r. reflexivity.
Qed.

Lemma turns_rerun D files :
  (forall f, In f files ->
     safe (isPathSafe (normalizeFilePath (path f))) = true
     /\ isFile D (key f) = true
     /\ isDir D (key f) = false
     /\ isDir D (removelast (key f)) = true
     /\ isFile D (removelast (key f)) = false
     /\ exists_at D (dirKey f) = true) ->
  forall E i, sameShape D E ->
    diskAfter E files = fold_left overwrite files E
    /\ exists ds, turns i E files
                  = imap (fun j fd => (i + j, fst fd, Written true (snd fd))) (zip files ds)
                  /\ length ds = length files.
Proof.
  induction files as [|f rest IH]; intros H E i HE.
  - split; [reflexivity|]. exists []. split; reflexivity.
  - destruct (H f (or_introl eq_refl)) as (Hs & Hv & Hk & Hp & Hpf & Hd).
    assert (Ho : outcome E f = Written true (overwrite E f)).
    { apply rerun_outcome; [exact Hs|..].
      - destruct HE as [_ HE]. rewrite HE. exact Hv.
      - rewrite (sameShape_isDir _ _ _ HE). exact Hk.
      - rewrite (sameShape_isDir _ _ _ HE). exact Hp.
      - destruct HE as [_ HE]. rewrite HE. exact Hpf.
      - unfold exists_at. rewrite (sameShape_isDir _ _ _ HE).
        destruct HE as [_ HE]. rewrite HE. exact Hd. }
    destruct (IH (fun g Hg => H g (or_intror Hg)) (overwrite E f) (S i)
                (sameShape_overwrite _ _ _ HE Hv)) as [Hdisk [ds [Ht Hl]]].
    cbn [LoopFacts.turns LoopFacts.diskAfter fold_left]. rewrite Ho. cbn [stepDisk].
    split; [exact Hdisk|].
    exists (overwrite E f :: ds). split; [|simpl; congruence].
    cbn [zip zip_with imap]. rewrite Ht, Nat.add_0_r.
    f_equal. apply imap_ext. intros j g _. cbn. rewrite Nat.add_succ_r. reflexivity.
Qed.

(** The files of the disk after a clean run, and after overwriting. *)
Definition writes (files : list FileToApply) : list (list string * string) :=
  map (fun f => (key f, content f)) files.

Lemma fold_insert_union (l : list (list string * string)) : forall m : gmap (list string) string,
  fold_left (fun m kv => <[fst kv := snd kv]> m) l m = list_to_map (rev l) ∪ m.
Proof.
  induction l as [|[k c] l IH]; intros m; cbn [fold_left rev fst snd].
  - cbn. rewrite (left_id_L ∅ (∪)). reflexivity.
  - rewrite IH, list_to_map_app. cbn [list_to_map foldr].
    rewrite <- (assoc_L (∪)). f_equal.
    rewrite insert_union_singleton_l. reflexivity.
Qed.

Lemma clean_files d files D :
  Clean d files D ->
  d_files D = fold_left (fun m kv => <[fst kv := snd kv]> m) (writes files) (d_files d).
Proof.
  induction 1 as [|d f ex d1 rest D Ho Hc IH]; [reflexivity|].
  destruct (written_step _ _ _ _ Ho) as (_ & _ & Hf & _).
  cbn [writes map fold_left fst snd]. rewrite <- Hf. exact IH.
Qed.

Lemma overwrite_files files : forall E,
  d_files (fold_left overwrite files E)
  = fold_left (fun m kv => <[fst kv := snd kv]> m) (writes files) (d_files E)
  /\ d_dirs (fold_left overwrite files E) = d_dirs E.
Proof.
  induction files as [|f rest IH]; intros E; [split; reflexivity|].
  cbn [fold_left writes map fst snd]. destruct (IH (overwrite E f)) as [H1 H2].
  split; [exact H1|exact H2].
Qed.

(** Writing the batch again over the result of a clean run changes nothing. *)
Lemma overwrite_clean d files D : Clean d files D -> fold_left overwrite files D = D.
Proof.
  intros Hc. destruct (overwrite_files files D) as [Hf Hd].
  assert (E : d_files (fold_left overwrite files D) = d_files D).
  { rewrite Hf, (clean_files _ _ _ Hc), !fold_insert_union.
    rewrite (assoc_L (∪)), (idemp_L (∪)). reflexivity. }
  destruct (fold_left overwrite files D) as [fs2 ds2], D as [fs1 ds1].
  cbn in *. congruence.
Qed.

(** First run: whatever is reported as created is a path of the batch. *)
Lemma created_from_batch files : forall i d p,
  In p (flat_map turnCreated (turns i d files)) ->
  exists f, In f files /\ p = normalizeFilePath (path f).
Proof.
  induction files as [|f rest IH]; intros i d p H; [contradiction|].
  cbn [LoopFacts.turns flat_map] in H. apply in_app_iff in H as [H|H].
  - exists f. split; [left; reflexivity|].
    unfold turnCreated in H. cbn [fst snd] in H.
    destruct (outcome d f) as [|?|[|] ?]; cbn in H; try contradiction.
    destruct H as [H|[]]. congruence.
  - destruct (IH _ _ _ H) as [g [Hg Hp]]. exists g. split; [right; exact Hg|exact Hp].
Qed.

(** First run: every file whose target is not yet a file gets its path
    reported as created, by the first file of the batch that has this
    target. *)
Lemma created_all d files D : forall i,
  Clean d files D ->
  (forall f g, In f files -> In g files -> key f = key g ->
     normalizeFilePath (path f) = normalizeFilePath (path g)) ->
  forall f, In f files -> isFile d (key f) = false ->
    In (normalizeFilePath (path f)) (flat_map turnCreated (turns i d files)).
Proof.
  intros i Hc. revert i.
  induction Hc as [|d g ex d1 rest D Ho Hc IH]; intros i Halias f Hin Hf; [contradiction|].
  cbn [LoopFacts.turns flat_map]. rewrite Ho. cbn [stepDisk]. apply in_app_iff.
  destruct (written_step _ _ _ _ Ho) as (_ & Hex & Hfiles & Hdirs & _ & _ & Hk & _).
  destruct (decide (key g = key f)) as [E|E].
  - left. unfold turnCreated. cbn [fst snd].
    assert (ex = false) as ->.
    { rewrite Hex. unfold exists_at. rewrite E, Hf, orb_false_r. rewrite <- E.
      apply isDir_false. apply isDir_false in Hk as [Hne Hk].
      split; [exact Hne|]. intros Hd. apply Hk. eapply elem_of_weaken; eassumption. }
    cbn. left. apply Halias; [left; reflexivity|exact Hin|exact E].
  - right. destruct Hin as [->|Hin]; [congruence|].
    apply IH.
    + intros a b Ha Hb. apply Halias; right; assumption.
    + exact Hin.
    + apply isFile_false. rewrite Hfiles, lookup_insert_ne by exact E.
      apply isFile_false, Hf.
Qed.

(** C6, as amended.  Take a validated batch, a disk on which none of its
    targets exists, and suppose that two files of the batch share a target
    only when they are reported under the same path, and that the first run
    reports no error.  Then the first run reports every path of the batch as
    created; the second run, on the disk the first one left, reports exactly
    the same set of paths as updated, none as created and no error; and it
    leaves the disk exactly as the first run left it. *)
Theorem apply_twice d body files rs1 :
  requestFiles body = Some files ->
  ApplyCodeRequestSchema_issues (Some files) = [] ->
  (forall f, In f files -> fileExists d (normalizeFilePath (path f)) = false) ->
  (forall f g, In f files -> In g files -> key f = key g ->
     normalizeFilePath (path f) = normalizeFilePath (path g)) ->
  reported (snd (POST d (Some body))) = Some rs1 ->
  errors rs1 = [] ->
  exists rs2,
    reported (snd (POST (fst (POST d (Some body))) (Some body))) = Some rs2
    /\ (forall f, In f files -> In (normalizeFilePath (path f)) (filesCreated rs1))
    /\ (forall p, In p (filesUpdated rs2) <-> In p (filesCreated rs1))
    /\ filesCreated rs2 = []
    /\ errors rs2 = []
    /\ fst (POST (fst (POST d (Some body))) (Some body)) = fst (POST d (Some body)).
Proof.
  intros Hf Hi Habs Halias Hr1 He1.
  destruct (reported_validated posix projectRoot d body files Hf Hi) as [Hrep1 Hd1].
  rewrite Hrep1 in Hr1. inversion Hr1; subst rs1; clear Hr1. rewrite Hd1.
  set (D := diskAfter d files).
  destruct (reported_validated posix projectRoot D body files Hf Hi) as [Hrep2 Hd2].
  exists (finalResults D body files). rewrite Hd2. split; [exact Hrep2|].
  cbn [LoopFacts.finalResults errors] in He1.
  pose proof (clean_of_no_errors _ _ _ He1) as Hc. fold D in Hc.
  assert (Hfile : forall f, In f files -> isFile d (key f) = false).
  { intros f Hin. specialize (Habs f Hin).
    unfold ApplyRoute.fileExists in Habs. cbn [posix fs_access] in Habs.
    unfold access in Habs. apply orb_false_iff in Habs as [_ Habs]. exact Habs. }
  assert (Hcreated : forall f, In f files ->
            In (normalizeFilePath (path f)) (flat_map turnCreated (turns 0 d files))).
  { intros f Hin. eapply created_all; eauto. }
  assert (Hre : forall f, In f files ->
            safe (isPathSafe (normalizeFilePath (path f))) = true
            /\ isFile D (key f) = true
            /\ isDir D (key f) = false
            /\ isDir D (removelast (key f)) = true
            /\ isFile D (removelast (key f)) = false
            /\ exists_at D (dirKey f) = true).
  { intros f Hin. split; [eapply clean_safe; eassumption|].
    apply (clean_final _ _ _ Hc f Hin). }
  destruct (turns_rerun D files Hre D 0 (conj eq_refl (fun k => eq_refl)))
    as [HD2 [ds [Ht2 Hl2]]].
  assert (Hupd : flat_map turnUpdated (turns 0 D files)
                 = map (fun f => normalizeFilePath (path f)) files).
  { rewrite Ht2.
    rewrite (flat_map_imap_single _ (fun fd => normalizeFilePath (path (fst fd))))
      by reflexivity.
    rewrite <- (map_map fst (fun f => normalizeFilePath (path f))).
    f_equal. apply fst_zip. lia. }
  unfold LoopFacts.finalResults. cbn [filesCreated filesUpdated errors].
  split; [exact Hcreated|]. split; [|split; [|split]].
  - intros p. rewrite Hupd, in_map_iff. split.
    + intros [f [<- Hin]]. apply Hcreated, Hin.
    + intros Hp. destruct (created_from_batch _ _ _ _ Hp) as [f [Hin ->]].
      exists f. split; [reflexivity|exact Hin].
  - rewrite Ht2. apply flat_map_imap_nil. reflexivity.
  - rewrite Ht2. apply flat_map_imap_nil. reflexivity.
  - rewrite HD2. eapply overwrite_clean, Hc.
Qed.

End PosixRuns.

(** ** The scenarios of the specification *)

Definition batch3 : list FileToApply :=
  [mkFile "src/a.ts" "export const a = 1;"; mkFile ".env" "KEY=1";
   mkFile "src/b.ts" "export const b = 2;"].

Definition body3 : Body := mkBody (Some batch3) None None.

Example isolation_scenario :
  frames (snd (POST posix "/app" emptyDisk (Some body3)))
  = [Status "Processing 3 files...";
     FileProgress 1 3 "src/a.ts" "validating";
     FileProgress 1 3 "src/a.ts" "creating";
     FileComplete "src/a.ts" "created";
     FileProgress 2 3 "src/.env" "validating";
     FileError "src/.env" "Protected file: .env";
     FileProgress 3 3 "src/b.ts" "validating";
     FileProgress 3 3 "src/b.ts" "creating";
     FileComplete "src/b.ts" "created";
     Complete "Applied 2 file(s) successfully, 1 error(s)"
       (mkResults ["src/a.ts"; "src/b.ts"] [] [] ["src/.env: Protected file: .env"] [])].
Proof. vm_compute. reflexivity. Qed.

(** A path that passes the schema and the policy and still fails at write
    time: [.] resolves to the source directory itself. *)
Example dot_path_write_fails :
  ApplyCodeRequestSchema_issues (Some [mkFile "." "x"]) = []
  /\ isPathSafe "/app" (normalizeFilePath ".") = mkCheck true None
  /\ ioThrows posix "/app" emptyDisk (mkFile "." "x")
       "EISDIR: illegal operation on a directory, open '/app/src'".
Proof.
  split; [reflexivity|]. split; [reflexivity|]. split; [reflexivity|].
  right. eexists. split; vm_compute; reflexivity.
Qed.

Lemma per_file_isolation_witness :
  requestFiles body3 = Some batch3
  /\ ApplyCodeRequestSchema_issues (Some batch3) = []
  /\ exists evs rs,
      frames (snd (POST posix "/app" emptyDisk (Some body3)))
      = evs ++ [Complete (completeMessage rs) rs]
      /\ Forall (fun e => isBatchTerminal e = false) evs
      /\ (forall i f, batch3 !! i = Some f ->
            In (FileProgress (i + 1) (length batch3) (normalizeFilePath (path f))
                  "validating") evs)
      /\ (forall i f reason, batch3 !! i = Some f -> policyRejects "/app" f reason ->
            In (normalizeFilePath (path f) +:+ ": " +:+ reason) (errors rs)
            /\ In (FileError (normalizeFilePath (path f)) reason) evs
            /\ diskBefore posix "/app" emptyDisk batch3 (S i)
               = diskBefore posix "/app" emptyDisk batch3 i)
      /\ (forall i f m, batch3 !! i = Some f ->
            ioThrows posix "/app" (diskBefore posix "/app" emptyDisk batch3 i) f m ->
            In (path f +:+ ": " +:+ m) (errors rs)
            /\ In (FileError (path f) m) evs)
      /\ (forall i f d', batch3 !! i = Some f ->
            ioSucceeds posix "/app" (diskBefore posix "/app" emptyDisk batch3 i) f d' ->
            let existed :=
              fileExists posix "/app" (diskBefore posix "/app" emptyDisk batch3 i)
                (normalizeFilePath (path f)) in
            In (FileComplete (normalizeFilePath (path f)) (completeAction existed)) evs
            /\ In (normalizeFilePath (path f))
                  (if existed then filesUpdated rs else filesCreated rs)
            /\ diskBefore posix "/app" emptyDisk batch3 (S i) = d')
      /\ length (filesCreated rs) + length (filesUpdated rs) + length (errors rs)
         = length batch3
      /\ fst (POST posix "/app" emptyDisk (Some body3))
         = diskBefore posix "/app" emptyDisk batch3 (length batch3).
Proof.
  split; [reflexivity|]. split; [reflexivity|].
  exact (per_file_isolation posix "/app" emptyDisk body3 batch3 eq_refl eq_refl).
Defined.

Lemma per_file_event_order_witness :
  requestFiles body3 = Some batch3
  /\ ApplyCodeRequestSchema_issues (Some batch3) = []
  /\ exists status traces rs,
      frames (snd (POST posix "/app" emptyDisk (Some body3)))
      = Status status :: concat traces ++ [Complete (completeMessage rs) rs]
      /\ length traces = length batch3
      /\ (forall i f t, batch3 !! i = Some f -> traces !! i = Some t ->
            FileTrace "/app" (length batch3) i f t).
Proof.
  split; [reflexivity|]. split; [reflexivity|].
  exact (per_file_event_order posix "/app" emptyDisk body3 batch3 eq_refl eq_refl).
Defined.

(** C4, as stated, fails for a file the policy rejects: no creating or
    updating frame stands between its validating frame and its terminal
    frame. *)
Lemma rejected_file_skips_progress_counterexample :
  ApplyCodeRequestSchema_issues (Some [mkFile ".env" "KEY=1"]) = []
  /\ frames (snd (POST posix "/app" emptyDisk
                   (Some (mkBody (Some [mkFile ".env" "KEY=1"]) None None))))
     = [Status "Processing 1 files...";
        FileProgress 1 1 "src/.env" "validating";
        FileError "src/.env" "Protected file: .env";
        Complete "Applied 0 file(s) successfully, 1 error(s)"
          (mkResults [] [] [] ["src/.env: Protected file: .env"] [])].
Proof. split; vm_compute; reflexivity. Qed.

(** A batch that names one path twice. *)
Definition batch2 : list FileToApply :=
  [mkFile "src/a.txt" "hi"; mkFile "README.md" "# demo"; mkFile "src/a.txt" "hi again"].

Definition body2 : Body := mkBody (Some batch2) None None.

Lemma apply_twice_witness :
  requestFiles body2 = Some batch2
  /\ ApplyCodeRequestSchema_issues (Some batch2) = []
  /\ (forall f, In f batch2 ->
        fileExists posix "/app" emptyDisk (normalizeFilePath (path f)) = false)
  /\ (forall f g, In f batch2 -> In g batch2 -> key "/app" f = key "/app" g ->
        normalizeFilePath (path f) = normalizeFilePath (path g))
  /\ reported (snd (POST posix "/app" emptyDisk (Some body2)))
     = Some (mkResults ["src/a.txt"; "README.md"] ["src/a.txt"] [] [] [])
  /\ errors (mkResults ["src/a.txt"; "README.md"] ["src/a.txt"] [] [] []) = []
  /\ exists rs2,
      reported (snd (POST posix "/app" (fst (POST posix "/app" emptyDisk (Some body2)))
                       (Some body2)))
      = Some rs2
      /\ (forall f, In f batch2 ->
            In (normalizeFilePath (path f))
               (filesCreated (mkResults ["src/a.txt"; "README.md"] ["src/a.txt"] [] [] [])))
      /\ (forall p, In p (filesUpdated rs2)
                    <-> In p (filesCreated
                                (mkResults ["src/a.txt"; "README.md"] ["src/a.txt"] [] [] [])))
      /\ filesCreated rs2 = []
      /\ errors rs2 = []
      /\ fst (POST posix "/app" (fst (POST posix "/app" emptyDisk (Some body2)))
                (Some body2))
         = fst (POST posix "/app" emptyDisk (Some body2)).
Proof.
  assert (Habs : forall f, In f batch2 ->
            fileExists posix "/app" emptyDisk (normalizeFilePath (path f)) = false).
  { intros f [<-|[<-|[<-|[]]]]; reflexivity. }
  assert (Halias : forall f g, In f batch2 -> In g batch2 ->
            key "/app" f = key "/app" g ->
            normalizeFilePath (path f) = normalizeFilePath (path g)).
  { intros f g [<-|[<-|[<-|[]]]] [<-|[<-|[<-|[]]]] H;
      try reflexivity; vm_compute in H; discriminate. }
  assert (Hrep : reported (snd (POST posix "/app" emptyDisk (Some body2)))
                 = Some (mkResults ["src/a.txt"; "README.md"] ["src/a.txt"] [] [] [])).
  { vm_compute. reflexivity. }
  split; [reflexivity|]. split; [reflexivity|]. split; [exact Habs|].
  split; [exact Halias|]. split; [exact Hrep|]. split; [reflexivity|].
  exact (apply_twice "/app" emptyDisk body2 batch2 _ eq_refl eq_refl Habs Halias Hrep
           eq_refl).
Defined.

(** A project in which [src/a.txt] is already there. *)
Definition diskWithFile : Disk :=
  mkDisk {[ ["app"; "src"; "a.txt"] := "old" ]} {[ ["app"]; ["app"; "src"] ]}.

(** C6, as stated, fails in three ways, each for a batch that passes
    validation and the path policy.  A target that exists before the first
    run is reported as updated by the first run.  The path [.] resolves to
    the source directory, so its write throws and the first run reports an
    error and nothing created.  Two spellings of one target make the second
    file an update within the first run, under a path that is never reported
    as created. *)
Lemma first_run_not_created_counterexample :
  (ApplyCodeRequestSchema_issues (Some [mkFile "src/a.txt" "hi"]) = []
   /\ isPathSafe "/app" (normalizeFilePath "src/a.txt") = mkCheck true None
   /\ reported (snd (POST posix "/app" diskWithFile
                       (Some (mkBody (Some [mkFile "src/a.txt" "hi"]) None None))))
      = Some (mkResults [] ["src/a.txt"] [] [] []))
  /\ (ApplyCodeRequestSchema_issues (Some [mkFile "." "x"]) = []
      /\ isPathSafe "/app" (normalizeFilePath ".") = mkCheck true None
      /\ reported (snd (POST posix "/app" emptyDisk
                          (Some (mkBody (Some [mkFile "." "x"]) None None))))
         = Some (mkResults [] [] []
                   [".: EISDIR: illegal operation on a directory, open '/app/src'"] []))
  /\ (ApplyCodeRequestSchema_issues (Some [mkFile "a.ts" "x"; mkFile "./a.ts" "y"]) = []
      /\ isPathSafe "/app" (normalizeFilePath "a.ts") = mkCheck true None
      /\ isPathSafe "/app" (normalizeFilePath "./a.ts") = mkCheck true None
      /\ reported (snd (POST posix "/app" emptyDisk
                          (Some (mkBody (Some [mkFile "a.ts" "x"; mkFile "./a.ts" "y"])
                                        None None))))
         = Some (mkResults ["src/a.ts"] ["src/./a.ts"] [] [] [])).
Proof. repeat split; vm_compute; reflexivity. Qed.

(** A file system on which nothing can be created or written. *)
Definition readOnly : FileSystem Disk :=
  mkFileSystem access
    (fun _ abs => Throw ("EACCES: permission denied, mkdir '" +:+ abs +:+ "'"))
    (fun _ abs _ => Throw ("EACCES: permission denied, open '" +:+ abs +:+ "'"))
    readFileAbs.

(** A project whose root directory exists and is empty. *)
Definition emptyProject : Disk := mkDisk ∅ {[ ["app"] ]}.

Example read_only_scenario :
  POST readOnly "/app" emptyProject
    (Some (mkBody (Some [mkFile "README.md" "# demo"; mkFile "src/a.ts" "x"]) None None))
  = (emptyProject,
     mkStream
       [Status "Processing 2 files...";
        FileProgress 1 2 "README.md" "validating";
        FileProgress 1 2 "README.md" "creating";
        FileError "README.md" "EACCES: permission denied, open '/app/README.md'";
        FileProgress 2 2 "src/a.ts" "validating";
        FileProgress 2 2 "src/a.ts" "creating";
        FileError "src/a.ts" "EACCES: permission denied, mkdir '/app/src'";
        Complete "Applied 0 file(s) successfully, 2 error(s)"
          (mkResults [] [] []
             ["README.md: EACCES: permission denied, open '/app/README.md'";
              "src/a.ts: EACCES: permission denied, mkdir '/app/src'"] [])]
       1).
Proof. vm_compute. reflexivity. Qed.

End LoopFacts.

(* ====================================================================== *)
(** * Path policy and schema validation *)
(* ====================================================================== *)

Module PathPolicy.
Import JsString NodePath Regex Fs ApplyRoute StringFacts PathFacts SchemaFacts.

(** C2, as amended.  The traversal check is the first check of
    [isPathSafe] and looks at the normalized path: whenever the normalized
    form of [p] still contains two consecutive dots the verdict is unsafe
    with the traversal reason, whatever the later checks would say.  This is
    the case in particular for every path that starts by climbing out of its
    starting directory. *)
Theorem traversal_checked_after_normalization (projectRoot p : string) :
  includes (normalize p) ".." = true \/ startsWith p "../" = true ->
  isPathSafe projectRoot p = mkCheck false (Some "Path traversal detected").
Proof.
  intros H.
  assert (Hn : includes (normalize p) ".." = true).
  { destruct H as [H|H]; [exact H|].
    destruct (startsWith_split _ _ H) as [rest ->].
    apply startsWith_includes, normalize_climbing. }
  unfold isPathSafe. rewrite Hn. reflexivity.
Qed.

Lemma traversal_checked_after_normalization_witness :
  (includes (normalize "../etc/passwd") ".." = true
   \/ startsWith "../etc/passwd" "../" = true)
  /\ isPathSafe "/app" "../etc/passwd" = mkCheck false (Some "Path traversal detected").
Proof.
  split; [right; reflexivity|].
  apply (traversal_checked_after_normalization "/app" "../etc/passwd").
  right. reflexivity.
Defined.

(** C2, as stated, fails: the path [src/a/../b.ts] has a parent-directory
    segment, normalization resolves it to [src/b.ts], and the classifier
    answers safe. *)
Lemma resolved_parent_segment_counterexample :
  In ".." (splitOn sep "src/a/../b.ts")
  /\ normalize "src/a/../b.ts" = "src/b.ts"
  /\ isPathSafe "/app" "src/a/../b.ts" = mkCheck true None.
Proof. split; [|split]; vm_compute; auto. Qed.

End PathPolicy.

Module Validation.
Import JsString NodePath Regex Fs ApplyRoute StringFacts PathFacts SchemaFacts.

Definition isFileEvent (e : ProgressMessage) : bool :=
  match e with
  | FileProgress _ _ _ _ | FileComplete _ _ | FileError _ _ => true
  | _ => false
  end.

(** The structural defects of a path that the claim lists. *)
Definition malformedPath (p : string) : Prop :=
  p = "" \/ 500 < String.length p \/ includes p ".." = true \/ isAbsolute p = true.

Lemma malformedPath_issue f : malformedPath (path f) -> FileSchema_issues f <> [].
Proof.
  unfold malformedPath, FileSchema_issues. intros [H|[H|[H|H]]].
  - rewrite H. discriminate.
  - apply Nat.ltb_lt in H. rewrite H.
    destruct (Nat.ltb (String.length (path f)) 1); discriminate.
  - rewrite H.
    destruct (Nat.ltb (String.length (path f)) 1), (Nat.ltb 500 (String.length (path f)));
      discriminate.
  - rewrite H.
    destruct (Nat.ltb (String.length (path f)) 1), (Nat.ltb 500 (String.length (path f))),
      (includes (path f) ".."); discriminate.
Qed.

(** C3.  A batch that is empty, larger than 100 files, or that holds a path
    which is empty, longer than 500 units, contains two consecutive dots or
    is absolute, is rejected at the boundary: the stream carries exactly one
    frame, an error frame; the writer is closed; no per-file frame is sent
    and the disk is left as it was. *)
Theorem malformed_batch_rejected {D : Type} (fs : FileSystem D) (projectRoot : string)
    (d : D) (body : Body)
    (files : list FileToApply) :
  requestFiles body = Some files ->
  length files = 0 \/ 100 < length files
  \/ (exists f, In f files /\ malformedPath (path f)) ->
  exists msg,
    frames (snd (POST fs projectRoot d (Some body))) = [Error msg]
    /\ 0 < closeCalls (snd (POST fs projectRoot d (Some body)))
    /\ Forall (fun e => isFileEvent e = false)
              (frames (snd (POST fs projectRoot d (Some body))))
    /\ fst (POST fs projectRoot d (Some body)) = d.
Proof.
  intros Hf H.
  assert (Hi : ApplyCodeRequestSchema_issues (requestFiles body) <> []).
  { rewrite Hf. unfold ApplyCodeRequestSchema_issues. destruct H as [H|[H|[f [Hin H]]]].
    - rewrite H. discriminate.
    - apply Nat.ltb_lt in H. rewrite H. destruct (Nat.ltb (length files) 1); discriminate.
    - pose proof (malformedPath_issue f H) as Hne.
      destruct (FileSchema_issues f) as [|x xs] eqn:E; [congruence|].
      apply (issues_nonempty x). rewrite !in_app_iff. right. right.
      apply in_flat_map. exists f. split; [exact Hin|]. rewrite E. left. reflexivity. }
  rewrite (POST_rejects fs projectRoot d body Hi). cbn [fst snd frames closeCalls].
  eexists. split; [reflexivity|]. split; [lia|]. split; [|reflexivity].
  constructor; [reflexivity|constructor].
Qed.

Lemma malformed_batch_rejected_witness :
  requestFiles (mkBody (Some [mkFile "../etc/passwd" "x"]) None None)
  = Some [mkFile "../etc/passwd" "x"]
  /\ (length [mkFile "../etc/passwd" "x"] = 0 \/ 100 < length [mkFile "../etc/passwd" "x"]
      \/ (exists f, In f [mkFile "../etc/passwd" "x"] /\ malformedPath (path f)))
  /\ exists msg,
      frames (snd (POST posix "/app" emptyDisk
                     (Some (mkBody (Some [mkFile "../etc/passwd" "x"]) None None))))
      = [Error msg]
      /\ 0 < closeCalls (snd (POST posix "/app" emptyDisk
                     (Some (mkBody (Some [mkFile "../etc/passwd" "x"]) None None))))
      /\ Forall (fun e => isFileEvent e = false)
           (frames (snd (POST posix "/app" emptyDisk
                     (Some (mkBody (Some [mkFile "../etc/passwd" "x"]) None None)))))
      /\ fst (POST posix "/app" emptyDisk
                (Some (mkBody (Some [mkFile "../etc/passwd" "x"]) None None)))
         = emptyDisk.
Proof.
  assert (H : length [mkFile "../etc/passwd" "x"] = 0
              \/ 100 < length [mkFile "../etc/passwd" "x"]
              \/ (exists f, In f [mkFile "../etc/passwd" "x"] /\ malformedPath (path f))).
  { right. right. exists (mkFile "../etc/passwd" "x"). split; [left; reflexivity|].
    right. right. left. reflexivity. }
  split; [reflexivity|]. split; [exact H|].
  exact (malformed_batch_rejected posix "/app" emptyDisk
           (mkBody (Some [mkFile "../etc/passwd" "x"]) None None)
           [mkFile "../etc/passwd" "x"] eq_refl H).
Defined.

(** C9, as amended.  The third refinement of the file schema rejects, with
    the message [Invalid path format], every path whose normalized form is
    none of: the path itself, the path behind [./], the path without its
    leading [./].  Every path with two consecutive separators is of that
    kind, and so is every path with an interior [.] segment that does not
    itself start with [./].  The rejection happens at the boundary: one
    error frame whose text holds the message, and an untouched disk. *)
Theorem unnormalized_path_rejected {D : Type} (fs : FileSystem D) (projectRoot : string)
    (d : D) (body : Body)
    (files : list FileToApply) (f : FileToApply) :
  requestFiles body = Some files ->
  In f files ->
  (normalize (path f) <> path f
   /\ normalize (path f) <> "./" +:+ path f
   /\ normalize (path f) <> stripDotSlash (path f))
  \/ includes (path f) "//" = true
  \/ (includes (path f) "/./" = true /\ startsWith (path f) "./" = false) ->
  In "Invalid path format" (FileSchema_issues f)
  /\ exists msg,
      POST fs projectRoot d (Some body) = (d, mkStream [Error msg] 2)
      /\ includes msg "Invalid path format" = true.
Proof.
  intros Hf Hin H.
  assert (Hbad : pathFormatOk (path f) = false).
  { destruct H as [H|[H|[H1 H2]]].
    - apply pathFormatOk_false, H.
    - apply double_slash_bad_format, H.
    - apply dot_segment_bad_format; assumption. }
  assert (Hissue : In "Invalid path format" (FileSchema_issues f))
    by (apply format_issue_iff, Hbad).
  split; [exact Hissue|].
  pose proof (file_issue_in_batch files f _ Hin Hissue) as Hall.
  assert (Hne : ApplyCodeRequestSchema_issues (requestFiles body) <> [])
    by (rewrite Hf; eapply issues_nonempty, Hall).
  rewrite (POST_rejects fs projectRoot d body Hne), Hf.
  eexists. split; [reflexivity|].
  apply includes_app_l, includes_join_member, Hall.
Qed.

Lemma unnormalized_path_rejected_witness :
  requestFiles (mkBody (Some [mkFile "src//a.ts" "x"]) None None)
  = Some [mkFile "src//a.ts" "x"]
  /\ In (mkFile "src//a.ts" "x") [mkFile "src//a.ts" "x"]
  /\ includes "src//a.ts" "//" = true
  /\ In "Invalid path format" (FileSchema_issues (mkFile "src//a.ts" "x"))
  /\ exists msg,
      POST posix "/app" emptyDisk (Some (mkBody (Some [mkFile "src//a.ts" "x"]) None None))
      = (emptyDisk, mkStream [Error msg] 2)
      /\ includes msg "Invalid path format" = true.
Proof.
  split; [reflexivity|]. split; [left; reflexivity|]. split; [reflexivity|].
  exact (unnormalized_path_rejected posix "/app" emptyDisk
           (mkBody (Some [mkFile "src//a.ts" "x"]) None None)
           [mkFile "src//a.ts" "x"] (mkFile "src//a.ts" "x")
           eq_refl (or_introl eq_refl) (or_intror (or_introl eq_refl))).
Defined.

(** C9, as stated, fails on a trailing separator: [path.normalize] keeps
    it, so [src/components/] is its own normalized form and the schema
    raises no issue for it. *)
Lemma trailing_separator_counterexample :
  endsWith "src/components/" "/" = true
  /\ normalize "src/components/" = "src/components/"
  /\ pathFormatOk "src/components/" = true
  /\ FileSchema_issues (mkFile "src/components/" "x") = [].
Proof. repeat split. Qed.

End Validation.

(* ====================================================================== *)
(** * The file-block parser *)
(* ====================================================================== *)

Module ParserFacts.
Import JsString Regex ApplyRoute.

(** The trimmed contents extracted for one path, in extraction order. *)
Definition variants (p : string) (blocks : list (string * string)) : list string :=
  map (fun b => trim (snd b)) (List.filter (fun b => String.eqb (fst b) p) blocks).

(** Everything both grammars extract for a path. *)
Definition extracted (text p : string) : list string :=
  variants p (fileTagBlocks text ++ markdownBlocks text).


(** The value a path holds after one more variant is seen. *)
Definition longer (cur : option string) (v : string) : option string :=
  match cur with
  | None => Some v
  | Some c0 => if Nat.ltb (String.length c0) (String.length v) then Some v else Some c0
  end.

Definition pick (cur : option string) (vs : list string) : option string :=
  fold_left longer vs cur.

Lemma mapGet_mapSet m k v k' :
  mapGet (mapSet m k v) k' = if String.eqb k k' then Some v else mapGet m k'.
Proof.
  induction m as [|[k0 v0] m IH]; simpl.
  - reflexivity.
  - destruct (String.eqb k0 k) eqn:E0; simpl.
    + apply String.eqb_eq in E0. subst k0. destruct (String.eqb k k'); reflexivity.
    + rewrite IH. destruct (String.eqb k0 k') eqn:E1; [|reflexivity].
      apply String.eqb_eq in E1. subst k'.
      rewrite String.eqb_sym, E0. reflexivity.
Qed.

Lemma mapGet_keepLongest m p c p' :
  mapGet (keepLongest m p c) p'
  = if String.eqb p p' then longer (mapGet m p) c else mapGet m p'.
Proof.
  unfold keepLongest, mapHas, longer.
  destruct (mapGet m p) as [c0|] eqn:E; simpl.
  - destruct (Nat.ltb (String.length c0) (String.length c)).
    + apply mapGet_mapSet.
    + destruct (String.eqb p p') eqn:Ep; [|reflexivity].
      apply String.eqb_eq in Ep. subst p'. exact E.
  - apply mapGet_mapSet.
Qed.

Lemma mapGet_mergeBlocks bs : forall m p,
  mapGet (mergeBlocks m bs) p = pick (mapGet m p) (variants p bs).
Proof.
  induction bs as [|b bs IH]; intros m p; [reflexivity|].
  unfold mergeBlocks, variants in *. cbn [fold_left List.filter].
  rewrite IH, mapGet_keepLongest.
  destruct (String.eqb (fst b) p) eqn:E; [|reflexivity].
  apply String.eqb_eq in E. rewrite E. reflexivity.
Qed.



Lemma pick_max vs : forall cur c,
  pick cur vs = Some c ->
  (cur = Some c \/ In c vs)
  /\ (forall v, In v vs -> String.length v <= String.length c)
  /\ (forall c0, cur = Some c0 -> String.length c0 <= String.length c).
Proof.
  induction vs as [|v vs IH]; intros cur c H.
  - simpl in H. subst cur. split; [left; reflexivity|].
    split; [intros ? []|]. intros c0 E. inversion E. lia.
  - change (pick cur (v :: vs)) with (pick (longer cur v) vs) in H.
    destruct (IH _ _ H) as (H1 & H2 & H3).
    assert (Hv : String.length v <= String.length c).
    { destruct cur as [c0|]; simpl in H3.
      - destruct (Nat.ltb (String.length c0) (String.length v)) eqn:E.
        + apply (H3 v eq_refl).
        + apply Nat.ltb_ge in E. specialize (H3 c0 eq_refl). lia.
      - apply (H3 v eq_refl). }
    split; [|split].
    + destruct H1 as [H1|H1]; [|right; right; exact H1].
      destruct cur as [c0|]; simpl in H1.
      * destruct (Nat.ltb (String.length c0) (String.length v)); inversion H1; subst.
        -- right. left. reflexivity.
        -- left. reflexivity.
      * inversion H1. right. left. reflexivity.
    + intros w [<-|Hw]; [exact Hv|apply H2, Hw].
    + intros c0 ->. simpl in H3.
      destruct (Nat.ltb (String.length c0) (String.length v)) eqn:E.
      * apply Nat.ltb_lt in E. specialize (H3 v eq_refl). lia.
      * apply (H3 c0 eq_refl).
Qed.

(** Keys of the map stay distinct. *)
Lemma mapSet_keys m k v :
  map fst (mapSet m k v) = if mapHas m k then map fst m else map fst m ++ [k].
Proof.
  unfold mapHas. induction m as [|[k0 v0] m IH]; simpl; [reflexivity|].
  destruct (String.eqb k0 k) eqn:E; simpl.
  - apply String.eqb_eq in E. subst. reflexivity.
  - rewrite IH. destruct (mapGet m k); reflexivity.
Qed.

Lemma mapGet_None_keys m k : mapGet m k = None -> ~ In k (map fst m).
Proof.
  induction m as [|[k0 v0] m IH]; simpl; [tauto|].
  destruct (String.eqb k0 k) eqn:E; [discriminate|].
  apply String.eqb_neq in E. intros H [H1|H1]; [congruence|]. exact (IH H H1).
Qed.

Lemma NoDup_snoc (l : list string) (x : string) :
  List.NoDup l -> ~ In x l -> List.NoDup (l ++ [x]).
Proof.
  induction l as [|y l IH]; intros Hnd Hx; simpl.
  - constructor; [intros []|constructor].
  - inversion Hnd; subst. constructor.
    + rewrite in_app_iff. intros [H|[H|[]]]; [contradiction|].
      subst. apply Hx. left. reflexivity.
    + apply IH; [assumption|]. intros H. apply Hx. right. exact H.
Qed.

Lemma keepLongest_keys m p c :
  List.NoDup (map fst m) -> List.NoDup (map fst (keepLongest m p c)).
Proof.
  intros H. unfold keepLongest.
  destruct (negb (mapHas m p) || _); [|exact H].
  rewrite mapSet_keys. unfold mapHas. destruct (mapGet m p) eqn:E; [exact H|].
  apply NoDup_snoc; [exact H|]. apply mapGet_None_keys, E.
Qed.

Lemma mergeBlocks_keys bs : forall m,
  List.NoDup (map fst m) -> List.NoDup (map fst (mergeBlocks m bs)).
Proof.
  induction bs as [|b bs IH]; intros m H; [exact H|].
  unfold mergeBlocks in *. cbn [fold_left]. apply IH, keepLongest_keys, H.
Qed.

Lemma In_mapGet m p c :
  List.NoDup (map fst m) -> (In (p, c) m <-> mapGet m p = Some c).
Proof.
  induction m as [|[k0 v0] m IH]; simpl; intros Hnd.
  - split; [intros []|discriminate].
  - inversion Hnd as [|? ? Hk Hm]; subst.
    destruct (String.eqb k0 p) eqn:E.
    + apply String.eqb_eq in E. subst k0. split.
      * intros [H|H]; [congruence|]. exfalso. apply Hk.
        change p with (fst (p, c)). apply in_map, H.
      * intros H. left. congruence.
    + apply String.eqb_neq in E. rewrite <- (IH Hm). split.
      * intros [H|H]; [congruence|exact H].
      * intros H. right. exact H.
Qed.

Lemma In_files m p c :
  In (mkFile p c) (map (fun e => mkFile (fst e) (snd e)) m) <-> In (p, c) m.
Proof.
  rewrite in_map_iff. split.
  - intros [[k v] [E H]]. simpl in E. inversion E; subst. exact H.
  - intros H. exists (p, c). split; [reflexivity|exact H].
Qed.


(** Both evaluation orders, as one pass over the concatenated matches. *)
Lemma parse_lookup text p c :
  In (mkFile p c) (parseAIGeneratedCode text)
  <-> pick None (variants p (fileTagBlocks text ++ markdownBlocks text)) = Some c.
Proof.
  unfold parseAIGeneratedCode. cbv zeta. rewrite In_files.
  change (mergeBlocks (mergeBlocks [] (fileTagBlocks text)) (markdownBlocks text))
    with (fold_left (fun m b => keepLongest m (fst b) (trim (snd b)))
            (markdownBlocks text)
            (fold_left (fun m b => keepLongest m (fst b) (trim (snd b)))
               (fileTagBlocks text) [])).
  rewrite <- fold_left_app.
  fold (mergeBlocks [] (fileTagBlocks text ++ markdownBlocks text)).
  rewrite In_mapGet by (apply mergeBlocks_keys; constructor).
  rewrite mapGet_mergeBlocks. reflexivity.
Qed.






(** A text in which both grammars give three units for the same path. *)
Definition text_tie : string :=
  "<file path=" +:+ Q +:+ "a.ts" +:+ Q +:+ ">xyz</file>" +:+ LF
  +:+ "```ts path=" +:+ Q +:+ "a.ts" +:+ Q +:+ LF +:+ "abc" +:+ LF +:+ "```".


(** Whatever is kept for a path is one of its variants, and none is longer. *)
Theorem kept_variant_is_longest (text p c : string) :
  In (mkFile p c) (parseAIGeneratedCode text) ->
  In c (extracted text p)
  /\ forall v, In v (extracted text p) -> String.length v <= String.length c.
Proof.
  rewrite parse_lookup. intros H. destruct (pick_max _ _ _ H) as ([H1|H1] & H2 & _).
  - discriminate.
  - split; assumption.
Qed.

Lemma kept_variant_is_longest_witness :
  In (mkFile "a.ts" "xyz") (parseAIGeneratedCode text_tie)
  /\ In "xyz" (extracted text_tie "a.ts")
  /\ forall v, In v (extracted text_tie "a.ts") -> String.length v <= String.length "xyz".
Proof.
  assert (H : In (mkFile "a.ts" "xyz") (parseAIGeneratedCode text_tie))
    by (left; reflexivity).
  split; [exact H|]. exact (kept_variant_is_longest text_tie "a.ts" "xyz" H).
Defined.

(** The scenarios of the specification. *)
Example tagged_round_trip :
  parseAIGeneratedCode ("<file path=" +:+ Q +:+ "a/b.ts" +:+ Q +:+ ">X</file>")
  = [mkFile "a/b.ts" "X"].
Proof. reflexivity. Qed.

Example prose_then_block :
  parseAIGeneratedCode
    ("Here is the code." +:+ LF +:+ "<file path=" +:+ Q +:+ "src/x.ts" +:+ Q
     +:+ ">const a=1;</file>")
  = [mkFile "src/x.ts" "const a=1;"].
Proof. reflexivity. Qed.

End ParserFacts.

(* ====================================================================== *)
(** * Package inference *)
(* ====================================================================== *)

Module PackageFacts.
Import JsString NodePath Regex ApplyRoute GenerateRoute.

Lemma arrIncludes_In arr x : arrIncludes arr x = true <-> In x arr.
Proof.
  unfold arrIncludes. rewrite existsb_exists. split.
  - intros [y [Hy E]]. apply String.eqb_eq in E. subst. exact Hy.
  - intros H. exists x. split; [exact H|apply String.eqb_refl].
Qed.

Lemma setAdd_In s x n : In n (setAdd s x) <-> In n s \/ n = x.
Proof.
  unfold setAdd. destruct (arrIncludes s x) eqn:E.
  - apply arrIncludes_In in E. split; [tauto|]. intros [H| ->]; assumption.
  - rewrite in_app_iff. simpl. split.
    + intros [H|[H|[]]]; [left; exact H|right; congruence].
    + intros [H| ->]; [left; exact H|right; left; reflexivity].
Qed.

Lemma setAdd_NoDup s x : List.NoDup s -> List.NoDup (setAdd s x).
Proof.
  intros H. unfold setAdd. destruct (arrIncludes s x) eqn:E; [exact H|].
  apply ParserFacts.NoDup_snoc; [exact H|].
  intros Hin. apply arrIncludes_In in Hin. congruence.
Qed.

(** One file's worth of the loop in [extractPackages]. *)
Definition addImports (packages : list string) (specs : list string) : list string :=
  fold_left
    (fun packages importPath =>
       if applySkips importPath then packages
       else setAdd packages (packageNameOf importPath))
    specs packages.

Lemma addImports_In specs : forall acc n,
  In n (addImports acc specs)
  <-> In n acc \/ exists s, In s specs /\ applySkips s = false /\ n = packageNameOf s.
Proof.
  induction specs as [|s specs IH]; intros acc n; unfold addImports in *; cbn [fold_left].
  - split; [auto|]. intros [H|[s [[] _]]]. exact H.
  - rewrite IH. destruct (applySkips s) eqn:E.
    + split.
      * intros [H|[t [Ht H]]]; [auto|]. right. exists t. split; [right; exact Ht|exact H].
      * intros [H|[t [[->|Ht] [H1 H2]]]]; [auto|congruence|]. right. exists t. auto.
    + rewrite setAdd_In. split.
      * intros [[H|H]|[t [Ht H]]]; [auto| |].
        -- right. exists s. split; [left; reflexivity|]. split; assumption.
        -- right. exists t. split; [right; exact Ht|exact H].
      * intros [H|[t [[->|Ht] [H1 H2]]]]; [auto| |].
        -- left. right. exact H2.
        -- right. exists t. auto.
Qed.

Lemma addImports_NoDup specs : forall acc,
  List.NoDup acc -> List.NoDup (addImports acc specs).
Proof.
  induction specs as [|s specs IH]; intros acc H; unfold addImports in *; cbn [fold_left].
  - exact H.
  - apply IH. destruct (applySkips s); [exact H|apply setAdd_NoDup, H].
Qed.

Lemma extractPackages_from files : forall acc n,
  In n (fold_left (fun packages file => addImports packages (importSpecifiers (content file)))
          files acc)
  <-> In n acc
      \/ exists f s, In f files /\ In s (importSpecifiers (content f))
                     /\ applySkips s = false /\ n = packageNameOf s.
Proof.
  induction files as [|f files IH]; intros acc n; cbn [fold_left].
  - split; [auto|]. intros [H|[f [s [[] _]]]]. exact H.
  - rewrite IH, addImports_In. split.
    + intros [[H|[s H]]|[g [s [Hg H]]]]; [auto| |].
      * right. exists f, s. split; [left; reflexivity|exact H].
      * right. exists g, s. split; [right; exact Hg|exact H].
    + intros [H|[g [s [[->|Hg] H]]]]; [auto| |].
      * left. right. exists s. exact H.
      * right. exists g, s. split; assumption.
Qed.

(** The apply route: a name is inferred exactly when it is the package of
    some quoted specifier that is not relative, not absolute, not under the
    local alias and not one of the three framework names. *)
Theorem extractPackages_sound_complete (files : list FileToApply) (n : string) :
  In n (extractPackages files)
  <-> exists f s, In f files /\ In s (importSpecifiers (content f))
                  /\ startsWith s "." = false /\ startsWith s "/" = false
                  /\ startsWith s "@/" = false
                  /\ ~ In s ["react"; "react-dom"; "next"]
                  /\ n = packageNameOf s.
Proof.
  unfold extractPackages.
  change (In n (fold_left
                  (fun packages file => addImports packages (importSpecifiers (content file)))
                  files [])
          <-> exists f s, In f files /\ In s (importSpecifiers (content f))
                  /\ startsWith s "." = false /\ startsWith s "/" = false
                  /\ startsWith s "@/" = false
                  /\ ~ In s ["react"; "react-dom"; "next"]
                  /\ n = packageNameOf s).
  rewrite extractPackages_from.
  assert (Hskip : forall s, applySkips s = false
            <-> startsWith s "." = false /\ startsWith s "/" = false
                /\ startsWith s "@/" = false /\ ~ In s ["react"; "react-dom"; "next"]).
  { intros s. unfold applySkips. rewrite !orb_false_iff.
    rewrite <- (arrIncludes_In ["react"; "react-dom"; "next"] s).
    destruct (arrIncludes ["react"; "react-dom"; "next"] s); intuition congruence. }
  split.
  - intros [[]|[f [s (Hf & Hs & Hk & Hn)]]]. apply Hskip in Hk.
    exists f, s. tauto.
  - intros [f [s (Hf & Hs & H1 & H2 & H3 & H4 & Hn)]]. right.
    exists f, s. split; [exact Hf|]. split; [exact Hs|]. split; [|exact Hn].
    apply Hskip. tauto.
Qed.

(** The inferred list has no repeated name. *)
Theorem extractPackages_NoDup (files : list FileToApply) :
  List.NoDup (extractPackages files).
Proof.
  unfold extractPackages.
  change (List.NoDup (fold_left
            (fun packages file => addImports packages (importSpecifiers (content file)))
            files [])).
  assert (H : forall acc, List.NoDup acc ->
            List.NoDup (fold_left
              (fun packages file => addImports packages (importSpecifiers (content file)))
              files acc)).
  { induction files as [|f files IH]; intros acc H; cbn [fold_left]; [exact H|].
    apply IH, addImports_NoDup, H. }
  apply H. constructor.
Qed.

(** A layout file with a side-effect import through the local alias. *)
Definition layoutText : string :=
  "<file path=" +:+ Q +:+ "app/layout.tsx" +:+ Q
  +:+ ">import '@/styles/globals.css';</file>".

(** C8: the generation route does not skip the local alias.  From the same
    file the apply route infers nothing, while the generation route reports
    [@/styles] as a package to install. *)
Theorem generation_route_keeps_local_alias :
  parseFiles layoutText = [mkGenerated "app/layout.tsx" "import '@/styles/globals.css';"]
  /\ detectPackages (parseFiles layoutText) = ["@/styles"]
  /\ extractPackages (parseAIGeneratedCode layoutText) = [].
Proof. repeat split. Qed.

Example scoped_and_plain :
  extractPackages
    [mkFile "a.ts" "import '@radix-ui/react-dialog/dist/x'; require('lodash/fp'); import 'react'; import './x'"]
  = ["@radix-ui/react-dialog"; "lodash"].
Proof. reflexivity. Qed.

End PackageFacts.

(* ====================================================================== *)
(** * Provider selection *)
(* ====================================================================== *)

Module ProviderFacts.
Import JsString GenerateRoute Fs PackageFacts.











Definition onlyGoogle : Env := mkEnv (Some "key-1") None.

Definition onlyGroq : Env := mkEnv None (Some "key-2").

(** A request for a Groq model that names no provider. *)
Definition groqModelRequest : Request :=
  mkRequest (Some "build a page") (Some "llama-3.3-70b") None.


Example failover_by_model :
  POST onlyGoogle groqModelRequest
  = EventStream (Some "google") (Some "llama-3.3-70b-versatile").
Proof. reflexivity. Qed.

(** An explicit provider name that objects inherit passes the check of
    the provider table, and a model name that objects inherit is taken for
    a key of the model table. *)
Example inherited_names :
  POST onlyGroq (mkRequest (Some "hi") None (Some "constructor"))
  = EventStream (Some "constructor") (Some "gemini-2.0-flash-exp")
  /\ POST onlyGroq (mkRequest (Some "hi") (Some "toString") None)
     = Json 500 false "Selected provider 'undefined' is not configured"
  /\ POST onlyGoogle (mkRequest (Some "hi") (Some "toString") None)
     = EventStream (Some "google") None.
Proof. repeat split. Qed.


End ProviderFacts.

(* ====================================================================== *)
(** * The run-command route *)
(* ====================================================================== *)

Module RunCommandFacts.
Import JsString Regex Fs RunCommand.


(** A sandbox in which every command fails with exit code 2. *)
Definition failingSandbox : Sandbox :=
  fun cmd args => Ok (mkCommandResult (Ok "") (Ok "not found") 2).


Example failed_command_is_success :
  POST (Some failingSandbox) (JsonBody (Some "npm run build"))
  = mkResponse 200
      (Executed ("ERROR:" +:+ LF +:+ "not found" +:+ LF +:+ LF
                 +:+ "Process finished with exit code: 2")
                2 "Command failed").
Proof. reflexivity. Qed.

Example tokens : splitWhitespace false (trim "  npm   install  left-pad ")
                 = ["npm"; "install"; "left-pad"].
Proof. reflexivity. Qed.

End RunCommandFacts.

(* ====================================================================== *)
(** * More on the file-block parser *)
(* ====================================================================== *)

Module ParserShape.
Import JsString Regex ApplyRoute StringFacts ParserFacts PackageFacts.

(** ** Trimming *)

Lemma trimEnd_head a s :
  is_space a = false -> exists t, trimEnd (String a s) = String a t.
Proof.
  intros Ha. cbn [trimEnd]. destruct (trimEnd s); [rewrite Ha|]; eauto.
Qed.

Lemma trimEnd_idem s : trimEnd (trimEnd s) = trimEnd s.
Proof.
  induction s as [|a s IH]; [reflexivity|]. cbn [trimEnd].
  destruct (trimEnd s) as [|b t] eqn:E.
  - destruct (is_space a) eqn:Ha; [reflexivity|]. cbn [trimEnd]. rewrite Ha. reflexivity.
  - change (trimEnd (String a (String b t)))
      with (match trimEnd (String b t) with
            | EmptyString => if is_space a then EmptyString else String a EmptyString
            | u => String a u
            end).
    rewrite IH. reflexivity.
Qed.

Lemma dropWhile_head s :
  dropWhile is_space s = ""
  \/ exists a t, dropWhile is_space s = String a t /\ is_space a = false.
Proof.
  induction s as [|a s IH]; [left; reflexivity|]. cbn [dropWhile].
  destruct (is_space a) eqn:Ha; [exact IH|]. right. eauto.
Qed.

Lemma trim_idem s : trim (trim s) = trim s.
Proof.
  unfold trim. destruct (dropWhile_head s) as [->|(a & t & -> & Ha)]; [reflexivity|].
  destruct (trimEnd_head a t Ha) as [u E]. rewrite E.
  cbn [dropWhile]. rewrite Ha, <- E. apply trimEnd_idem.
Qed.

(** ** What a scan returns *)

Lemma scanFrom_In {A} (matchAt : string -> option (A * nat)) (a : A) s : forall skip,
  In a (scanFrom matchAt skip s) -> exists suffix len, matchAt suffix = Some (a, len).
Proof.
  induction s as [|c s IH]; intros skip H; [contradiction|].
  cbn [scanFrom] in H. destruct skip as [|k]; [|eapply IH, H].
  destruct (matchAt (String c s)) as [[b len]|] eqn:E; [|eapply IH, H].
  destruct H as [<-|H]; [eauto|eapply IH, H].
Qed.

Lemma scanFrom_none {A} (matchAt : string -> option (A * nat)) s :
  (forall suffix, matchAt suffix <> None -> False) -> forall skip, scanFrom matchAt skip s = [].
Proof.
  intros Hn. induction s as [|c s IH]; intros skip; [reflexivity|].
  cbn [scanFrom]. destruct skip; [|apply IH].
  destruct (matchAt (String c s)) eqn:E; [|apply IH].
  exfalso. apply (Hn (String c s)). congruence.
Qed.

Lemma scanFrom_unmarked {A} (matchAt : string -> option (A * nat)) (marker : string) s :
  (forall t, startsWith t marker = false -> matchAt t = None) ->
  includes s marker = false -> forall skip, scanFrom matchAt skip s = [].
Proof.
  intros Hm. induction s as [|c s IH]; intros Hs skip; [reflexivity|].
  rewrite includes_cons in Hs. apply orb_false_iff in Hs as [H1 H2].
  cbn [scanFrom]. destruct skip; [|apply IH, H2].
  rewrite (Hm _ H1). apply IH, H2.
Qed.

Lemma takeWhile_notDquote s : includes (takeWhile notDquote s) Q = false.
Proof.
  induction s as [|a s IH]; [reflexivity|]. cbn [takeWhile].
  destruct (notDquote a) eqn:Ha; [|reflexivity].
  unfold Q in *. rewrite includes_cons, startsWith_cons, IH.
  unfold notDquote in Ha. apply negb_true_iff in Ha. rewrite Ha. reflexivity.
Qed.

Lemma length_nonzero s : Nat.eqb (String.length s) 0 = false -> s <> "".
Proof. intros H ->. discriminate. Qed.

(** A captured path: not empty, no double quote. *)
Definition pathCaptured (p : string) : Prop := p <> "" /\ includes p Q = false.

Lemma fileTag_path lax s p body len :
  matchFileTagAt lax s = Some ((p, body), len) -> pathCaptured p.
Proof.
  unfold matchFileTagAt.
  destruct (startsWith s "<file"); [|discriminate]. cbv zeta.
  destruct (Nat.eqb _ 0); [discriminate|].
  destruct (startsWith _ ("path=" +:+ Q)); [|discriminate].
  destruct (Nat.eqb (String.length (takeWhile notDquote _)) 0) eqn:El; [discriminate|].
  destruct (startsWith _ (Q +:+ ">")); [|discriminate].
  destruct (indexOf _ "</file>"); [|discriminate].
  intros H. inversion H; subst. split; [apply length_nonzero, El|apply takeWhile_notDquote].
Qed.

Lemma mdTail_path o consumed s p body len :
  mdTail o consumed s = Some ((Some p, body), len) -> o = Some p.
Proof.
  unfold mdTail. destruct (startsWith s LF); [|discriminate].
  destruct (indexOf _ fence); [|discriminate]. intros H. inversion H. reflexivity.
Qed.

Lemma mdAttr_path consumed s p body len :
  mdAttr consumed s = Some ((Some p, body), len) -> pathCaptured p.
Proof.
  unfold mdAttr.
  destruct (startsWith s ("path=" +:+ Q)).
  - cbv zeta.
    destruct (Nat.eqb (String.length (takeWhile notDquote (sliceFrom 6 s))) 0) eqn:El.
    + intros H. apply mdTail_path in H. discriminate.
    + destruct (startsWith _ Q).
      * destruct (mdTail (Some _) _ _) as [r|] eqn:E.
        -- intros H. inversion H; subst r. apply mdTail_path in E. inversion E; subst p.
           split; [apply length_nonzero, El|apply takeWhile_notDquote].
        -- intros H. apply mdTail_path in H. discriminate.
      * intros H. apply mdTail_path in H. discriminate.
  - intros H. apply mdTail_path in H. discriminate.
Qed.

Lemma firstSome_In {A B} (f : A -> option B) l b :
  firstSome f l = Some b -> exists a, In a l /\ f a = Some b.
Proof.
  induction l as [|a l IH]; [discriminate|]. cbn [firstSome fold_right].
  destruct (f a) eqn:E.
  - intros H. inversion H; subst. exists a. split; [left; reflexivity|exact E].
  - intros H. destruct (IH H) as [a' [Hin Ha]]. exists a'. split; [right; exact Hin|exact Ha].
Qed.

Lemma markdown_path s p body len :
  matchMarkdownAt s = Some ((Some p, body), len) -> pathCaptured p.
Proof.
  unfold matchMarkdownAt. destruct (startsWith s fence); [|discriminate]. cbv zeta.
  intros H. apply firstSome_In in H as [k [_ H]].
  apply firstSome_In in H as [j [_ H]]. eapply mdAttr_path, H.
Qed.

Lemma fileTagBlocks_path text p c : In (p, c) (fileTagBlocks text) -> pathCaptured p.
Proof.
  intros H. apply scanFrom_In in H as (s & len & H). eapply fileTag_path, H.
Qed.

Lemma markdownBlocks_path text p c : In (p, c) (markdownBlocks text) -> pathCaptured p.
Proof.
  unfold markdownBlocks. intros H. apply in_flat_map in H as [[o body] [Hm H]].
  cbn [fst snd] in H. destruct o as [q|]; [|contradiction].
  destruct H as [H|[]]. inversion H; subst.
  apply scanFrom_In in Hm as (s & len & Hm). eapply markdown_path, Hm.
Qed.

(** ** The keys of the map *)

(** Paths in the order of their first appearance, as a [Set] or the keys of
    a [Map] keep them. *)
Definition firstAppearance (l : list string) : list string := fold_left setAdd l [].

Lemma keepLongest_fst m p c : map fst (keepLongest m p c) = setAdd (map fst m) p.
Proof.
  unfold keepLongest, setAdd.
  assert (E : arrIncludes (map fst m) p = mapHas m p).
  { unfold mapHas. induction m as [|[k v] m IH]; [reflexivity|].
    cbn [map fst arrIncludes existsb mapGet]. rewrite String.eqb_sym.
    destruct (String.eqb k p); [reflexivity|exact IH]. }
  rewrite E.
  destruct (negb (mapHas m p) || _) eqn:Hc.
  - apply mapSet_keys.
  - apply orb_false_iff in Hc as [Hc _]. apply negb_false_iff in Hc. rewrite Hc. reflexivity.
Qed.

Lemma mergeBlocks_fst bs : forall m,
  map fst (mergeBlocks m bs) = fold_left setAdd (map fst bs) (map fst m).
Proof.
  induction bs as [|b bs IH]; intros m; [reflexivity|].
  unfold mergeBlocks in *. cbn [fold_left map]. rewrite IH, keepLongest_fst. reflexivity.
Qed.

Lemma parse_paths text :
  map path (parseAIGeneratedCode text)
  = firstAppearance (map fst (fileTagBlocks text ++ markdownBlocks text)).
Proof.
  unfold parseAIGeneratedCode, firstAppearance. cbv zeta.
  rewrite map_map. cbn [path].
  change (map (fun x : string * string => fst x)) with (@map (string * string) _ fst).
  rewrite !mergeBlocks_fst, map_app, fold_left_app. reflexivity.
Qed.

Lemma fold_setAdd_In l : forall acc x, In x (fold_left setAdd l acc) <-> In x acc \/ In x l.
Proof.
  induction l as [|y l IH]; intros acc x; cbn [fold_left].
  - simpl. tauto.
  - rewrite IH, setAdd_In. simpl. intuition congruence.
Qed.

Lemma fold_setAdd_NoDup l : forall acc, List.NoDup acc -> List.NoDup (fold_left setAdd l acc).
Proof.
  induction l as [|y l IH]; intros acc H; cbn [fold_left]; [exact H|].
  apply IH, setAdd_NoDup, H.
Qed.

(** The parser returns each path once, and the paths it returns are those
    of the blocks either expression matches. *)
Theorem parsed_paths_distinct (text : string) :
  List.NoDup (map path (parseAIGeneratedCode text))
  /\ forall p, In p (map path (parseAIGeneratedCode text))
               <-> In p (map fst (fileTagBlocks text ++ markdownBlocks text)).
Proof.
  rewrite parse_paths. split.
  - apply fold_setAdd_NoDup. constructor.
  - intros p. unfold firstAppearance. rewrite fold_setAdd_In. simpl. tauto.
Qed.

(** The files come out in the order in which their paths first appear
    among the matches, those of the tagged expression before those of the
    fenced one. *)
Theorem parsed_paths_in_order_of_appearance (text : string) :
  map path (parseAIGeneratedCode text)
  = firstAppearance (map fst (fileTagBlocks text ++ markdownBlocks text)).
Proof. apply parse_paths. Qed.

(** Every file the parser returns has a path that is not empty and holds
    no double quote, and a content that trimming leaves as it is. *)
Theorem parsed_files_well_formed (text : string) (f : FileToApply) :
  In f (parseAIGeneratedCode text) ->
  path f <> "" /\ includes (path f) Q = false /\ trim (content f) = content f.
Proof.
  intros Hin. destruct f as [p c]. cbn [path content].
  assert (Hp : pathCaptured p).
  { assert (H : In p (map path (parseAIGeneratedCode text)))
      by (change p with (path (mkFile p c)); apply in_map, Hin).
    rewrite parse_paths in H. unfold firstAppearance in H.
    apply fold_setAdd_In in H as [[]|H].
    apply in_map_iff in H as [[q c'] [E H]]. cbn [fst] in E. subst q.
    apply in_app_iff in H as [H|H];
      [eapply fileTagBlocks_path, H|eapply markdownBlocks_path, H]. }
  destruct Hp as [Hp1 Hp2]. split; [exact Hp1|]. split; [exact Hp2|].
  apply parse_lookup in Hin. destruct (pick_max _ _ _ Hin) as ([H|H] & _); [discriminate|].
  unfold variants in H. apply in_map_iff in H as [b [<- _]]. apply trim_idem.
Qed.

Lemma parsed_files_well_formed_witness :
  In (mkFile "a.ts" "xyz") (parseAIGeneratedCode text_tie)
  /\ path (mkFile "a.ts" "xyz") <> ""
  /\ includes (path (mkFile "a.ts" "xyz")) Q = false
  /\ trim (content (mkFile "a.ts" "xyz")) = content (mkFile "a.ts" "xyz").
Proof.
  assert (H : In (mkFile "a.ts" "xyz") (parseAIGeneratedCode text_tie))
    by (left; reflexivity).
  split; [exact H|]. exact (parsed_files_well_formed text_tie (mkFile "a.ts" "xyz") H).
Defined.

(** A text that holds neither the opening of a tag nor a fence yields no
    file; sent as [generatedCode] without [files], it is turned down at the
    boundary for want of a file. *)
Theorem unmarked_text_yields_no_file {D : Type} (fs : Fs.FileSystem D) (projectRoot : string)
    (d : D) (text : string) (packages : option (list string)) :
  includes text "<file" = false ->
  includes text fence = false ->
  parseAIGeneratedCode text = []
  /\ (text <> "" ->
      POST fs projectRoot d (Some (mkBody None (Some text) packages))
      = (d, mkStream [Error "Validation failed: At least one file is required"] 2)).
Proof.
  intros Ht Hf.
  assert (E : parseAIGeneratedCode text = []).
  { unfold parseAIGeneratedCode, fileTagBlocks, markdownBlocks, matchAll.
    rewrite (scanFrom_unmarked (matchFileTagAt true) "<file" text); [|
      intros t H; unfold matchFileTagAt; rewrite H; reflexivity | exact Ht].
    rewrite (scanFrom_unmarked matchMarkdownAt fence text); [|
      intros t H; unfold matchMarkdownAt; rewrite H; reflexivity | exact Hf].
    reflexivity. }
  split; [exact E|]. intros Hne. destruct text as [|c text]; [congruence|].
  unfold POST, requestFiles. cbn [body_generatedCode body_files]. rewrite E. reflexivity.
Qed.

Lemma unmarked_text_yields_no_file_witness :
  includes "just prose" "<file" = false
  /\ includes "just prose" fence = false
  /\ parseAIGeneratedCode "just prose" = []
  /\ ("just prose" <> "" ->
      POST Fs.posix "/app" Fs.emptyDisk (Some (mkBody None (Some "just prose") None))
      = (Fs.emptyDisk,
         mkStream [Error "Validation failed: At least one file is required"] 2)).
Proof.
  split; [reflexivity|]. split; [reflexivity|].
  exact (unmarked_text_yields_no_file Fs.posix "/app" Fs.emptyDisk "just prose" None
           eq_refl eq_refl).
Defined.

End ParserShape.

(* ====================================================================== *)
(** * Where the apply route writes *)
(* ====================================================================== *)

Module TargetFacts.
Import JsString NodePath Regex Fs ApplyRoute StringFacts PathFacts SchemaFacts.

(** ** Splitting and joining *)

Lemma splitOn_nonempty c s : splitOn c s <> [].
Proof.
  destruct s as [|a s]; [discriminate|]. cbn [splitOn].
  destruct (Ascii.eqb a c); [discriminate|]. destruct (splitOn c s); discriminate.
Qed.

Lemma splitOn_app c a b : splitOn c (a +:+ String c b) = splitOn c a ++ splitOn c b.
Proof.
  induction a as [|x a IH].
  - rewrite sapp_empty_l. cbn [splitOn]. rewrite Ascii.eqb_refl. reflexivity.
  - rewrite sapp_String. cbn [splitOn]. rewrite IH.
    destruct (Ascii.eqb x c); [reflexivity|].
    pose proof (splitOn_nonempty c a) as Hne.
    destruct (splitOn c a); [congruence|reflexivity].
Qed.

Lemma splitOn_noSlash_id s : noSlash s = true -> splitOn sep s = [s].
Proof.
  induction s as [|a s IH]; [reflexivity|]. cbn [noSlash splitOn]. intros H.
  apply andb_true_iff in H as [Ha Hs]. apply negb_true_iff in Ha.
  rewrite Ha, (IH Hs). reflexivity.
Qed.

Lemma splitOn_join l :
  l <> [] -> Forall (fun s => noSlash s = true) l -> splitOn sep (join "/" l) = l.
Proof.
  induction l as [|x l IH]; [congruence|]. intros _ H. inversion H as [|? ? Hx Hl]; subst.
  destruct l as [|y l]; [apply splitOn_noSlash_id, Hx|].
  rewrite join_cons2. change ("/" +:+ join "/" (y :: l)) with (String sep (join "/" (y :: l))).
  rewrite splitOn_app, (splitOn_noSlash_id _ Hx), IH by (congruence || assumption).
  reflexivity.
Qed.

(** ** [normalizeFilePath] *)

Definition isSlash (c : ascii) : bool := Ascii.eqb c sep.

Lemma dropWhile_idem f s : dropWhile f (dropWhile f s) = dropWhile f s.
Proof.
  induction s as [|a s IH]; [reflexivity|]. cbn [dropWhile].
  destruct (f a) eqn:Ha; [exact IH|]. cbn [dropWhile]. rewrite Ha. reflexivity.
Qed.

Lemma dropWhile_relative s : isAbsolute (dropWhile isSlash s) = false.
Proof.
  induction s as [|a s IH]; [reflexivity|]. cbn [dropWhile].
  destruct (isSlash a) eqn:Ha; [exact IH|]. exact Ha.
Qed.

Lemma normalizeFilePath_cases p :
  normalizeFilePath p = "src/" +:+ dropWhile isSlash p
  \/ (normalizeFilePath p = dropWhile isSlash p
      /\ (startsWith (dropWhile isSlash p) "src/"
          || startsWith (dropWhile isSlash p) "public/"
          || startsWith (dropWhile isSlash p) "app/"
          || startsWith (dropWhile isSlash p) "pages/"
          || startsWith (dropWhile isSlash p) "components/"
          || startsWith (dropWhile isSlash p) "lib/"
          || startsWith (dropWhile isSlash p) "styles/"
          || startsWith (dropWhile isSlash p) "utils/"
          || arrIncludes configFiles (basename (dropWhile isSlash p))) = true).
Proof.
  unfold normalizeFilePath. cbv zeta. fold isSlash.
  set (x := dropWhile isSlash p).
  destruct (startsWith x "src/" || startsWith x "public/" || startsWith x "app/"
            || startsWith x "pages/" || startsWith x "components/" || startsWith x "lib/"
            || startsWith x "styles/" || startsWith x "utils/"
            || arrIncludes configFiles (basename x)) eqn:E.
  - right. split; [reflexivity|reflexivity].
  - left. apply orb_false_iff in E as [_ E]. rewrite E. reflexivity.
Qed.

Lemma normalizeFilePath_relative p : isAbsolute (normalizeFilePath p) = false.
Proof.
  destruct (normalizeFilePath_cases p) as [E|[E H]]; rewrite E;
    [reflexivity|apply dropWhile_relative].
Qed.

(** The path the loop works with is never absolute, and normalizing it
    once more changes nothing. *)
Theorem normalizeFilePath_relative_idempotent (p : string) :
  isAbsolute (normalizeFilePath p) = false
  /\ normalizeFilePath (normalizeFilePath p) = normalizeFilePath p.
Proof.
  split; [apply normalizeFilePath_relative|].
  destruct (normalizeFilePath_cases p) as [E|[E H]]; rewrite E; [reflexivity|].
  unfold normalizeFilePath. cbv zeta. fold isSlash.
  rewrite dropWhile_idem, H. reflexivity.
Qed.

(** ** Two consecutive dots *)

Lemma startsWith_dot_app a c b :
  Ascii.eqb c "." = false ->
  startsWith (a +:+ String c b) "." = startsWith a ".".
Proof.
  intros Hc. destruct a as [|x a].
  - rewrite sapp_empty_l, startsWith_cons, Hc. reflexivity.
  - rewrite sapp_String, !startsWith_cons. reflexivity.
Qed.

Lemma includes_dotdot_app a c b :
  Ascii.eqb c "." = false ->
  includes (a +:+ String c b) ".." = includes a ".." || includes b "..".
Proof.
  intros Hc. induction a as [|x a IH].
  - rewrite sapp_empty_l, includes_cons, startsWith_cons, Hc. reflexivity.
  - rewrite sapp_String, !includes_cons, IH, !startsWith_cons.
    rewrite (startsWith_dot_app a c b Hc).
    change (startsWith (a +:+ String c b) ".") with (startsWith (a +:+ String c b) ".").
    destruct (Ascii.eqb x "."), (startsWith a "."), (includes a ".."), (includes b "..");
      reflexivity.
Qed.

Lemma includes_dotdot_dropWhile f s :
  includes s ".." = false -> includes (dropWhile f s) ".." = false.
Proof.
  induction s as [|a s IH]; [reflexivity|]. intros H. cbn [dropWhile].
  destruct (f a); [|exact H]. apply IH.
  rewrite includes_cons in H. apply orb_false_iff in H as [_ H]. exact H.
Qed.

Lemma head_splitOn_dot q : startsWith (hd "" (splitOn sep q)) "." = startsWith q ".".
Proof.
  destruct q as [|b q]; [reflexivity|]. cbn [splitOn].
  destruct (Ascii.eqb b sep) eqn:Eb.
  - apply Ascii.eqb_eq in Eb. subst b. reflexivity.
  - destruct (splitOn sep q); reflexivity.
Qed.

Lemma splitOn_no_dotdot q :
  includes q ".." = false -> Forall (fun s => includes s ".." = false) (splitOn sep q).
Proof.
  induction q as [|a q IH]; intros H.
  - constructor; [reflexivity|constructor].
  - rewrite includes_cons in H. apply orb_false_iff in H as [H1 H2].
    specialize (IH H2). cbn [splitOn]. destruct (Ascii.eqb a sep).
    + constructor; [reflexivity|exact IH].
    + pose proof (head_splitOn_dot q) as Hd. pose proof (splitOn_nonempty sep q) as Hne.
      destruct (splitOn sep q) as [|h t]; [congruence|]. inversion IH; subst.
      constructor; [|assumption]. cbn [hd] in Hd.
      rewrite includes_cons. apply orb_false_iff. split; [|assumption].
      rewrite startsWith_cons in *. rewrite Hd. exact H1.
Qed.

(** ** What normalization keeps *)

Lemma normalizeStep_from b stack seg x :
  In x (normalizeStep b stack seg) -> In x stack \/ x = seg.
Proof.
  unfold normalizeStep.
  destruct (String.eqb seg "" || String.eqb seg "."); [auto|].
  destruct (String.eqb seg "..") eqn:E.
  - apply String.eqb_eq in E. subst seg. destruct stack as [|top rest].
    + destruct b; [intros [<-|[]]; auto|intros []].
    + destruct (String.eqb top "..").
      * destruct b; [intros [<-|H]; auto|auto].
      * intros H. left. right. exact H.
  - intros [<-|H]; auto.
Qed.

Lemma fold_normalizeStep_from b segs : forall stack x,
  In x (fold_left (normalizeStep b) segs stack) -> In x stack \/ In x segs.
Proof.
  induction segs as [|s segs IH]; intros stack x H; [auto|].
  cbn [fold_left] in H. destruct (IH _ _ H) as [H1|H1]; [|right; right; exact H1].
  destruct (normalizeStep_from _ _ _ _ H1) as [H2| ->]; [auto|right; left; reflexivity].
Qed.

Lemma normalizeSegments_from b segs x :
  In x (normalizeSegments b segs) -> In x segs.
Proof.
  unfold normalizeSegments. rewrite <- in_rev. intros H.
  destruct (fold_normalizeStep_from _ _ _ _ H) as [[]|H1]. exact H1.
Qed.

Lemma join_no_dotdot l :
  Forall (fun s => includes s ".." = false) l -> includes (join "/" l) ".." = false.
Proof.
  induction l as [|x l IH]; intros H; [reflexivity|]. inversion H; subst.
  destruct l as [|y l]; [assumption|].
  rewrite join_cons2. change ("/" +:+ join "/" (y :: l)) with (String sep (join "/" (y :: l))).
  rewrite includes_dotdot_app by reflexivity. apply orb_false_iff. auto.
Qed.

Lemma normalize_no_dotdot q : includes q ".." = false -> includes (normalize q) ".." = false.
Proof.
  intros H. unfold normalize. destruct q as [|c q]; [reflexivity|].
  set (p := String c q) in *. unfold normalizeString.
  assert (Hr : includes (join "/" (normalizeSegments (negb (isAbsolute p)) (splitOn sep p)))
                 ".." = false).
  { apply join_no_dotdot, List.Forall_forall. intros x Hx.
    apply normalizeSegments_from in Hx.
    pose proof (splitOn_no_dotdot p H) as Hall. rewrite List.Forall_forall in Hall. auto. }
  destruct (join "/" _) as [|c0 r0] eqn:Er.
  - destruct (isAbsolute p), (endsWith p "/"); reflexivity.
  - assert (Hr' : includes (if endsWith p "/" then String c0 r0 +:+ "/" else String c0 r0)
                    ".." = false).
    { destruct (endsWith p "/"); [|exact Hr].
      change (String c0 r0 +:+ "/") with (String c0 r0 +:+ String sep "").
      rewrite includes_dotdot_app by reflexivity. rewrite Hr. reflexivity. }
    destruct (isAbsolute p); [|exact Hr'].
    rewrite (includes_dotdot_app "" sep _ eq_refl : includes ("/" +:+ _) ".." = _).
    exact Hr'.
Qed.

Lemma issues_no_dotdot f : FileSchema_issues f = [] -> includes (path f) ".." = false.
Proof.
  unfold FileSchema_issues. intros H.
  apply app_eq_nil in H as [_ H]. apply app_eq_nil in H as [_ H].
  apply app_eq_nil in H as [H _]. destruct (includes (path f) ".."); [discriminate|reflexivity].
Qed.

Lemma normalizeFilePath_no_dotdot p :
  includes p ".." = false -> includes (normalizeFilePath p) ".." = false.
Proof.
  intros H. pose proof (includes_dotdot_dropWhile isSlash p H) as Hx.
  destruct (normalizeFilePath_cases p) as [E|[E _]]; rewrite E; [|exact Hx].
  change ("src/" +:+ dropWhile isSlash p) with ("src" +:+ String sep (dropWhile isSlash p)).
  rewrite includes_dotdot_app by reflexivity. rewrite Hx. reflexivity.
Qed.

(** The reasons the policy can still give once its first two checks have
    passed. *)
Inductive laterVerdict : PathCheck -> Prop :=
| verdict_safe : laterVerdict (mkCheck true None)
| verdict_escapes : laterVerdict (mkCheck false (Some "Path escapes project root"))
| verdict_file x : laterVerdict (mkCheck false (Some ("Protected file: " +:+ x)))
| verdict_directory x : laterVerdict (mkCheck false (Some ("Protected directory: " +:+ x)))
| verdict_extension x :
    laterVerdict (mkCheck false (Some ("File extension not allowed: " +:+ x))).

Lemma isPathSafe_later root q :
  includes (normalize q) ".." = false -> isAbsolute (normalize q) = false ->
  laterVerdict (isPathSafe root q).
Proof.
  intros H1 H2. unfold isPathSafe. cbv zeta. rewrite H1, H2.
  destruct (negb (startsWith _ root)); [constructor|].
  destruct (arrIncludes protectedFiles _); [constructor|].
  destruct (List.find _ _); [constructor|].
  destruct (negb _ && negb _); constructor.
Qed.

(** For a file that passes the schema, the first two checks of the policy
    never fire in the loop: its verdict is safe, or unsafe for one of the
    later reasons. *)
Theorem validated_file_policy_verdicts (projectRoot : string) (f : FileToApply) :
  FileSchema_issues f = [] ->
  includes (normalize (normalizeFilePath (path f))) ".." = false
  /\ isAbsolute (normalize (normalizeFilePath (path f))) = false
  /\ laterVerdict (isPathSafe projectRoot (normalizeFilePath (path f))).
Proof.
  intros Hi.
  assert (H1 : includes (normalize (normalizeFilePath (path f))) ".." = false)
    by (apply normalize_no_dotdot, normalizeFilePath_no_dotdot, issues_no_dotdot, Hi).
  assert (H2 : isAbsolute (normalize (normalizeFilePath (path f))) = false).
  { pose proof (normalize_relative (normalizeFilePath (path f))
                  (normalizeFilePath_relative (path f))) as H.
    destruct (normalize _) as [|c t]; [reflexivity|].
    rewrite startsWith_cons, andb_true_r in H. exact H. }
  split; [exact H1|]. split; [exact H2|]. apply isPathSafe_later; assumption.
Qed.

(** ** Resolving against the project root *)

(** The segments of the project root, as [path.resolve] keeps them. *)
Definition rootSegments (projectRoot : string) : list string :=
  normalizeSegments false (splitOn sep (projectRoot +:+ "/")).

(** The segments a relative path adds below the directory it is resolved
    against. *)
Definition relSegments (q : string) : list string :=
  normalizeSegments true (splitOn sep q).

Lemma step_empty b stack : normalizeStep b stack "" = stack.
Proof. reflexivity. Qed.

Lemma step_under base stack s :
  ~ In ".." stack -> (s = ".." -> stack <> []) ->
  normalizeStep false (stack ++ base) s = normalizeStep true stack s ++ base
  /\ ~ In ".." (normalizeStep true stack s).
Proof.
  intros Hst Hs. unfold normalizeStep.
  destruct (String.eqb s "" || String.eqb s "."); [auto|].
  destruct (String.eqb s "..") eqn:E.
  - apply String.eqb_eq in E. destruct stack as [|top rest]; [exfalso; apply (Hs E); reflexivity|].
    cbn [app]. destruct (String.eqb top "..") eqn:Et.
    + exfalso. apply Hst. left. apply String.eqb_eq, Et.
    + split; [reflexivity|]. intros Hin. apply Hst. right. exact Hin.
  - split; [reflexivity|]. intros [Hx|Hin]; [|auto].
    subst s. discriminate.
Qed.

Lemma fold_under base segs : forall stack,
  ~ In ".." (fold_left (normalizeStep true) segs stack) ->
  ~ In ".." stack ->
  fold_left (normalizeStep false) segs (stack ++ base)
  = fold_left (normalizeStep true) segs stack ++ base.
Proof.
  induction segs as [|s segs IH]; intros stack Hfin Hst; [reflexivity|].
  cbn [fold_left] in *.
  destruct (step_under base stack s Hst) as [-> Hn].
  - intros -> ->. apply Hfin.
    change (normalizeStep true [] "..") with ([] ++ [".."]).
    destruct (fold_keeps_climb segs []) as [l' ->].
    apply in_app_iff. right. left. reflexivity.
  - apply IH; assumption.
Qed.

Lemma resolve_root projectRoot :
  isAbsolute projectRoot = true ->
  resolve projectRoot [projectRoot] = "/" +:+ join "/" (rootSegments projectRoot).
Proof.
  intros Ha. destruct projectRoot as [|c t]; [discriminate|].
  unfold resolve. cbn [rev app resolveLoop]. rewrite Ha. reflexivity.
Qed.

Lemma resolve_under_root projectRoot q :
  isAbsolute projectRoot = true ->
  isAbsolute q = false ->
  ~ In ".." (relSegments q) ->
  resolve projectRoot [projectRoot; q]
  = "/" +:+ join "/" (rootSegments projectRoot ++ relSegments q).
Proof.
  intros Ha Hq Hn. destruct q as [|c0 q0].
  - change (relSegments "") with (@nil string). rewrite app_nil_r, <- resolve_root by exact Ha.
    destruct projectRoot as [|c t]; [discriminate|]. reflexivity.
  - set (q := String c0 q0) in *. destruct projectRoot as [|c t]; [discriminate|].
    set (root := String c t) in *.
    unfold resolve. cbn [rev app].
    change (resolveLoop [q; root; root] "" false)
      with (resolveLoop [root; root] (q +:+ "/" +:+ "") (isAbsolute q)).
    rewrite Hq.
    change (resolveLoop [root; root] (q +:+ "/" +:+ "") false)
      with (resolveLoop [root] (root +:+ "/" +:+ (q +:+ "/" +:+ "")) (isAbsolute root)).
    rewrite Ha. cbn [resolveLoop negb]. cbv iota beta.
    f_equal. unfold normalizeString. f_equal.
    unfold rootSegments, relSegments, normalizeSegments.
    change (root +:+ "/" +:+ (q +:+ "/" +:+ ""))
      with (root +:+ String sep (q +:+ String sep "")).
    change (root +:+ "/") with (root +:+ String sep "").
    rewrite !splitOn_app. change (splitOn sep "") with [""].
    rewrite !fold_left_app. cbn [fold_left]. rewrite !step_empty.
    rewrite <- rev_app_distr. f_equal.
    apply (fold_under _ _ []); [|intros []].
    intros H. apply Hn. unfold relSegments, normalizeSegments. rewrite <- in_rev. exact H.
Qed.

Lemma filter_nonempty_kept l :
  Forall kept l -> List.filter (fun s => negb (String.eqb s "")) l = l.
Proof.
  induction 1 as [|x l [_ [Hx _]] Hl IH]; [reflexivity|]. cbn [List.filter].
  apply String.eqb_neq in Hx. rewrite Hx, IH. reflexivity.
Qed.

Lemma kept_noSlash l : Forall kept l -> Forall (fun s => noSlash s = true) l.
Proof. apply List.Forall_impl. intros s [H _]. exact H. Qed.

Lemma fsKey_join l : Forall kept l -> fsKey ("/" +:+ join "/" l) = l.
Proof.
  intros H. unfold fsKey.
  change ("/" +:+ join "/" l) with ("" +:+ String sep (join "/" l)).
  rewrite splitOn_app. change (splitOn sep "") with [""]. cbn [app List.filter String.eqb negb].
  destruct l as [|x l]; [reflexivity|].
  rewrite splitOn_join by (congruence || apply kept_noSlash, H).
  apply filter_nonempty_kept, H.
Qed.

Lemma rootSegments_kept projectRoot : Forall kept (rootSegments projectRoot).
Proof. apply normalizeSegments_kept. Qed.

Lemma relSegments_kept q : Forall kept (relSegments q).
Proof. apply normalizeSegments_kept. Qed.

Lemma fsKey_root projectRoot :
  isAbsolute projectRoot = true -> resolve projectRoot [projectRoot] = projectRoot ->
  fsKey projectRoot = rootSegments projectRoot.
Proof.
  intros Ha Hr. rewrite <- Hr at 1. rewrite resolve_root by exact Ha.
  apply fsKey_join, rootSegments_kept.
Qed.

(** [normalize] of a relative path, by its segments. *)
Lemma normalize_relSegments q :
  q <> "" -> isAbsolute q = false ->
  normalize q = match relSegments q with
                | [] => if endsWith q "/" then "./" else "."
                | rel => if endsWith q "/" then join "/" rel +:+ "/" else join "/" rel
                end.
Proof.
  intros Hne Hq. unfold normalize. destruct q as [|c t]; [congruence|].
  rewrite Hq. unfold normalizeString. cbn [negb]. fold (relSegments (String c t)).
  pose proof (relSegments_kept (String c t)) as Hk.
  destruct (relSegments (String c t)) as [|x rel] eqn:E; [reflexivity|].
  pose proof (join_nonempty (x :: rel) ltac:(congruence) Hk) as Hj.
  destruct (join "/" (x :: rel)); [congruence|reflexivity].
Qed.

Lemma relSegments_in_normalize q s :
  isAbsolute q = false -> In s (relSegments q) -> In s (splitOn sep (normalize q)).
Proof.
  intros Hq Hin. destruct (String.string_dec q "") as [->|Hne]; [contradiction|].
  rewrite normalize_relSegments by assumption.
  pose proof (relSegments_kept q) as Hk.
  destruct (relSegments q) as [|x rel] eqn:E; [contradiction|].
  destruct (endsWith q "/").
  - change (join "/" (x :: rel) +:+ "/") with (join "/" (x :: rel) +:+ String sep "").
    rewrite splitOn_app, splitOn_join by (congruence || apply kept_noSlash, Hk).
    apply in_app_iff. left. exact Hin.
  - rewrite splitOn_join by (congruence || apply kept_noSlash, Hk). exact Hin.
Qed.

Lemma last_app_single (l : list string) x d : List.last (l ++ [x]) d = x.
Proof. induction l as [|y l IH]; [reflexivity|]. cbn [app]. destruct (l ++ [x]) eqn:E.
  - destruct l; discriminate.
  - rewrite <- E at 1. cbn [List.last]. rewrite E in *. exact IH.
Qed.

Lemma basename_normalize q :
  isAbsolute q = false -> relSegments q <> [] ->
  basename (normalize q) = List.last (relSegments q) "".
Proof.
  intros Hq Hrel. destruct (String.string_dec q "") as [->|Hne]; [exfalso; apply Hrel; reflexivity|].
  rewrite normalize_relSegments by assumption.
  pose proof (relSegments_kept q) as Hk.
  destruct (relSegments q) as [|x rel] eqn:E; [congruence|].
  unfold basename. destruct (endsWith q "/").
  - change (join "/" (x :: rel) +:+ "/") with (join "/" (x :: rel) +:+ String sep "").
    rewrite splitOn_app, splitOn_join by (congruence || apply kept_noSlash, Hk).
    rewrite List.filter_app, filter_nonempty_kept by exact Hk.
    change (List.filter _ (splitOn sep "")) with (@nil string). rewrite app_nil_r. reflexivity.
  - rewrite splitOn_join by (congruence || apply kept_noSlash, Hk).
    rewrite filter_nonempty_kept by exact Hk. reflexivity.
Qed.

Lemma normalize_absolute q : isAbsolute q = true -> isAbsolute (normalize q) = true.
Proof.
  intros H. unfold normalize. destruct q as [|c t]; [discriminate|]. rewrite H.
  destruct (normalizeString _ _); reflexivity.
Qed.

Lemma no_dotdot_segment n : includes n ".." = false -> ~ In ".." (relSegments n).
Proof.
  intros H Hin. apply normalizeSegments_from in Hin.
  pose proof (splitOn_no_dotdot n H) as Hall. rewrite List.Forall_forall in Hall.
  specialize (Hall _ Hin). discriminate.
Qed.

Lemma no_dotdot_relSegments q :
  isAbsolute q = false -> includes (normalize q) ".." = false -> ~ In ".." (relSegments q).
Proof.
  intros Hq H Hin. apply (relSegments_in_normalize q _ Hq) in Hin.
  pose proof (splitOn_no_dotdot _ H) as Hall. rewrite List.Forall_forall in Hall.
  specialize (Hall _ Hin). discriminate.
Qed.

Lemma find_none_all {A} (f : A -> bool) l x : List.find f l = None -> In x l -> f x = false.
Proof.
  induction l as [|y l IH]; [contradiction|]. cbn [List.find].
  destruct (f y) eqn:E; [discriminate|]. intros H [<-|Hin]; auto.
Qed.

(** What a safe verdict says, check by check. *)
Lemma safe_checks projectRoot q :
  safe (isPathSafe projectRoot q) = true ->
  includes (normalize q) ".." = false
  /\ isAbsolute (normalize q) = false
  /\ arrIncludes protectedFiles (basename (normalize q)) = false
  /\ List.find (arrIncludes protectedDirectories) (splitOn sep (normalize q)) = None.
Proof.
  unfold isPathSafe. cbv zeta.
  destruct (includes (normalize q) ".."); [discriminate|].
  destruct (isAbsolute (normalize q)); [discriminate|].
  destruct (negb (startsWith _ projectRoot)); [discriminate|].
  destruct (arrIncludes protectedFiles _); [discriminate|].
  destruct (List.find _ _); [discriminate|]. auto.
Qed.

Lemma safe_target projectRoot q :
  isAbsolute projectRoot = true ->
  resolve projectRoot [projectRoot] = projectRoot ->
  safe (isPathSafe projectRoot q) = true ->
  fsKey (resolve projectRoot [projectRoot; q]) = fsKey projectRoot ++ relSegments q
  /\ Forall (fun s => s <> ".." /\ ~ In s protectedDirectories) (relSegments q)
  /\ ~ In (List.last (relSegments q) "") protectedFiles.
Proof.
  intros Ha Hr Hs. destruct (safe_checks _ _ Hs) as (H1 & H2 & H3 & H4).
  assert (Hq : isAbsolute q = false).
  { destruct (isAbsolute q) eqn:E; [|reflexivity].
    rewrite (normalize_absolute q E) in H2. discriminate. }
  pose proof (no_dotdot_relSegments q Hq H1) as Hn.
  split; [|split].
  - rewrite (resolve_under_root _ _ Ha Hq Hn), (fsKey_root _ Ha Hr).
    apply fsKey_join, Forall_app. split; [apply rootSegments_kept|apply relSegments_kept].
  - apply List.Forall_forall. intros s Hin. split; [intros ->; exact (Hn Hin)|].
    rewrite <- PackageFacts.arrIncludes_In.
    rewrite (find_none_all _ _ s H4 (relSegments_in_normalize q s Hq Hin)). discriminate.
  - rewrite <- PackageFacts.arrIncludes_In.
    destruct (relSegments q) as [|x rel] eqn:E; [discriminate|].
    rewrite <- E, <- basename_normalize, H3 by (assumption || congruence). discriminate.
Qed.

(** A safe verdict confines the write.  With the project root an absolute
    path that [path.resolve] leaves as it is, the absolute path written for
    a path the policy calls safe is the project root followed by segments
    of which none is a parent reference or a protected directory and the
    last is no protected file. *)
Theorem safe_target_under_root (projectRoot q : string) :
  isAbsolute projectRoot = true ->
  resolve projectRoot [projectRoot] = projectRoot ->
  safe (isPathSafe projectRoot q) = true ->
  exists rel,
    fsKey (resolve projectRoot [projectRoot; q]) = fsKey projectRoot ++ rel
    /\ Forall (fun s => s <> ".." /\ ~ In s protectedDirectories) rel
    /\ ~ In (List.last rel "") protectedFiles.
Proof.
  intros Ha Hr Hs. exists (relSegments q). apply safe_target; assumption.
Qed.

Lemma join_app a b :
  a <> [] -> b <> [] -> join "/" (a ++ b) = join "/" a +:+ "/" +:+ join "/" b.
Proof.
  induction a as [|x a IH]; [congruence|]. intros _ Hb.
  destruct a as [|y a].
  - destruct b as [|z b]; [congruence|]. reflexivity.
  - cbn [app]. rewrite !join_cons2. change ((y :: a) ++ b) with (y :: a ++ b) in IH.
    rewrite IH by (congruence || assumption). rewrite !sapp_assoc. reflexivity.
Qed.

Lemma startsWith_refl s : startsWith s s = true.
Proof. induction s as [|a s IH]; [reflexivity|]. rewrite startsWith_cons, Ascii.eqb_refl. exact IH. Qed.

Lemma join_prefix a b : startsWith ("/" +:+ join "/" (a ++ b)) ("/" +:+ join "/" a) = true.
Proof.
  destruct a as [|x a]; [reflexivity|]. destruct b as [|y b].
  - rewrite app_nil_r. apply startsWith_refl.
  - rewrite join_app by congruence. rewrite <- !sapp_assoc.
    rewrite sapp_assoc. apply startsWith_app, startsWith_refl.
Qed.

(** The third check of the policy is dead code: with the project root an
    absolute path that [path.resolve] leaves as it is, no path is ever
    turned down for escaping the project root. *)
Theorem escape_check_never_fires (projectRoot q : string) :
  isAbsolute projectRoot = true ->
  resolve projectRoot [projectRoot] = projectRoot ->
  reason (isPathSafe projectRoot q) <> Some "Path escapes project root".
Proof.
  intros Ha Hr. unfold isPathSafe. cbv zeta.
  destruct (includes (normalize q) "..") eqn:H1; [discriminate|].
  destruct (isAbsolute (normalize q)) eqn:H2; [discriminate|].
  assert (Hin : startsWith (resolve projectRoot [projectRoot; normalize q]) projectRoot = true).
  { rewrite (resolve_under_root _ _ Ha H2 (no_dotdot_segment _ H1)).
    rewrite <- Hr at 2. rewrite (resolve_root _ Ha). apply join_prefix. }
  rewrite Hin. cbn [negb].
  destruct (arrIncludes protectedFiles _); [cbn [reason]; rewrite !sapp_String; discriminate|].
  destruct (List.find _ _); [cbn [reason]; rewrite !sapp_String; discriminate|].
  destruct (negb _ && negb _); [cbn [reason]; rewrite !sapp_String; discriminate|discriminate].
Qed.

Lemma validated_file_policy_verdicts_witness :
  FileSchema_issues (mkFile "node_modules/x.js" "x") = []
  /\ includes (normalize (normalizeFilePath (path (mkFile "node_modules/x.js" "x")))) ".."
     = false
  /\ isAbsolute (normalize (normalizeFilePath (path (mkFile "node_modules/x.js" "x"))))
     = false
  /\ laterVerdict (isPathSafe "/app" (normalizeFilePath (path (mkFile "node_modules/x.js" "x")))).
Proof.
  split; [reflexivity|].
  exact (validated_file_policy_verdicts "/app" (mkFile "node_modules/x.js" "x") eq_refl).
Defined.

Lemma safe_target_under_root_witness :
  isAbsolute "/srv/app" = true
  /\ resolve "/srv/app" ["/srv/app"] = "/srv/app"
  /\ safe (isPathSafe "/srv/app" "src/lib/../a.ts") = true
  /\ exists rel,
      fsKey (resolve "/srv/app" ["/srv/app"; "src/lib/../a.ts"]) = fsKey "/srv/app" ++ rel
      /\ Forall (fun s => s <> ".." /\ ~ In s protectedDirectories) rel
      /\ ~ In (List.last rel "") protectedFiles.
Proof.
  split; [reflexivity|]. split; [reflexivity|]. split; [reflexivity|].
  exact (safe_target_under_root "/srv/app" "src/lib/../a.ts" eq_refl eq_refl eq_refl).
Defined.

Lemma escape_check_never_fires_witness :
  isAbsolute "/srv/app" = true
  /\ resolve "/srv/app" ["/srv/app"] = "/srv/app"
  /\ reason (isPathSafe "/srv/app" "a/b.exe") <> Some "Path escapes project root".
Proof.
  split; [reflexivity|]. split; [reflexivity|].
  exact (escape_check_never_fires "/srv/app" "a/b.exe" eq_refl eq_refl).
Defined.

Example target_segments :
  fsKey (resolve "/srv/app" ["/srv/app"; "src/lib/../a.ts"]) = ["srv"; "app"; "src"; "a.ts"]
  /\ relSegments "src/lib/../a.ts" = ["src"; "a.ts"]
  /\ rootSegments "/srv/app" = ["srv"; "app"].
Proof. repeat split. Qed.

End TargetFacts.

(* ====================================================================== *)
(** * Invariants of the apply route *)
(* ====================================================================== *)

Module LoopInvariants.
Import JsString NodePath Regex Fs ApplyRoute StringFacts PathFacts SchemaFacts LoopFacts.

Section AnyFileSystem.
Context {D : Type} (fs : FileSystem D).
Variable projectRoot : string.

Local Abbreviation POST := (ApplyRoute.POST fs projectRoot).
Local Abbreviation turns := (LoopFacts.turns fs projectRoot).

(** What is left of the handler once the request is classified. *)
Lemma POST_cases d request :
  (snd (POST d request) = mkStream [Error "Invalid JSON in request body"] 2
   /\ fst (POST d request) = d /\ request = None)
  \/ (exists body, request = Some body
        /\ ApplyCodeRequestSchema_issues (requestFiles body) <> []
        /\ POST d request
           = (d, mkStream
                   [Error ("Validation failed: "
                           +:+ join ", " (ApplyCodeRequestSchema_issues (requestFiles body)))]
                   2))
  \/ (exists body files, request = Some body
        /\ requestFiles body = Some files
        /\ ApplyCodeRequestSchema_issues (Some files) = []
        /\ POST d request
           = (diskAfter fs projectRoot d files,
              mkStream
                (Status ("Processing " +:+ ofNat (length files) +:+ " files...")
                 :: flat_map (turnFrames (length files)) (turns 0 d files)
                 ++ [Complete (completeMessage (finalResults fs projectRoot d body files))
                       (finalResults fs projectRoot d body files)])
                1)).
Proof.
  destruct request as [body|]; [|left; repeat split].
  destruct (ApplyCodeRequestSchema_issues (requestFiles body)) as [|x xs] eqn:Hi.
  - destruct (requestFiles body) as [files|] eqn:Hf; [|discriminate].
    right. right. exists body, files. repeat split; try assumption.
    apply POST_validated; assumption.
  - right. left. exists body. split; [reflexivity|].
    assert (Hne : ApplyCodeRequestSchema_issues (requestFiles body) <> [])
      by (rewrite Hi; discriminate).
    split; [exact Hne|]. apply POST_rejects, Hne.
Qed.

Lemma turn_counts (t : nat * FileToApply * @FileOutcome D) :
  length (turnCreated t) + length (turnUpdated t) + length (turnErrors t) = 1.
Proof. destruct t as [[i f] [r|ex d m|[|] d]]; reflexivity. Qed.

Lemma turns_counts (ts : list (nat * FileToApply * @FileOutcome D)) :
  length (flat_map turnCreated ts) + length (flat_map turnUpdated ts)
  + length (flat_map turnErrors ts) = length ts.
Proof.
  induction ts as [|t ts IH]; [reflexivity|].
  cbn [flat_map]. rewrite !length_app. pose proof (turn_counts t). simpl length. lia.
Qed.

(** Every file of a validated batch is reported exactly once: as created,
    as updated, or by an entry of the errors.  Nothing is ever reported as
    skipped, and the packages are those of the request when it carries
    some, those inferred from the files otherwise. *)
Theorem every_file_accounted_for d body files :
  requestFiles body = Some files ->
  ApplyCodeRequestSchema_issues (Some files) = [] ->
  exists rs,
    reported (snd (POST d (Some body))) = Some rs
    /\ length (filesCreated rs) + length (filesUpdated rs) + length (errors rs)
       = length files
    /\ filesSkipped rs = []
    /\ packages rs = match body_packages body with
                     | Some ps => ps
                     | None => extractPackages files
                     end.
Proof.
  intros Hf Hi. destruct (reported_validated fs projectRoot d body files Hf Hi) as [Hr _].
  eexists. split; [exact Hr|]. cbn [finalResults filesCreated filesUpdated errors
    filesSkipped packages]. split; [|split; reflexivity].
  rewrite turns_counts. apply turns_length.
Qed.

(** Whatever the request, the stream ends: its last frame is the one
    batch-level terminal frame (complete or error), and the writer is
    closed -- once when the batch is processed, twice when the request is
    turned down, since the [return] after the first [close] sits inside the
    [try] and the [finally] block closes again. *)
Theorem stream_always_terminated d request :
  exists evs e,
    frames (snd (POST d request)) = evs ++ [e]
    /\ isBatchTerminal e = true
    /\ Forall (fun x => isBatchTerminal x = false) evs
    /\ closeCalls (snd (POST d request))
       = match request with
         | None => 2
         | Some body =>
             match ApplyCodeRequestSchema_issues (requestFiles body) with
             | [] => 1
             | _ => 2
             end
         end.
Proof.
  destruct (POST_cases d request)
    as [(Hs & _ & ->)|[(body & -> & Hi & E)|(body & files & -> & Hf & Hi & E)]].
  - rewrite Hs. exists [], (Error "Invalid JSON in request body").
    repeat split. constructor.
  - rewrite E. eexists [], _. split; [reflexivity|]. split; [reflexivity|].
    split; [constructor|].
    destruct (ApplyCodeRequestSchema_issues (requestFiles body)); [congruence|reflexivity].
  - rewrite E, Hf, Hi. cbn [snd frames closeCalls]. eexists (_ :: _), _.
    split; [reflexivity|]. split; [reflexivity|]. split; [|reflexivity].
    constructor; [reflexivity|]. apply List.Forall_forall. intros e He.
    apply in_flat_map in He as [t [_ He]].
    pose proof (stepFrames_not_terminal (length files) (fst (fst t)) (snd (fst t)) (snd t)) as Hn.
    rewrite List.Forall_forall in Hn. apply Hn, He.
Qed.

End AnyFileSystem.

Section OnDisk.
(** The disk of module [Fs]. *)
Variable projectRoot : string.

Local Abbreviation isPathSafe := (ApplyRoute.isPathSafe projectRoot).
Local Abbreviation POST := (ApplyRoute.POST posix projectRoot).
Local Abbreviation outcome := (LoopFacts.outcome posix projectRoot).
Local Abbreviation diskAfter := (LoopFacts.diskAfter posix projectRoot).
Local Abbreviation key := (LoopFacts.key projectRoot).

(** One turn of the loop adds directories and changes at most the target
    of its file, and that only when the policy lets the file through. *)
Lemma step_effect d f :
  d_dirs d ⊆ d_dirs (stepDisk d (outcome d f))
  /\ (d_files (stepDisk d (outcome d f)) = d_files d
      \/ (safe (isPathSafe (normalizeFilePath (path f))) = true
          /\ d_files (stepDisk d (outcome d f)) = <[key f := content f]> (d_files d))).
Proof.
  unfold LoopFacts.outcome. cbv zeta.
  destruct (safe (isPathSafe (normalizeFilePath (path f)))) eqn:Hs; simpl negb; cbv iota;
    [|split; [reflexivity|left; reflexivity]].
  destruct (ensureDirectory posix projectRoot d _) as [dE|m] eqn:He;
    [|split; [reflexivity|left; reflexivity]].
  destruct (ensureDirectory_inv _ _ _ _ He) as (E1 & E2 & _).
  destruct (writeFile posix projectRoot dE _ _) as [d2|m] eqn:Hw; cbn [stepDisk].
  - destruct (writeFile_inv _ _ _ _ Hw) as (_ & _ & _ & ->). cbn [d_files d_dirs].
    split; [exact E2|]. right. split; [reflexivity|]. rewrite E1. reflexivity.
  - split; [exact E2|]. left. exact E1.
Qed.

Lemma diskAfter_effect files : forall d,
  d_dirs d ⊆ d_dirs (diskAfter d files)
  /\ (forall k, is_Some (d_files d !! k) -> is_Some (d_files (diskAfter d files) !! k))
  /\ (forall k,
        (forall f, In f files -> safe (isPathSafe (normalizeFilePath (path f))) = true ->
                   key f <> k) ->
        d_files (diskAfter d files) !! k = d_files d !! k).
Proof.
  induction files as [|f rest IH]; intros d; cbn [LoopFacts.diskAfter].
  - split; [reflexivity|]. split; auto.
  - destruct (IH (stepDisk d (outcome d f))) as (I1 & I2 & I3).
    destruct (step_effect d f) as [S1 S2]. split; [|split].
    + etransitivity; eassumption.
    + intros k Hk. apply I2. destruct S2 as [->|[_ ->]]; [exact Hk|].
      destruct (decide (key f = k)) as [<-|Hne];
        [rewrite lookup_insert_eq; eauto|rewrite lookup_insert_ne by exact Hne; exact Hk].
    + intros k Hk. rewrite I3 by (intros g Hg; apply Hk; right; exact Hg).
      destruct S2 as [->|[Hs ->]]; [reflexivity|].
      apply lookup_insert_ne. apply Hk; [left; reflexivity|exact Hs].
Qed.

Lemma POST_disk d request :
  fst (POST d request) = d
  \/ exists body files, request = Some body /\ requestFiles body = Some files
                        /\ fst (POST d request) = diskAfter d files.
Proof.
  destruct (POST_cases posix projectRoot d request)
    as [(_ & H & _)|[(body & _ & _ & E)|(body & files & Hr & Hf & _ & E)]].
  - left. exact H.
  - left. rewrite E. reflexivity.
  - right. exists body, files. rewrite E. auto.
Qed.

(** The route never removes anything: every directory and every file of
    the disk is still there when the request is over, whatever the request
    and whatever went wrong on the way. *)
Theorem nothing_is_removed d request :
  d_dirs d ⊆ d_dirs (fst (POST d request))
  /\ forall k, is_Some (d_files d !! k) -> is_Some (d_files (fst (POST d request)) !! k).
Proof.
  destruct (POST_disk d request) as [->|(body & files & _ & _ & ->)]; [split; auto|].
  destruct (diskAfter_effect files d) as (H1 & H2 & _). split; assumption.
Qed.

(** The only files whose content a request can change are the targets of
    the files of its batch that the path policy lets through. *)
Theorem only_targets_change d body files k :
  requestFiles body = Some files ->
  (forall f, In f files -> safe (isPathSafe (normalizeFilePath (path f))) = true ->
             key f <> k) ->
  d_files (fst (POST d (Some body))) !! k = d_files d !! k.
Proof.
  intros Hf Hk.
  destruct (POST_disk d (Some body)) as [->|(body' & files' & Hb & Hf' & ->)]; [reflexivity|].
  inversion Hb; subst body'. rewrite Hf in Hf'. inversion Hf'; subst files'.
  apply (diskAfter_effect files d), Hk.
Qed.

Lemma clean_split pre f post : forall d D,
  Clean projectRoot d (pre ++ f :: post) D ->
  exists d1 ex d2, outcome d1 f = Written ex d2 /\ Clean projectRoot d2 post D.
Proof.
  induction pre as [|g pre IH]; intros d D H; inversion H; subst.
  - eauto.
  - eapply IH. eassumption.
Qed.

(** Last write wins.  After a run that reports no error, reading back the
    path of a file of the batch gives the content of that file, provided no
    later file of the batch has the same target. *)
Theorem last_write_wins d body pre f post rs :
  requestFiles body = Some (pre ++ f :: post) ->
  ApplyCodeRequestSchema_issues (Some (pre ++ f :: post)) = [] ->
  reported (snd (POST d (Some body))) = Some rs ->
  errors rs = [] ->
  (forall g, In g post -> key g <> key f) ->
  readFile posix projectRoot (fst (POST d (Some body))) (normalizeFilePath (path f))
  = Ok (content f).
Proof.
  intros Hf Hi Hr He Hpost.
  destruct (reported_validated posix projectRoot d body _ Hf Hi) as [Hrep Hd].
  rewrite Hrep in Hr. inversion Hr; subst rs; clear Hr. rewrite Hd.
  cbn [finalResults errors] in He. apply clean_of_no_errors in He.
  destruct (clean_split _ _ _ _ _ He) as (d1 & ex & d2 & Ho & Hc).
  destruct (written_step _ _ _ _ _ Ho) as (_ & _ & Hfiles & _).
  assert (Hv : d_files (diskAfter d (pre ++ f :: post)) !! key f = Some (content f)).
  { eapply clean_files_kept; [exact Hc| |rewrite Hfiles; apply lookup_insert_eq].
    intros Hin. apply in_map_iff in Hin as [g [Hg Hin]]. exact (Hpost g Hin Hg). }
  unfold readFile. cbn [posix fs_readFile]. unfold readFileAbs.
  change (fsKey (resolve projectRoot [projectRoot; normalizeFilePath (path f)])) with (key f).
  rewrite Hv. reflexivity.
Qed.

Lemma changed_key files : forall d k,
  d_files (diskAfter d files) !! k <> d_files d !! k ->
  exists f, In f files /\ safe (isPathSafe (normalizeFilePath (path f))) = true /\ key f = k.
Proof.
  induction files as [|f rest IH]; intros d k H; cbn [LoopFacts.diskAfter] in H; [congruence|].
  destruct (decide (d_files (stepDisk d (outcome d f)) !! k = d_files d !! k)) as [E|E].
  - rewrite <- E in H. destruct (IH _ _ H) as (g & Hg & Hs & Hk).
    exists g. split; [right; exact Hg|auto].
  - exists f. split; [left; reflexivity|].
    destruct (step_effect d f) as [_ [S|[Hs S]]]; rewrite S in E; [congruence|].
    split; [exact Hs|]. destruct (decide (key f = k)) as [Hk|Hk]; [exact Hk|].
    rewrite lookup_insert_ne in E by exact Hk. congruence.
Qed.

(** Every write stays inside the project.  With the project root an
    absolute path that [path.resolve] leaves as it is, a file whose content
    a request changes lies under the project root, on a path of which no
    segment is a protected directory and the last is no protected file. *)
Theorem writes_confined d body files k :
  isAbsolute projectRoot = true ->
  resolve projectRoot [projectRoot] = projectRoot ->
  requestFiles body = Some files ->
  d_files (fst (POST d (Some body))) !! k <> d_files d !! k ->
  exists rel,
    k = fsKey projectRoot ++ rel
    /\ Forall (fun s => s <> ".." /\ ~ In s protectedDirectories) rel
    /\ ~ In (List.last rel "") protectedFiles.
Proof.
  intros Ha Hr Hf Hk.
  destruct (POST_disk d (Some body)) as [E|(body' & files' & Hb & Hf' & E)];
    rewrite E in Hk; [congruence|].
  inversion Hb; subst body'. rewrite Hf in Hf'. inversion Hf'; subst files'.
  destruct (changed_key _ _ _ Hk) as (f & _ & Hs & <-).
  destruct (TargetFacts.safe_target _ _ Ha Hr Hs) as (H1 & H2 & H3).
  exists (TargetFacts.relSegments (normalizeFilePath (path f))). auto.
Qed.

End OnDisk.

Lemma every_file_accounted_for_witness :
  requestFiles body3 = Some batch3
  /\ ApplyCodeRequestSchema_issues (Some batch3) = []
  /\ exists rs,
      reported (snd (POST posix "/app" emptyDisk (Some body3))) = Some rs
      /\ length (filesCreated rs) + length (filesUpdated rs) + length (errors rs)
         = length batch3
      /\ filesSkipped rs = []
      /\ packages rs = match body_packages body3 with
                       | Some ps => ps
                       | None => extractPackages batch3
                       end.
Proof.
  split; [reflexivity|]. split; [reflexivity|].
  exact (every_file_accounted_for posix "/app" emptyDisk body3 batch3 eq_refl eq_refl).
Defined.

Lemma only_targets_change_witness :
  requestFiles body3 = Some batch3
  /\ (forall f, In f batch3 ->
        safe (isPathSafe "/app" (normalizeFilePath (path f))) = true ->
        key "/app" f <> ["app"; "src"; "a.txt"])
  /\ d_files (fst (POST posix "/app" diskWithFile (Some body3))) !! ["app"; "src"; "a.txt"]
     = d_files diskWithFile !! ["app"; "src"; "a.txt"].
Proof.
  assert (H : forall f, In f batch3 ->
            safe (isPathSafe "/app" (normalizeFilePath (path f))) = true ->
            key "/app" f <> ["app"; "src"; "a.txt"]).
  { intros f [<-|[<-|[<-|[]]]] _ E; vm_compute in E; discriminate. }
  split; [reflexivity|]. split; [exact H|].
  exact (only_targets_change "/app" diskWithFile body3 batch3 ["app"; "src"; "a.txt"]
           eq_refl H).
Defined.

Lemma last_write_wins_witness :
  requestFiles body2
  = Some ([mkFile "src/a.txt" "hi"; mkFile "README.md" "# demo"]
          ++ mkFile "src/a.txt" "hi again" :: [])
  /\ ApplyCodeRequestSchema_issues
       (Some ([mkFile "src/a.txt" "hi"; mkFile "README.md" "# demo"]
              ++ mkFile "src/a.txt" "hi again" :: [])) = []
  /\ reported (snd (POST posix "/app" emptyDisk (Some body2)))
     = Some (mkResults ["src/a.txt"; "README.md"] ["src/a.txt"] [] [] [])
  /\ errors (mkResults ["src/a.txt"; "README.md"] ["src/a.txt"] [] [] []) = []
  /\ (forall g, In g [] -> key "/app" g <> key "/app" (mkFile "src/a.txt" "hi again"))
  /\ readFile posix "/app" (fst (POST posix "/app" emptyDisk (Some body2)))
       (normalizeFilePath (path (mkFile "src/a.txt" "hi again")))
     = Ok (content (mkFile "src/a.txt" "hi again")).
Proof.
  assert (Hrep : reported (snd (POST posix "/app" emptyDisk (Some body2)))
                 = Some (mkResults ["src/a.txt"; "README.md"] ["src/a.txt"] [] [] []))
    by (vm_compute; reflexivity).
  assert (Hpost : forall g, In g [] ->
            key "/app" g <> key "/app" (mkFile "src/a.txt" "hi again"))
    by (intros g []).
  split; [reflexivity|]. split; [reflexivity|]. split; [exact Hrep|].
  split; [reflexivity|]. split; [exact Hpost|].
  exact (last_write_wins "/app" emptyDisk body2
           [mkFile "src/a.txt" "hi"; mkFile "README.md" "# demo"]
           (mkFile "src/a.txt" "hi again") [] _ eq_refl eq_refl Hrep eq_refl Hpost).
Defined.

Lemma writes_confined_witness :
  isAbsolute "/app" = true
  /\ resolve "/app" ["/app"] = "/app"
  /\ requestFiles body3 = Some batch3
  /\ d_files (fst (POST posix "/app" emptyDisk (Some body3))) !! ["app"; "src"; "a.ts"]
     <> d_files emptyDisk !! ["app"; "src"; "a.ts"]
  /\ exists rel,
      ["app"; "src"; "a.ts"] = fsKey "/app" ++ rel
      /\ Forall (fun s => s <> ".." /\ ~ In s protectedDirectories) rel
      /\ ~ In (List.last rel "") protectedFiles.
Proof.
  assert (H : d_files (fst (POST posix "/app" emptyDisk (Some body3)))
                !! ["app"; "src"; "a.ts"]
              <> d_files emptyDisk !! ["app"; "src"; "a.ts"])
    by (intros E; vm_compute in E; discriminate).
  split; [reflexivity|]. split; [reflexivity|]. split; [reflexivity|]. split; [exact H|].
  exact (writes_confined "/app" emptyDisk body3 batch3 ["app"; "src"; "a.ts"]
           eq_refl eq_refl eq_refl H).
Defined.

End LoopInvariants.

(* ====================================================================== *)
(** * More on the generation route *)
(* ====================================================================== *)

Module GenerationFacts.
Import JsString NodePath Regex Fs ApplyRoute GenerateRoute StringFacts PackageFacts ProviderFacts.



Example explicit_provider_keeps_model :
  POST (mkEnv (Some "k1") (Some "k2")) (mkRequest (Some "hi") None (Some "groq"))
  = EventStream (Some "groq") (Some "gemini-2.0-flash-exp").
Proof. reflexivity. Qed.

(** ** Package detection *)

Section Inference.
(** The specifiers an inferer passes over. *)
Variable skips : string -> bool.

Definition inferFrom (acc : list string) (specs : list string) : list string :=
  fold_left (fun acc s => if skips s then acc else setAdd acc (packageNameOf s)) specs acc.

Lemma inferFrom_In specs : forall acc n,
  In n (inferFrom acc specs)
  <-> In n acc \/ exists s, In s specs /\ skips s = false /\ n = packageNameOf s.
Proof.
  induction specs as [|s specs IH]; intros acc n; unfold inferFrom in *; cbn [fold_left].
  - split; [auto|]. intros [H|[s [[] _]]]. exact H.
  - rewrite IH. destruct (skips s) eqn:E.
    + split.
      * intros [H|[t [Ht H]]]; [auto|]. right. exists t. split; [right; exact Ht|exact H].
      * intros [H|[t [[->|Ht] [H1 H2]]]]; [auto|congruence|]. right. exists t. auto.
    + rewrite setAdd_In. split.
      * intros [[H|H]|[t [Ht H]]]; [auto| |].
        -- right. exists s. split; [left; reflexivity|]. split; assumption.
        -- right. exists t. split; [right; exact Ht|exact H].
      * intros [H|[t [[->|Ht] [H1 H2]]]]; [auto| |].
        -- left. right. exact H2.
        -- right. exists t. auto.
Qed.

Lemma inferFrom_NoDup specs : forall acc,
  List.NoDup acc -> List.NoDup (inferFrom acc specs).
Proof.
  induction specs as [|s specs IH]; intros acc H; unfold inferFrom in *; cbn [fold_left].
  - exact H.
  - apply IH. destruct (skips s); [exact H|apply setAdd_NoDup, H].
Qed.

Lemma inferAll_In {F} (text : F -> string) (files : list F) : forall acc n,
  In n (fold_left (fun acc f => inferFrom acc (importSpecifiers (text f))) files acc)
  <-> In n acc
      \/ exists f s, In f files /\ In s (importSpecifiers (text f))
                     /\ skips s = false /\ n = packageNameOf s.
Proof.
  induction files as [|f files IH]; intros acc n; cbn [fold_left].
  - split; [auto|]. intros [H|[f [s [[] _]]]]. exact H.
  - rewrite IH, inferFrom_In. split.
    + intros [[H|[s H]]|[g [s [Hg H]]]]; [auto| |].
      * right. exists f, s. split; [left; reflexivity|exact H].
      * right. exists g, s. split; [right; exact Hg|exact H].
    + intros [H|[g [s [[->|Hg] H]]]]; [auto| |].
      * left. right. exists s. exact H.
      * right. exists g, s. split; assumption.
Qed.

Lemma inferAll_NoDup {F} (text : F -> string) (files : list F) : forall acc,
  List.NoDup acc ->
  List.NoDup (fold_left (fun acc f => inferFrom acc (importSpecifiers (text f))) files acc).
Proof.
  induction files as [|f files IH]; intros acc H; cbn [fold_left]; [exact H|].
  apply IH, inferFrom_NoDup, H.
Qed.
End Inference.

Definition detectSkips (pkg : string) : bool :=
  startsWith pkg "." || startsWith pkg "/" || arrIncludes nodeBuiltins pkg.

Lemma fold_left_same {A B} (f g : A -> B -> A) l :
  (forall a b, f a b = g a b) -> forall a, fold_left f l a = fold_left g l a.
Proof.
  intros H. induction l as [|b l IH]; intros a; [reflexivity|].
  cbn [fold_left]. rewrite H. apply IH.
Qed.

Lemma detectPackages_inferFrom files :
  detectPackages files
  = fold_left (fun acc f => inferFrom detectSkips acc (importSpecifiers (g_content f)))
      files [].
Proof.
  unfold detectPackages. apply fold_left_same. intros acc f.
  unfold inferFrom. apply fold_left_same. intros a pkg.
  unfold detectSkips, setAdd, packageNameOf.
  destruct (startsWith pkg "."), (startsWith pkg "/"), (arrIncludes nodeBuiltins pkg);
    cbn [negb andb orb]; try reflexivity.
  destruct (arrIncludes a _); reflexivity.
Qed.

Lemma detectPackages_nodup files : List.NoDup (detectPackages files).
Proof. rewrite detectPackages_inferFrom. apply inferAll_NoDup. constructor. Qed.

(** The generation route: a name is detected exactly when it is the
    package of some quoted specifier, found in a parsed file, that is not
    relative, not absolute and not one of the eight built-in modules; no
    name is listed twice. *)
Theorem detectPackages_exact (files : list GeneratedFile) :
  List.NoDup (detectPackages files)
  /\ forall n, In n (detectPackages files)
       <-> exists f s, In f files /\ In s (importSpecifiers (g_content f))
                       /\ startsWith s "." = false /\ startsWith s "/" = false
                       /\ ~ In s nodeBuiltins
                       /\ n = packageNameOf s.
Proof.
  split; [apply detectPackages_nodup|].
  rewrite detectPackages_inferFrom. intros n. rewrite inferAll_In.
  assert (Hskip : forall s, detectSkips s = false
            <-> startsWith s "." = false /\ startsWith s "/" = false /\ ~ In s nodeBuiltins).
  { intros s. unfold detectSkips. rewrite !orb_false_iff, <- arrIncludes_In.
    destruct (arrIncludes nodeBuiltins s); intuition congruence. }
  split.
  - intros [[]|[f [s (Hf & Hs & Hk & Hn)]]]. apply Hskip in Hk. exists f, s. tauto.
  - intros [f [s (Hf & Hs & H1 & H2 & H3 & Hn)]]. right. exists f, s.
    split; [exact Hf|]. split; [exact Hs|]. split; [apply Hskip; tauto|exact Hn].
Qed.

(** ** The names that are inferred *)

Lemma join_splitOn s : join "/" (splitOn sep s) = s.
Proof.
  induction s as [|a s IH]; [reflexivity|]. cbn [splitOn].
  destruct (Ascii.eqb a sep) eqn:E.
  - apply Ascii.eqb_eq in E. subst a.
    pose proof (TargetFacts.splitOn_nonempty sep s) as Hne.
    destruct (splitOn sep s) as [|h t] eqn:Es; [congruence|].
    rewrite PathFacts.join_cons2, IH. reflexivity.
  - pose proof (TargetFacts.splitOn_nonempty sep s) as Hne.
    destruct (splitOn sep s) as [|h t] eqn:Es; [congruence|].
    destruct t as [|h2 t].
    + change (join "/" [h]) with h in IH. subst s. reflexivity.
    + rewrite PathFacts.join_cons2 in *. rewrite sapp_String, IH. reflexivity.
Qed.

Lemma firstn_join_prefix n l : startsWith (join "/" l) (join "/" (firstn n l)) = true.
Proof.
  destruct (firstn n l) as [|x f] eqn:Ef; [destruct (join "/" l); reflexivity|].
  rewrite <- Ef. rewrite <- (firstn_skipn n l) at 1.
  destruct (skipn n l) as [|y r] eqn:Es.
  - rewrite app_nil_r. apply TargetFacts.startsWith_refl.
  - rewrite TargetFacts.join_app by (rewrite ?Ef; congruence).
    apply startsWith_app, TargetFacts.startsWith_refl.
Qed.

Lemma packageNameOf_prefix s : startsWith s (packageNameOf s) = true.
Proof.
  unfold packageNameOf. pose proof (join_splitOn s) as E.
  set (l := splitOn sep s) in *.
  destruct (startsWith s "@"); rewrite <- E.
  - apply firstn_join_prefix.
  - pose proof (firstn_join_prefix 1 l) as H.
    destruct l as [|h t]; [reflexivity|]. exact H.
Qed.

Lemma head_splitOn_empty s :
  hd "" (splitOn sep s) = "" -> s = "" \/ startsWith s "/" = true.
Proof.
  destruct s as [|a s]; [auto|]. cbn [splitOn].
  destruct (Ascii.eqb a sep) eqn:E.
  - intros _. right. unfold sep in E. rewrite startsWith_cons, E. reflexivity.
  - destruct (splitOn sep s); discriminate.
Qed.

Lemma packageNameOf_nonempty s :
  s <> "" -> startsWith s "/" = false -> packageNameOf s <> "".
Proof.
  intros Hne Hs. unfold packageNameOf. intros E.
  assert (Hh : hd "" (splitOn sep s) = "").
  { destruct (startsWith s "@"); [|exact E].
    destruct (splitOn sep s) as [|h [|h2 t]]; [reflexivity|exact E|].
    cbn [firstn] in E. rewrite PathFacts.join_cons2 in E.
    destruct h; [reflexivity|discriminate]. }
  destruct (head_splitOn_empty s Hh); congruence.
Qed.

Lemma takeWhile_nonzero f s : Nat.eqb (String.length (takeWhile f s)) 0 = false -> takeWhile f s <> "".
Proof. intros H E. rewrite E in H. discriminate. Qed.

Lemma matchImportAt_spec s spec len : matchImportAt s = Some (spec, len) -> spec <> "".
Proof.
  unfold matchImportAt. cbv zeta.
  destruct (Nat.eqb _ 0); [discriminate|].
  destruct (sliceFrom _ (sliceFrom _ (sliceFrom _ s))) as [|c s4]; [discriminate|].
  destruct (isQuote c); [|discriminate].
  destruct (Nat.eqb (String.length (takeWhile notQuote s4)) 0) eqn:El; [discriminate|].
  destruct (sliceFrom _ s4) as [|c' s6]; [discriminate|].
  destruct (isQuote c'); [|discriminate].
  intros H. inversion H; subst. apply takeWhile_nonzero, El.
Qed.

Lemma importSpecifiers_nonempty text s : In s (importSpecifiers text) -> s <> "".
Proof.
  intros H. apply ParserShape.scanFrom_In in H as (suffix & len & H).
  eapply matchImportAt_spec, H.
Qed.

(** ** Where specifiers are looked for *)

Fixpoint allOf (f : ascii -> bool) (s : string) : bool :=
  match s with
  | EmptyString => true
  | String a s' => f a && allOf f s'
  end.

Lemma takeWhile_allOf f s : allOf f (takeWhile f s) = true.
Proof.
  induction s as [|a s IH]; [reflexivity|]. cbn [takeWhile].
  destruct (f a) eqn:E; [|reflexivity]. cbn [allOf]. rewrite E. exact IH.
Qed.

Lemma takeWhile_sliceFrom f s :
  s = takeWhile f s +:+ sliceFrom (String.length (takeWhile f s)) s.
Proof.
  induction s as [|a s IH]; [reflexivity|]. cbn [takeWhile].
  destruct (f a); [|reflexivity]. cbn [String.length sliceFrom].
  rewrite sapp_String, <- IH. reflexivity.
Qed.

Lemma startsWith_sliceFrom s p :
  startsWith s p = true -> s = p +:+ sliceFrom (String.length p) s.
Proof.
  revert s. induction p as [|b p IH]; intros s H; [reflexivity|].
  destruct s as [|a s]; [discriminate|]. rewrite startsWith_cons in H.
  apply andb_true_iff in H as [Hab H]. apply Ascii.eqb_eq in Hab. subst b.
  cbn [String.length sliceFrom]. rewrite sapp_String, <- (IH _ H). reflexivity.
Qed.

Lemma scanFrom_suffix {A} (matchAt : string -> option (A * nat)) (a : A) s : forall skip,
  In a (scanFrom matchAt skip s) ->
  exists before suffix len, s = before +:+ suffix /\ matchAt suffix = Some (a, len).
Proof.
  induction s as [|c s IH]; intros skip H; [contradiction|].
  assert (Hrec : forall k, In a (scanFrom matchAt k s) ->
            exists before suffix len,
              String c s = before +:+ suffix /\ matchAt suffix = Some (a, len)).
  { intros k Hk. destruct (IH _ Hk) as (before & suffix & len & -> & Hm).
    exists (String c before), suffix, len. split; [reflexivity|exact Hm]. }
  cbn [scanFrom] in H. destruct skip as [|k]; [|eapply Hrec, H].
  destruct (matchAt (String c s)) as [[b len]|] eqn:E; [|eapply Hrec, H].
  destruct H as [<-|H]; [|eapply Hrec, H].
  exists "", (String c s), len. split; [reflexivity|exact E].
Qed.

(** A match of the import expression, taken apart. *)
Lemma matchImportAt_parts s spec len :
  matchImportAt s = Some (spec, len) ->
  exists keyword blank paren opening closing after,
    s = keyword +:+ blank +:+ paren +:+ String opening (spec +:+ String closing after)
    /\ (keyword = "import" \/ keyword = "require")
    /\ allOf is_space blank = true
    /\ (paren = "" \/ paren = "(")
    /\ isQuote opening = true /\ isQuote closing = true.
Proof.
  unfold matchImportAt. cbv zeta.
  set (kw := if startsWith s "import" then 6 else if startsWith s "require" then 7 else 0).
  destruct (Nat.eqb kw 0) eqn:Ekw; [discriminate|].
  assert (Hk : exists keyword, (keyword = "import" \/ keyword = "require")
                 /\ s = keyword +:+ sliceFrom kw s).
  { unfold kw in *. destruct (startsWith s "import") eqn:E1.
    - exists "import". split; [auto|]. apply (startsWith_sliceFrom s "import" E1).
    - destruct (startsWith s "require") eqn:E2; [|discriminate].
      exists "require". split; [auto|]. apply (startsWith_sliceFrom s "require" E2). }
  destruct Hk as (keyword & Hkw & Es).
  set (s1 := sliceFrom kw s) in *.
  pose proof (takeWhile_sliceFrom is_space s1) as E1.
  set (blank := takeWhile is_space s1) in *.
  set (s2 := sliceFrom (String.length blank) s1) in *.
  assert (Hp : exists paren, (paren = "" \/ paren = "(")
                 /\ s2 = paren +:+ sliceFrom (if startsWith s2 "(" then 1 else 0) s2).
  { destruct (startsWith s2 "(") eqn:E.
    - exists "(". split; [auto|]. apply (startsWith_sliceFrom s2 "(" E).
    - exists "". split; [auto|reflexivity]. }
  destruct Hp as (paren & Hparen & E2).
  set (s3 := sliceFrom (if startsWith s2 "(" then 1 else 0) s2) in *.
  destruct s3 as [|opening s4] eqn:E3; [discriminate|].
  destruct (isQuote opening) eqn:Hq1; [|discriminate].
  pose proof (takeWhile_sliceFrom notQuote s4) as E4.
  destruct (Nat.eqb (String.length (takeWhile notQuote s4)) 0); [discriminate|].
  destruct (sliceFrom (String.length (takeWhile notQuote s4)) s4) as [|closing after] eqn:E5;
    [discriminate|].
  destruct (isQuote closing) eqn:Hq2; [|discriminate].
  intros H. inversion H; subst spec.
  exists keyword, blank, paren, opening, closing, after.
  split; [|split; [exact Hkw|split; [apply takeWhile_allOf|split; [exact Hparen|auto]]]].
  etransitivity; [exact Es|]. f_equal. etransitivity; [exact E1|]. f_equal.
  etransitivity; [exact E2|]. f_equal. f_equal. exact E4.
Qed.

(** The inference sees a specifier only where it stands in quotes right
    behind the word [import] or [require], with nothing in between but
    white space and at most one opening parenthesis: a bare import, a call
    of [require], a dynamic import.  An import with bindings, where a name
    and [from] come between the keyword and the specifier, is not seen. *)
Theorem specifiers_follow_the_keyword (text spec : string) :
  In spec (importSpecifiers text) ->
  exists before keyword blank paren opening closing after,
    text = before +:+ keyword +:+ blank +:+ paren
           +:+ String opening (spec +:+ String closing after)
    /\ (keyword = "import" \/ keyword = "require")
    /\ allOf is_space blank = true
    /\ (paren = "" \/ paren = "(")
    /\ isQuote opening = true /\ isQuote closing = true
    /\ spec <> "".
Proof.
  intros H. pose proof (importSpecifiers_nonempty _ _ H) as Hne.
  apply scanFrom_suffix in H as (before & suffix & len & -> & Hm).
  destruct (matchImportAt_parts _ _ _ Hm)
    as (keyword & blank & paren & opening & closing & after & -> & H1 & H2 & H3 & H4 & H5).
  exists before, keyword, blank, paren, opening, closing, after. repeat split; auto.
Qed.

Lemma specifiers_follow_the_keyword_witness :
  In "lodash/fp" (importSpecifiers "const fp = require ('lodash/fp');")
  /\ exists before keyword blank paren opening closing after,
      "const fp = require ('lodash/fp');"
      = before +:+ keyword +:+ blank +:+ paren
        +:+ String opening ("lodash/fp" +:+ String closing after)
      /\ (keyword = "import" \/ keyword = "require")
      /\ allOf is_space blank = true
      /\ (paren = "" \/ paren = "(")
      /\ isQuote opening = true /\ isQuote closing = true
      /\ "lodash/fp" <> "".
Proof.
  assert (H : In "lodash/fp" (importSpecifiers "const fp = require ('lodash/fp');"))
    by (vm_compute; auto).
  split; [exact H|].
  exact (specifiers_follow_the_keyword "const fp = require ('lodash/fp');" "lodash/fp" H).
Defined.

Example import_with_bindings_is_not_seen :
  importSpecifiers "import React from 'react'; import { z } from 'zod';" = []
  /\ extractPackages [mkFile "a.tsx" "import { z } from 'zod'; import 'server-only';"]
     = ["server-only"].
Proof. split; reflexivity. Qed.

Lemma inferred_name skips (F : Type) (text : F -> string) (files : list F) n :
  (forall s, skips s = false -> startsWith s "/" = false) ->
  In n (fold_left (fun acc f => inferFrom skips acc (importSpecifiers (text f))) files []) ->
  n <> "" /\ exists f s, In f files /\ In s (importSpecifiers (text f))
                        /\ startsWith s n = true.
Proof.
  intros Hskip H. apply inferAll_In in H as [[]|(f & s & Hf & Hs & Hk & ->)].
  split; [apply packageNameOf_nonempty; [eapply importSpecifiers_nonempty, Hs|auto]|].
  exists f, s. split; [exact Hf|]. split; [exact Hs|apply packageNameOf_prefix].
Qed.

(** Neither route ever infers an empty name or a name of its own making:
    each name inferred by the apply route or detected by the generation
    route is the beginning of an import specifier found in one of the files
    it was given. *)
Theorem inferred_names_are_specifier_prefixes
    (files : list FileToApply) (generated : list GeneratedFile) (n : string) :
  In n (extractPackages files) \/ In n (detectPackages generated) ->
  n <> ""
  /\ exists s,
      (In s (flat_map (fun f => importSpecifiers (content f)) files)
       \/ In s (flat_map (fun f => importSpecifiers (g_content f)) generated))
      /\ startsWith s n = true.
Proof.
  intros [H|H].
  - change (extractPackages files)
      with (fold_left (fun acc f => inferFrom applySkips acc (importSpecifiers (content f)))
              files []) in H.
    apply inferred_name in H;
      [|intros s Hk; unfold applySkips in Hk; rewrite !orb_false_iff in Hk; tauto].
    destruct H as (Hn & f & s & Hf & Hs & Hp).
    split; [exact Hn|]. exists s. split; [|exact Hp]. left. apply in_flat_map. eauto.
  - rewrite detectPackages_inferFrom in H.
    apply inferred_name in H;
      [|intros s Hk; unfold detectSkips in Hk; rewrite !orb_false_iff in Hk; tauto].
    destruct H as (Hn & f & s & Hf & Hs & Hp).
    split; [exact Hn|]. exists s. split; [|exact Hp]. right. apply in_flat_map. eauto.
Qed.

Lemma inferred_names_are_specifier_prefixes_witness :
  (In "lodash" (extractPackages [mkFile "a.ts" "require('lodash/fp')"])
   \/ In "lodash" (detectPackages []))
  /\ "lodash" <> ""
  /\ exists s,
      (In s (flat_map (fun f => importSpecifiers (content f))
               [mkFile "a.ts" "require('lodash/fp')"])
       \/ In s (flat_map (fun f => importSpecifiers (g_content f)) []))
      /\ startsWith s "lodash" = true.
Proof.
  assert (H : In "lodash" (extractPackages [mkFile "a.ts" "require('lodash/fp')"])
              \/ In "lodash" (detectPackages [])).
  { left. vm_compute. auto. }
  split; [exact H|].
  exact (inferred_names_are_specifier_prefixes
           [mkFile "a.ts" "require('lodash/fp')"] [] "lodash" H).
Defined.

Example detect_example :
  detectPackages
    [mkGenerated "a.ts" "import '@scope/pkg/deep'; require('fs'); import './b'; import '@/lib/x'"]
  = ["@scope/pkg"; "@/lib"].
Proof. reflexivity. Qed.

End GenerationFacts.

(* ====================================================================== *)
(** * Conversation state and the closing event *)
(* ====================================================================== *)

Module GenerationRunFacts.
Import JsString Regex Fs ApplyRoute GenerateRoute GenerationRun StringFacts PackageFacts.

(** ** History *)

Lemma lastN_length {A} n (l : list A) : length (lastN n l) = Nat.min n (length l).
Proof. unfold lastN. rewrite length_skipn. lia. Qed.

Lemma lastN_suffix {A} n (l : list A) : exists older, l = older ++ lastN n l.
Proof. exists (firstn (length l - n) l). unfold lastN. symmetry. apply firstn_skipn. Qed.

Lemma rememberMessage_step messages userMessage :
  length messages <= 20 ->
  length (rememberMessage messages userMessage) <= 20
  /\ rememberMessage messages userMessage <> []
  /\ exists dropped, messages ++ [userMessage] = dropped ++ rememberMessage messages userMessage.
Proof.
  intros H. unfold rememberMessage. cbv zeta.
  assert (Hl : length (messages ++ [userMessage]) = S (length messages))
    by (rewrite length_app; simpl; lia).
  destruct (Nat.ltb 20 (length (messages ++ [userMessage]))) eqn:E.
  - apply Nat.ltb_lt in E. split; [rewrite lastN_length; lia|]. split.
    + intros En. apply (f_equal (@length _)) in En. rewrite lastN_length in En.
      cbn [length] in En. lia.
    + apply lastN_suffix.
  - apply Nat.ltb_ge in E. split; [lia|]. split; [destruct messages; discriminate|].
    exists []. reflexivity.
Qed.

Lemma history_invariant sent : forall messages seen,
  length messages <= 20 ->
  (exists dropped, seen = dropped ++ messages) ->
  length (fold_left rememberMessage sent messages) <= 20
  /\ (exists dropped, seen ++ sent = dropped ++ fold_left rememberMessage sent messages)
  /\ (sent <> [] -> fold_left rememberMessage sent messages <> []).
Proof.
  induction sent as [|m sent IH]; intros messages seen Hl [dropped Hd].
  - cbn [fold_left]. rewrite app_nil_r. split; [exact Hl|]. split; [eauto|congruence].
  - cbn [fold_left].
    destruct (rememberMessage_step messages m Hl) as (H1 & H2 & [d2 H3]).
    destruct (IH (rememberMessage messages m) (seen ++ [m]) H1) as (I1 & I2 & I3).
    { exists (dropped ++ d2). rewrite Hd, <- !List.app_assoc, H3. reflexivity. }
    split; [exact I1|]. split.
    + rewrite <- List.app_assoc in I2. exact I2.
    + intros _. destruct sent as [|m2 sent]; [exact H2|]. apply I3. discriminate.
Qed.

(** The history never grows beyond twenty messages.  Starting from an
    empty history, after any number of requests the stored messages are at
    most twenty, they are the most recent ones in the order in which they
    were sent, and the history is not empty once a request was made.  The
    recorded edits, once trimmed, are at most ten, the most recent ones. *)
Theorem history_stays_bounded {E : Type} (sent : list ConversationMessage) (edits : list E) :
  length (fold_left rememberMessage sent []) <= 20
  /\ (exists dropped, sent = dropped ++ fold_left rememberMessage sent [])
  /\ (sent <> [] -> fold_left rememberMessage sent [] <> [])
  /\ length (trimEdits edits) <= 10
  /\ (exists dropped, edits = dropped ++ trimEdits edits).
Proof.
  destruct (history_invariant sent [] []) as (H1 & H2 & H3); [simpl; lia|exists []; reflexivity|].
  split; [exact H1|]. split; [exact H2|]. split; [exact H3|].
  unfold trimEdits. destruct (Nat.ltb 10 (length edits)) eqn:E0.
  - split; [rewrite lastN_length; lia|apply lastN_suffix].
  - apply Nat.ltb_ge in E0. split; [exact E0|]. exists []. reflexivity.
Qed.

Lemma filter_sublist {A} (f : A -> bool) (l : list A) : sublist (List.filter f l) l.
Proof.
  induction l as [|x l IH]; [constructor|]. cbn [List.filter].
  destruct (f x); constructor; exact IH.
Qed.

(** The model is sent the system prompt first and the prompt last, with
    at most five stored messages in between, in the order in which they are
    stored, none of which carries the identifier of the current message. *)
Theorem context_window (systemPrompt prompt : string)
    (history : option (list ConversationMessage)) (userMessage : ConversationMessage) :
  exists recent,
    promptMessages systemPrompt prompt history userMessage
    = ("system", systemPrompt) :: map (fun m => (role m, content m)) recent
      ++ [("user", prompt)]
    /\ length recent <= 5
    /\ Forall (fun m => id m <> id userMessage
                        /\ exists stored, history = Some stored /\ In m stored) recent
    /\ (forall stored, history = Some stored -> sublist recent stored).
Proof.
  unfold promptMessages. cbv zeta.
  assert (Hnil : forall h : option (list ConversationMessage),
            length (@nil ConversationMessage) <= 5
            /\ Forall (fun m => id m <> id userMessage
                                /\ exists stored, h = Some stored /\ In m stored) []
            /\ (forall stored, h = Some stored -> sublist [] stored)).
  { intros h. split; [simpl; lia|]. split; [constructor|]. intros stored _.
    apply sublist_nil_l. }
  destruct history as [stored|]; [|exists []; split; [reflexivity|apply Hnil]].
  destruct (Nat.ltb 1 (length stored)); [|exists []; split; [reflexivity|apply Hnil]].
  set (recent := List.filter _ (lastN 5 stored)).
  destruct (Nat.ltb 0 (length (map (fun m => (role m, content m)) recent))) eqn:E.
  - exists recent. split; [reflexivity|]. split; [|split].
    + unfold recent. etransitivity; [apply List.filter_length_le|].
      rewrite lastN_length. lia.
    + apply List.Forall_forall. intros m Hm. unfold recent in Hm.
      apply List.filter_In in Hm as [Hin Hid]. split.
      * apply negb_true_iff, String.eqb_neq in Hid. exact Hid.
      * exists stored. split; [reflexivity|].
        destruct (lastN_suffix 5 stored) as [older Ho]. rewrite Ho.
        apply in_app_iff. right. exact Hin.
    + intros stored' Hs. inversion Hs; subst stored'. unfold recent.
      etransitivity; [apply filter_sublist|]. unfold lastN. apply sublist_drop.
  - exists []. split; [reflexivity|apply Hnil].
Qed.

(** ** Preferences *)

Definition patternLabels : list string :=
  ["hero section edits"; "header modifications"; "styling changes";
   "button updates"; "animation requests"].

Lemma patternsOf_labels content x : In x (patternsOf content) -> In x patternLabels.
Proof.
  unfold patternsOf. rewrite !in_app_iff.
  intros [H|[H|[H|[H|H]]]];
    match type of H with In _ (if ?c then _ else _) => destruct c end;
    try contradiction; destruct H as [<-|[]]; simpl; auto 10.
Qed.

Lemma firstn_NoDup {A} n (l : list A) : List.NoDup l -> List.NoDup (firstn n l).
Proof.
  intros H. rewrite <- (firstn_skipn n l) in H. apply NoDup_app_remove_r in H. exact H.
Qed.

Lemma firstn_In {A} n (l : list A) x : In x (firstn n l) -> In x l.
Proof. intros H. rewrite <- (firstn_skipn n l). apply in_app_iff. left. exact H. Qed.

Lemma search_includes matchHere verbs :
  (forall t, matchHere t = true -> exists verb, In verb verbs /\ startsWith t verb = true) ->
  forall s afterWord, searchWordStart matchHere afterWord s = true ->
  exists verb, In verb verbs /\ includes s verb = true.
Proof.
  intros Hm. induction s as [|a s IH]; intros afterWord H; [discriminate|].
  cbn [searchWordStart] in H. apply orb_true_iff in H as [H|H].
  - apply andb_true_iff in H as [_ H]. destruct (Hm _ H) as (verb & Hin & Hs).
    exists verb. split; [exact Hin|]. apply SchemaFacts.startsWith_includes, Hs.
  - destruct (IH _ H) as (verb & Hin & Hs). exists verb. split; [exact Hin|].
    apply includes_tail, Hs.
Qed.

Lemma filter_nonempty_In {A} (f : A -> bool) l :
  0 < length (List.filter f l) -> exists x, In x l /\ f x = true.
Proof.
  destruct (List.filter f l) as [|x r] eqn:E; [simpl; lia|]. intros _.
  assert (H : In x (List.filter f l)) by (rewrite E; left; reflexivity).
  apply List.filter_In in H. eauto.
Qed.

(** What the analysis can answer.  At most three patterns are reported,
    each once, each one of the five labels.  The style is targeted only if
    some user message holds one of the seven edit verbs; messages of other
    roles count for nothing, so without a user message the answer is no
    pattern and the comprehensive style. *)
Theorem preferences_shape (messages : list ConversationMessage) :
  length (commonPatterns (analyzeUserPreferences messages)) <= 3
  /\ List.NoDup (commonPatterns (analyzeUserPreferences messages))
  /\ (forall x, In x (commonPatterns (analyzeUserPreferences messages)) ->
                In x patternLabels)
  /\ (preferredEditStyle (analyzeUserPreferences messages) = "targeted" ->
      exists m verb, In m messages /\ role m = "user" /\ In verb editVerbs
                     /\ includes (toLowerCase (content m)) verb = true)
  /\ ((forall m, In m messages -> role m <> "user") ->
      analyzeUserPreferences messages = mkPreferences [] "comprehensive").
Proof.
  unfold analyzeUserPreferences. cbv zeta. cbn [commonPatterns preferredEditStyle].
  set (users := List.filter (fun m => String.eqb (role m) "user") messages).
  set (contents := map (fun msg => toLowerCase (content msg)) users).
  split; [apply firstn_le_length|]. split; [|split; [|split]].
  - apply firstn_NoDup, ParserShape.fold_setAdd_NoDup. constructor.
  - intros x Hx. apply firstn_In, ParserShape.fold_setAdd_In in Hx as [[]|Hx].
    apply in_flat_map in Hx as (c & _ & Hx). eapply patternsOf_labels, Hx.
  - destruct (Nat.ltb _ _) eqn:E; [|discriminate]. intros _.
    apply Nat.ltb_lt in E.
    assert (Hpos : 0 < length (List.filter (searchWordStart targetedHere false) contents))
      by lia.
    apply filter_nonempty_In in Hpos as (c & Hc & Hs).
    unfold contents in Hc. apply in_map_iff in Hc as (m & <- & Hm).
    unfold users in Hm. apply List.filter_In in Hm as [Hin Hrole].
    apply String.eqb_eq in Hrole.
    destruct (search_includes targetedHere editVerbs) with (s := toLowerCase (content m))
      (afterWord := false) as (verb & Hv & Hi); [|exact Hs|].
    + intros t Ht. unfold targetedHere in Ht.
      apply existsb_exists in Ht as (verb & Hv & Ht).
      apply andb_true_iff in Ht as [Ht _]. eauto.
    + exists m, verb. auto.
  - intros Hnone.
    assert (E : users = []).
    { unfold users. induction messages as [|m ms IH]; [reflexivity|]. cbn [List.filter].
      destruct (String.eqb (role m) "user") eqn:Er.
      - apply String.eqb_eq in Er. exfalso. apply (Hnone m); [left; reflexivity|exact Er].
      - apply IH. intros m' Hm'. apply Hnone. right. exact Hm'. }
    unfold contents. rewrite E. reflexivity.
Qed.

Example preferences_example :
  analyzeUserPreferences
    [mkMessage "msg-1" "user" "Please UPDATE the hero button" 0 None (Some "m") (Some "google");
     mkMessage "msg-2" "assistant" "I will rebuild the header" 0 None (Some "m") (Some "google");
     mkMessage "msg-3" "user" "prefix the header style, change  colors" 0 None (Some "m")
       (Some "google")]
  = mkPreferences ["hero section edits"; "button updates"; "header modifications"]
      "targeted".
Proof. reflexivity. Qed.

(** ** The closing event *)

Lemma startsWith_sliceTo n : forall s p,
  startsWith (sliceTo n s) p = true -> startsWith s p = true.
Proof.
  induction n as [|n IH]; intros s p H.
  - destruct p; [destruct s; reflexivity|]. destruct s; discriminate.
  - destruct s as [|a s]; [destruct p; [reflexivity|discriminate]|].
    cbn [sliceTo] in H. destruct p as [|b p]; [reflexivity|].
    rewrite startsWith_cons in *. apply andb_true_iff in H as [-> H].
    rewrite (IH _ _ H). reflexivity.
Qed.

Lemma indexOf_prefix_free p : p <> "" -> forall s i,
  indexOf s p = Some i -> includes (sliceTo i s) p = false.
Proof.
  intros Hp. induction s as [|a s IH]; intros i H.
  - cbn [indexOf] in H. destruct p; [congruence|]. discriminate.
  - cbn [indexOf] in H. destruct (startsWith (String a s) p) eqn:Es.
    + inversion H; subst. destruct p; [congruence|reflexivity].
    + destruct (indexOf s p) as [j|] eqn:Ej; [|discriminate]. inversion H; subst.
      cbn [sliceTo]. rewrite includes_cons, (IH _ eq_refl), orb_false_r.
      destruct (startsWith (String a (sliceTo j s)) p) eqn:E2; [|reflexivity].
      apply (startsWith_sliceTo (S j) (String a s)) in E2. congruence.
Qed.

Lemma indexOf_none s p : indexOf s p = None -> includes s p = false.
Proof.
  induction s as [|a s IH]; cbn [indexOf].
  - destruct (startsWith "" p) eqn:E; [discriminate|]. intros _. cbn. rewrite E. reflexivity.
  - destruct (startsWith (String a s) p) eqn:E; [discriminate|].
    destruct (indexOf s p); [discriminate|]. intros _.
    rewrite includes_cons, E, IH by reflexivity. reflexivity.
Qed.

Lemma trimEnd_prefix s : exists t, s = trimEnd s +:+ t.
Proof.
  induction s as [|a s [t IH]]; [exists ""; reflexivity|]. cbn [trimEnd].
  destruct (trimEnd s) as [|b u].
  - destruct (is_space a); [exists (String a s); reflexivity|exists s; reflexivity].
  - exists t. rewrite sapp_String, <- IH. reflexivity.
Qed.

Lemma includes_dropWhile f s p : includes (dropWhile f s) p = true -> includes s p = true.
Proof.
  induction s as [|a s IH]; [auto|]. cbn [dropWhile].
  destruct (f a); [|auto]. intros H. apply includes_tail, IH, H.
Qed.

Lemma includes_trim s p : includes (trim s) p = true -> includes s p = true.
Proof.
  unfold trim. intros H. apply (includes_dropWhile is_space).
  destruct (trimEnd_prefix (dropWhile is_space s)) as [t E]. rewrite E.
  apply includes_app_r, H.
Qed.

Lemma explanation_no_tag text : includes (explanationOf text) "<file" = false.
Proof.
  unfold explanationOf.
  destruct (includes (trim _) "<file") eqn:E; [|reflexivity].
  apply includes_trim in E.
  destruct (indexOf text "<file") as [i|] eqn:Ei.
  - rewrite (indexOf_prefix_free "<file" ltac:(discriminate) _ _ Ei) in E. discriminate.
  - rewrite (indexOf_none _ _ Ei) in E. discriminate.
Qed.

(** The closing event always carries an explanation: the trimmed text that
    precedes the first file tag, or a stock sentence when there is none; it
    never holds the opening of a file tag.  The packages to install are
    left out rather than sent as an empty list, and hold no name twice. *)
Theorem complete_event_shape (generatedCode selectedModel selectedProvider : string) :
  ce_explanation (completeEvent generatedCode selectedModel selectedProvider) <> ""
  /\ includes (ce_explanation (completeEvent generatedCode selectedModel selectedProvider))
       "<file" = false
  /\ match ce_packagesToInstall
            (completeEvent generatedCode selectedModel selectedProvider) with
     | Some packages =>
         packages <> [] /\ List.NoDup packages
         /\ packages = detectPackages (parseFiles generatedCode)
     | None => detectPackages (parseFiles generatedCode) = []
     end.
Proof.
  unfold completeEvent. cbv zeta. cbn [ce_explanation ce_packagesToInstall].
  split; [|split].
  - destruct (explanationOf generatedCode); discriminate.
  - pose proof (explanation_no_tag generatedCode) as H.
    destruct (explanationOf generatedCode); [reflexivity|exact H].
  - destruct (detectPackages (parseFiles generatedCode)) as [|x l] eqn:E; cbn; [reflexivity|].
    split; [discriminate|]. split; [|reflexivity].
    rewrite <- E. apply GenerationFacts.detectPackages_nodup.
Qed.

End GenerationRunFacts.

(* ====================================================================== *)
(** * The web search tool *)
(* ====================================================================== *)

Module SearchToolFacts.
Import JsString Fs SearchTool.

Lemma sliceUpTo_length {A} (n : Z) (l : list A) :
  (0 <= n)%Z -> length (sliceUpTo n l) = Nat.min (Z.to_nat n) (length l).
Proof.
  intros H. unfold sliceUpTo. destruct (Z.ltb_spec n 0); [lia|]. apply length_firstn.
Qed.

Lemma sliceUpTo_In {A} (n : Z) (l : list A) x : In x (sliceUpTo n l) -> In x l.
Proof.
  assert (H : forall k, In x (firstn k l) -> In x l).
  { intros k Hk. rewrite <- (firstn_skipn k l). apply in_app_iff. left. exact Hk. }
  unfold sliceUpTo. destruct (Z.ltb n 0); apply H.
Qed.

Lemma present_nonempty o s : present o = Some s -> s <> "".
Proof. destruct o as [[|c t]|]; intros H; inversion H. discriminate. Qed.

Lemma valueOr_nonempty o fallback : fallback <> "" -> valueOr o fallback <> "".
Proof.
  intros H. unfold valueOr. destruct (present o) eqn:E; [|exact H].
  eapply present_nonempty, E.
Qed.

Definition wellFormed (h : Hit) : Prop := title h <> "" /\ snippet h <> "".

Lemma topicHits_wellFormed topic h : In h (topicHits topic) -> wellFormed h /\ url h <> "".
Proof.
  unfold topicHits. destruct (present (Text topic)) as [text|] eqn:Et; [|contradiction].
  destruct (present (FirstURL topic)) as [u|] eqn:Eu; [|contradiction].
  intros [<-|[]]. pose proof (present_nonempty _ _ Et) as Ht.
  pose proof (present_nonempty _ _ Eu) as Hu. repeat split; cbn; try assumption.
  destruct (beforeDash text); [exact Ht|discriminate].
Qed.

(** The tool never fails: whatever the network does it returns an object,
    and that object reports success only with hits in hand.  For a limit
    that is not negative the hits are at most as many as the limit, and at
    least one when the limit is at least one; every hit has a title and a
    snippet that are not empty. *)
Theorem search_results_bounded (fetch : string -> Outcome FetchResponse)
    (encodeURIComponent : string -> string) (now query : string) (maxResults : Z) :
  (success (execute fetch encodeURIComponent now query maxResults) = false ->
   results (execute fetch encodeURIComponent now query maxResults) = [])
  /\ Forall wellFormed (results (execute fetch encodeURIComponent now query maxResults))
  /\ ((0 <= maxResults)%Z ->
      Z.of_nat (length (results (execute fetch encodeURIComponent now query maxResults)))
      <= maxResults)%Z
  /\ ((1 <= maxResults)%Z ->
      success (execute fetch encodeURIComponent now query maxResults) = true ->
      results (execute fetch encodeURIComponent now query maxResults) <> []).
Proof.
  unfold execute. cbv zeta.
  destruct (fetch _) as [response|m]; [|repeat split; [constructor|cbn; lia|discriminate]].
  destruct (ok response); cbn [negb];
    [|repeat split; [constructor|cbn; lia|discriminate]].
  destruct (json response) as [data|m]; [|repeat split; [constructor|cbn; lia|discriminate]].
  set (first := match present (Abstract data) with
                | Some abstract => [_]
                | None => []
                end).
  set (all := match RelatedTopics data with
              | Some topics => first ++ _
              | None => first
              end).
  assert (Hall : Forall wellFormed all).
  { assert (Hfirst : Forall wellFormed first).
    { unfold first. destruct (present (Abstract data)) as [abstract|] eqn:Ea; [|constructor].
      constructor; [|constructor]. split; cbn.
      - apply valueOr_nonempty. discriminate.
      - eapply present_nonempty, Ea. }
    unfold all. destruct (RelatedTopics data) as [topics|]; [|exact Hfirst].
    apply Forall_app. split; [exact Hfirst|]. apply List.Forall_forall. intros h Hh.
    apply in_flat_map in Hh as (topic & _ & Hh). apply (topicHits_wellFormed topic h Hh). }
  destruct (Nat.eqb (length all) 0) eqn:E0; [repeat split; [constructor|cbn; lia|discriminate]|].
  apply Nat.eqb_neq in E0. cbn [success results]. split; [discriminate|]. split; [|split].
  - apply List.Forall_forall. intros h Hh. apply sliceUpTo_In in Hh.
    rewrite List.Forall_forall in Hall. auto.
  - intros H. rewrite sliceUpTo_length by exact H. lia.
  - intros H _ En. apply (f_equal (@length _)) in En.
    rewrite sliceUpTo_length in En by lia. cbn [length] in En. lia.
Qed.

Example search_example :
  execute
    (fun _ => Ok (mkFetchResponse true 200
       (Ok (mkData (Some "A language.") (Some "Rocq") None None
              (Some [mkTopic (Some "Coq - the former name") (Some "https://a");
                     mkTopic (Some "no link") None;
                     mkTopic (Some " - odd") (Some "https://b");
                     mkTopic (Some "Lean - a prover") (Some "https://c")])))))
    (fun q => q) "now" "rocq" 3
  = Found "rocq"
      [mkHit "Rocq" "A language." "" "DuckDuckGo";
       mkHit "Coq" "Coq - the former name" "https://a" "DuckDuckGo"]
      "now".
Proof. reflexivity. Qed.

End SearchToolFacts.

(* ====================================================================== *)
(** * The kill-sandbox route and the sandbox it shares *)
(* ====================================================================== *)

Module KillSandboxFacts.
Import JsString Fs KillSandbox.

(** The session the route ends: the active sandbox, or else the provider. *)
Definition sessionToKill (g : Globals) : option Session :=
  match activeSandbox g with
  | Some s => Some s
  | None => activeSandboxProvider g
  end.

Lemma no_sandbox_left g : activeSandbox (fst (POST g)) = None.
Proof. unfold POST. destruct g as [[s|] [p|] data [files|]]; reflexivity. Qed.

(** The route always answers 200 with success.  Afterwards no session is
    left in the globals and the file tracking, when there is one, is empty;
    this holds also when ending the session failed, in which case the answer
    says that nothing was killed.  The sandbox data is cleared only when
    there was a session.  Killing twice is killing once: a second call
    finds nothing to end, says so, and leaves the globals as they are. *)
Theorem kill_sandbox_outcome (g : Globals) :
  status (snd (POST g)) = 200
  /\ success (snd (POST g)) = true
  /\ activeSandbox (fst (POST g)) = None
  /\ activeSandboxProvider (fst (POST g)) = None
  /\ existingFiles (fst (POST g)) = option_map (fun _ => []) (existingFiles g)
  /\ sandboxData (fst (POST g))
     = match sessionToKill g with Some _ => None | None => sandboxData g end
  /\ sandboxKilled (snd (POST g))
     = match sessionToKill g with
       | Some s => match endSession s with Ok _ => true | Throw _ => false end
       | None => false
       end
  /\ POST (fst (POST g))
     = (fst (POST g), mkResponse 200 true false "No active environment found to clean").
Proof.
  unfold POST, sessionToKill.
  destruct g as [[s|] [p|] data [files|]]; cbn; repeat split.
Qed.

Example kill_fails_but_clears :
  POST (mkGlobals (Some (mkSession (fun _ _ => Throw "gone") (Some (Throw "timeout")) None))
          None (Some "data") (Some ["src/a.ts"]))
  = (mkGlobals None None None (Some []),
     mkResponse 200 true false "No active environment found to clean").
Proof. reflexivity. Qed.

(** After the kill-sandbox route has run, the run-command route turns
    every JSON request down with status 400: there is no sandbox left to
    run a command in. *)
Theorem run_command_after_kill (g : Globals) (command : option string) :
  RunCommand.status (runCommandRoute (fst (POST g)) (RunCommand.JsonBody command)) = 400
  /\ RunCommand.success (runCommandRoute (fst (POST g)) (RunCommand.JsonBody command))
     = false
  /\ (forall c, command = Some c -> c <> "" ->
        RunCommand.body (runCommandRoute (fst (POST g)) (RunCommand.JsonBody command))
        = RunCommand.Failure
            "No active sandbox session found. Please refresh or restart the preview.").
Proof.
  unfold runCommandRoute. rewrite no_sandbox_left. cbn [option_map].
  destruct command as [[|a c]|]; cbn; repeat split; intros c0 H Hne;
    inversion H; congruence.
Qed.

End KillSandboxFacts.

(* ====================================================================== *)
(** * More on the run-command route *)
(* ====================================================================== *)

Module CommandFacts.
Import JsString Regex Fs RunCommand ParserShape.

Fixpoint noSpace (s : string) : bool :=
  match s with
  | EmptyString => true
  | String a s' => negb (is_space a) && noSpace s'
  end.

Definition startsNonSpace (s : string) : Prop :=
  match s with
  | String a _ => is_space a = false
  | EmptyString => False
  end.

Lemma splitWhitespace_nonempty inWs s : splitWhitespace inWs s <> [].
Proof.
  revert inWs. induction s as [|a s IH]; intros inWs; [discriminate|]. cbn [splitWhitespace].
  destruct (is_space a).
  - destruct inWs; [apply IH|discriminate].
  - destruct (splitWhitespace false s); discriminate.
Qed.

Lemma splitWhitespace_noSpace s : forall inWs,
  Forall (fun t => noSpace t = true) (splitWhitespace inWs s).
Proof.
  induction s as [|a s IH]; intros inWs; cbn [splitWhitespace].
  - constructor; [reflexivity|constructor].
  - destruct (is_space a) eqn:Ha.
    + destruct inWs; [apply IH|constructor; [reflexivity|apply IH]].
    + specialize (IH false). destruct (splitWhitespace false s) as [|h t].
      * constructor; [cbn; rewrite Ha; reflexivity|constructor].
      * inversion IH; subst. constructor; [cbn; rewrite Ha; assumption|assumption].
Qed.

Lemma trimEnd_fixed a s :
  trimEnd (String a s) = String a s ->
  (s = "" /\ is_space a = false) \/ (s <> "" /\ trimEnd s = s).
Proof.
  cbn [trimEnd]. destruct (trimEnd s) as [|b u] eqn:E.
  - destruct (is_space a); [discriminate|]. intros H. inversion H. auto.
  - intros H. inversion H; subst s. right. split; [discriminate|reflexivity].
Qed.

Lemma splitWhitespace_tokens s :
  s <> "" -> trimEnd s = s -> forall inWs,
  exists h t, splitWhitespace inWs s = h :: t
              /\ Forall (fun x => x <> "") t
              /\ (inWs = true \/ startsNonSpace s -> h <> "").
Proof.
  induction s as [|a s IH]; [congruence|]. intros _ Hfix inWs.
  destruct (trimEnd_fixed a s Hfix) as [[-> Ha]|[Hne Hs]].
  - cbn [splitWhitespace]. rewrite Ha. eexists _, _. split; [reflexivity|].
    split; [constructor|discriminate].
  - cbn [splitWhitespace]. destruct (is_space a) eqn:Ha.
    + destruct (IH Hne Hs true) as (h & t & E & Ht & Hh). rewrite E.
      destruct inWs.
      * exists h, t. split; [reflexivity|]. split; [exact Ht|]. intros _. apply Hh. auto.
      * exists "", (h :: t). split; [reflexivity|]. split.
        -- constructor; [apply Hh; auto|exact Ht].
        -- intros [H|H]; [discriminate|]. cbn in H. congruence.
    + destruct (IH Hne Hs false) as (h & t & E & Ht & _). rewrite E.
      exists (String a h), t. split; [reflexivity|]. split; [exact Ht|discriminate].
Qed.

Lemma trim_shape c :
  trim c <> "" -> trimEnd (trim c) = trim c /\ startsNonSpace (trim c).
Proof.
  unfold trim. intros Hne. split; [apply trimEnd_idem|].
  destruct (dropWhile_head c) as [E|(a & t & E & Ha)]; rewrite E in *;
    [exfalso; apply Hne; reflexivity|].
  destruct (trimEnd_head a t Ha) as [u ->]. exact Ha.
Qed.

Fixpoint allSpace (s : string) : bool :=
  match s with
  | EmptyString => true
  | String a s' => is_space a && allSpace s'
  end.

(** A run of white space. *)
Definition isGap (w : string) : Prop := w <> "" /\ allSpace w = true.

(** The text made of a first piece and then, in turn, a gap and the next
    piece. *)
Fixpoint weave (first : string) (rest : list (string * string)) : string :=
  match rest with
  | [] => first
  | (gap, piece) :: rest' => first +:+ gap +:+ weave piece rest'
  end.

Lemma weave_String a h rest : weave (String a h) rest = String a (weave h rest).
Proof. destruct rest as [|[gap piece] rest]; reflexivity. Qed.

Lemma splitWhitespace_weave s : forall inWs,
  exists lead h gaps t,
    splitWhitespace inWs s = h :: t
    /\ length gaps = length t
    /\ Forall isGap gaps
    /\ allSpace lead = true
    /\ (inWs = false -> lead = "")
    /\ s = lead +:+ weave h (combine gaps t).
Proof.
  induction s as [|a s IH]; intros inWs.
  - exists "", "", [], []. repeat split; constructor.
  - cbn [splitWhitespace]. destruct (is_space a) eqn:Ha.
    + destruct (IH true) as (lead & h & gaps & t & E & Hl & Hg & Hlead & _ & Hs).
      rewrite E. destruct inWs.
      * exists (String a lead), h, gaps, t. split; [reflexivity|]. split; [exact Hl|].
        split; [exact Hg|]. split; [cbn; rewrite Ha; exact Hlead|].
        split; [discriminate|]. rewrite Hs at 1. reflexivity.
      * exists "", "", (String a lead :: gaps), (h :: t). split; [reflexivity|].
        split; [cbn; rewrite Hl; reflexivity|]. split.
        -- constructor; [|exact Hg]. split; [discriminate|]. cbn. rewrite Ha. exact Hlead.
        -- split; [reflexivity|]. split; [reflexivity|]. rewrite Hs at 1. reflexivity.
    + destruct (IH false) as (lead & h & gaps & t & E & Hl & Hg & _ & Hlead & Hs).
      rewrite E. rewrite (Hlead eq_refl) in Hs.
      exists "", (String a h), gaps, t. split; [reflexivity|]. split; [exact Hl|].
      split; [exact Hg|]. split; [reflexivity|]. split; [reflexivity|].
      rewrite weave_String. rewrite Hs at 1. reflexivity.
Qed.

(** What the handler does with the outcome of [runCommand]. *)
Definition respond (run : Outcome CommandResult) : Response :=
  match run with
  | Throw m => mkResponse 500 (Failure m)
  | Ok result =>
      match stdout result with
      | Throw m => mkResponse 500 (Failure m)
      | Ok out =>
          match stderr result with
          | Throw m => mkResponse 500 (Failure m)
          | Ok err =>
              mkResponse 200
                (Executed (formatOutput out err (exitCode result)) (exitCode result)
                   (if Z.eqb (exitCode result) 0 then "Success" else "Command failed"))
          end
      end
  end.

(** With a sandbox at hand, every command that is not the empty string is
    run.  The program and its arguments are the pieces of the trimmed
    command between runs of white space: the trimmed command is the program
    and then, in turn, a run of white space and the next argument, and none
    of the pieces holds white space, so quoting does not keep an argument
    together.  For a command that is not blank none of them is empty; a
    blank one is run as the empty program without arguments. *)
Theorem command_tokens (sandbox : Sandbox) (c : string) :
  c <> "" ->
  exists cmd args,
    POST (Some sandbox) (JsonBody (Some c)) = respond (sandbox cmd args)
    /\ Forall (fun t => noSpace t = true) (cmd :: args)
    /\ (trim c = "" -> cmd = "" /\ args = [])
    /\ (trim c <> "" -> Forall (fun t => t <> "") (cmd :: args))
    /\ (exists gaps,
          length gaps = length args
          /\ Forall isGap gaps
          /\ trim c = weave cmd (combine gaps args)).
Proof.
  intros Hne. set (tokens := splitWhitespace false (trim c)).
  exists (hd "" tokens), (tl tokens).
  pose proof (splitWhitespace_nonempty false (trim c)) as Hnil. fold tokens in Hnil.
  pose proof (splitWhitespace_noSpace (trim c) false) as Hsp. fold tokens in Hsp.
  split; [|split; [|split; [|split]]].
  - destruct c as [|a c]; [congruence|]. reflexivity.
  - destruct tokens; [congruence|exact Hsp].
  - intros E. unfold tokens. rewrite E. split; reflexivity.
  - intros E. destruct (trim_shape c E) as [H1 H2].
    destruct (splitWhitespace_tokens (trim c) E H1 false) as (h & t & Et & Ht & Hh).
    unfold tokens. rewrite Et. constructor; [apply Hh; auto|exact Ht].
  - destruct (splitWhitespace_weave (trim c) false)
      as (lead & h & gaps & t & E & Hl & Hg & _ & Hlead & Hs).
    unfold tokens. rewrite E. cbn [hd tl]. exists gaps. split; [exact Hl|].
    split; [exact Hg|]. rewrite (Hlead eq_refl) in Hs. exact Hs.
Qed.

Lemma command_tokens_witness :
  "echo  'a b'" <> ""
  /\ exists cmd args,
      POST (Some RunCommandFacts.failingSandbox) (JsonBody (Some "echo  'a b'"))
      = respond (RunCommandFacts.failingSandbox cmd args)
      /\ Forall (fun t => noSpace t = true) (cmd :: args)
      /\ (trim "echo  'a b'" = "" -> cmd = "" /\ args = [])
      /\ (trim "echo  'a b'" <> "" -> Forall (fun t => t <> "") (cmd :: args))
      /\ (exists gaps,
            length gaps = length args
            /\ Forall isGap gaps
            /\ trim "echo  'a b'" = weave cmd (combine gaps args)).
Proof.
  split; [discriminate|].
  apply (command_tokens RunCommandFacts.failingSandbox "echo  'a b'"). discriminate.
Defined.

Example quoted_argument_is_split :
  splitWhitespace false (trim "echo  'a b' ") = ["echo"; "'a"; "b'"].
Proof. reflexivity. Qed.

Example blank_command :
  POST (Some (fun cmd args => Ok (mkCommandResult (Ok cmd) (Ok "") 0))) (JsonBody (Some "  "))
  = mkResponse 200
      (Executed (LF +:+ "Process finished with exit code: 0") 0 "Success").
Proof. reflexivity. Qed.

End CommandFacts.

(* ====================================================================== *)
(** * The provider manager *)
(* ====================================================================== *)

Module ProviderManagerFacts.
Import JsString Fs ProviderManager.

Lemma orElse_nonempty a b : b <> "" -> orElse a b <> "".
Proof. destruct a; [auto|discriminate]. Qed.

Lemma failed_shape m : content (failed m) = "" /\ exists e, error (failed m) = Some e /\ e <> "".
Proof.
  split; [reflexivity|]. eexists. split; [reflexivity|]. apply orElse_nonempty. discriminate.
Qed.

(** The function never lets an error through: whatever the network or the
    SDK does, it returns a response, and one that carries an error has an
    empty content and an error text that is not empty.  A successful answer
    of the rendering service is never empty.  A provider other than the
    four known ones fails without any call to the outside. *)
Theorem completion_result_shape (w : World) (prompt provider : string) :
  (error (getAICompletion w prompt provider) = None
   \/ (content (getAICompletion w prompt provider) = ""
       /\ exists e, error (getAICompletion w prompt provider) = Some e /\ e <> ""))
  /\ (provider = "custom-render" ->
      error (getAICompletion w prompt provider) = None ->
      content (getAICompletion w prompt provider) <> "")
  /\ (~ In provider ["custom-render"; "groq"; "google"; "openrouter"] ->
      getAICompletion w prompt provider
      = mkAIResponse "" (Some "Unsupported AI provider selected")).
Proof.
  unfold getAICompletion. split; [|split].
  - destruct (String.eqb provider "custom-render").
    + destruct (fetch w _) as [response|m]; [|right; apply failed_shape].
      destruct (ok response); cbn [negb]; [|right; apply failed_shape].
      destruct (json response); [left; reflexivity|right; apply failed_shape].
    + destruct (String.eqb provider "groq"); [|destruct (String.eqb provider "google");
        [|destruct (String.eqb provider "openrouter")]];
        try (destruct (generateText w _ _); [left; reflexivity|right; apply failed_shape]).
      right. apply failed_shape.
  - intros ->. cbn [String.eqb Ascii.eqb Bool.eqb].
    destruct (fetch w _) as [response|m]; [|discriminate].
    destruct (ok response); cbn [negb]; [|discriminate].
    destruct (json response) as [data|]; [|discriminate]. intros _. cbn [content].
    unfold envOr. destruct (raw_output data) as [s|]; [|discriminate].
    apply orElse_nonempty. discriminate.
  - intros H.
    assert (E : forall k, In k ["custom-render"; "groq"; "google"; "openrouter"] ->
                String.eqb provider k = false).
    { intros k Hk. apply String.eqb_neq. intros ->. exact (H Hk). }
    rewrite !E by (simpl; auto). reflexivity.
Qed.

End ProviderManagerFacts.
